(** * Log collector of the Kaa C client (kaa_logging.c)

    A shallow embedding of [src/client/client-multi/client-c/src/kaa_logging.c]
    together with the properties of the log-collection core that its
    specification states.

    Conventions of the embedding:
    - C integers are [Z]; every conversion between integer types is written
      out ([to_uint16], [to_uint32], [to_size_t], [to_ssize_t]).  [size_t]
      and [ssize_t] are taken to be 64 bits wide.
    - Memory buffers are lists of bytes (each a [Z] in [0, 256)) addressed by
      an offset from the start of the buffer.
    - A pointer that the code tests against NULL is an [option].
    - The storage backend, the status view and the decision function are
      function-pointer tables; they are modelled as functions over an abstract
      backend state [S], and every call the collector makes through them is
      appended to a log of calls so that "is called once" can be stated.
    - An access outside a buffer or through a NULL pointer that the code does
      not guard is the outcome [Undefined].
    - Diagnostic logging (the KAA_LOG_ macros) is not modelled. *)

From Stdlib Require Import ZArith List Lia Bool Sorted.
Import ListNotations.
Local Open Scope Z_scope.

(** ** Integer types *)

Definition to_uint8 (z : Z) : Z := z mod 2 ^ 8.
Definition to_uint16 (z : Z) : Z := z mod 2 ^ 16.
Definition to_uint32 (z : Z) : Z := z mod 2 ^ 32.
Definition SIZE_BITS : Z := 64.
Definition to_size_t (z : Z) : Z := z mod 2 ^ SIZE_BITS.
Definition to_ssize_t (z : Z) : Z :=
  (z + 2 ^ (SIZE_BITS - 1)) mod 2 ^ SIZE_BITS - 2 ^ (SIZE_BITS - 1).

(** [sizeof(uint16_t)] and [sizeof(uint32_t)]. *)
Definition sizeof_uint16_t : Z := 2.
Definition sizeof_uint32_t : Z := 4.

(** ** Error codes (kaa_error.h; only the ones kaa_logging.c returns) *)

Inductive kaa_error_t : Type :=
| KAA_ERR_NONE
| KAA_ERR_NOMEM
| KAA_ERR_BADPARAM
| KAA_ERR_BAD_STATE
| KAA_ERR_NOT_INITIALIZED
| KAA_ERR_WRITE_FAILED.

Definition kaa_error_eqb (a b : kaa_error_t) : bool :=
  match a, b with
  | KAA_ERR_NONE, KAA_ERR_NONE
  | KAA_ERR_NOMEM, KAA_ERR_NOMEM
  | KAA_ERR_BADPARAM, KAA_ERR_BADPARAM
  | KAA_ERR_BAD_STATE, KAA_ERR_BAD_STATE
  | KAA_ERR_NOT_INITIALIZED, KAA_ERR_NOT_INITIALIZED
  | KAA_ERR_WRITE_FAILED, KAA_ERR_WRITE_FAILED => true
  | _, _ => false
  end.

(** The result of running a function of the collector. *)
Inductive outcome (A : Type) : Type :=
| Returns (a : A)
| Undefined
| OutOfFuel.
Arguments Returns {A} a.
Arguments Undefined {A}.
Arguments OutOfFuel {A}.

Definition bind {A B : Type} (m : outcome A) (k : A -> outcome B) : outcome B :=
  match m with
  | Returns a => k a
  | Undefined => Undefined
  | OutOfFuel => OutOfFuel
  end.

Notation "x <- m ;; k" := (bind m (fun x => k))
  (at level 61, m at next level, right associativity).

(** ** Bytes and buffers *)

(** [n] bytes of [v], most significant first. *)
Fixpoint be_bytes (n : nat) (v : Z) : list Z :=
  match n with
  | O => []
  | S k => (v / 256 ^ Z.of_nat k) mod 256 :: be_bytes k v
  end.

(** The number a sequence of bytes denotes, most significant first. *)
Definition be_value (bs : list Z) : Z :=
  fold_left (fun acc b => acc * 256 + b) bs 0.

Inductive endianness : Type := LittleEndian | BigEndian.

(** The [n] bytes of the object representation of an unsigned integer on a
    host of the given byte order. *)
Definition object_bytes (host : endianness) (n : nat) (v : Z) : list Z :=
  match host with
  | BigEndian => be_bytes n v
  | LittleEndian => rev (be_bytes n v)
  end.

Definition len {A : Type} (l : list A) : Z := Z.of_nat (length l).

(** Is the region of [n] bytes at offset [off] inside the buffer? *)
Definition in_range (off n : Z) (buf : list Z) : bool :=
  (0 <=? off) && (off + n <=? len buf).

(** Overwrite the bytes at offset [off] with [bs]. *)
Definition poke (off : Z) (bs : list Z) (buf : list Z) : list Z :=
  firstn (Z.to_nat off) buf ++ bs ++ skipn (Z.to_nat off + length bs) buf.

(** Read [n] bytes at offset [off]. *)
Definition peek (off : Z) (n : nat) (buf : list Z) : list Z :=
  firstn n (skipn (Z.to_nat off) buf).

(** An unguarded store through a cast pointer. *)
Definition store (off : Z) (bs : list Z) (buf : list Z) : outcome (list Z) :=
  if in_range off (len bs) buf then Returns (poke off bs buf) else Undefined.

(** An unguarded load through a cast pointer. *)
Definition load (off : Z) (n : nat) (buf : list Z) : outcome (list Z) :=
  if in_range off (Z.of_nat n) buf then Returns (peek off n buf) else Undefined.

(** ** Platform message writer and reader (kaa_platform_utils.h)

    [begin] is offset 0 of [wbuf], [end] is its length. *)

Record kaa_platform_message_writer_t : Type := {
  wbuf : list Z;
  wcurrent : Z
}.

Definition wend (w : kaa_platform_message_writer_t) : Z := len (wbuf w).

Record kaa_platform_message_reader_t : Type := {
  rbuf : list Z;
  rcurrent : Z
}.

(** Modelled from the spec: kaa_platform_utils.c is not among the sources.
    "For every emitted record, the on-wire footprint after the size field is
    size rounded up to the next multiple of 4" (in [size_t] arithmetic). *)
Definition KAA_ALIGNMENT : Z := 4.
Definition kaa_aligned_size_get (size : Z) : Z :=
  to_size_t (size + (KAA_ALIGNMENT - size mod KAA_ALIGNMENT) mod KAA_ALIGNMENT).

(** Modelled from the spec: kaa_platform_utils.c is not among the sources.
    A write step copies the data at [current] and advances it; it fails when
    the buffer is exhausted. *)
Definition kaa_platform_message_write
    (w : kaa_platform_message_writer_t) (data : list Z)
  : kaa_error_t * kaa_platform_message_writer_t :=
  if wcurrent w + len data <=? wend w then
    (KAA_ERR_NONE,
     {| wbuf := poke (wcurrent w) data (wbuf w);
        wcurrent := wcurrent w + len data |})
  else (KAA_ERR_WRITE_FAILED, w).

(** [data_size] bytes of [data] followed by zero padding, the aligned size
    in all. *)
Definition padded (data : list Z) (data_size : Z) : list Z :=
  let aligned_size := Z.to_nat (kaa_aligned_size_get data_size) in
  firstn aligned_size
    (firstn (Z.to_nat data_size) data ++ repeat 0 aligned_size).

(** Modelled from the spec: kaa_platform_utils.c is not among the sources.
    The payload is written "padded to a 4-byte alignment boundary"; the step
    fails when the buffer is exhausted. *)
Definition kaa_platform_message_write_aligned
    (w : kaa_platform_message_writer_t) (data : list Z) (data_size : Z)
  : kaa_error_t * kaa_platform_message_writer_t :=
  if wcurrent w + kaa_aligned_size_get data_size <=? wend w then
    (KAA_ERR_NONE,
     {| wbuf := poke (wcurrent w) (padded data data_size) (wbuf w);
        wcurrent := wcurrent w + kaa_aligned_size_get data_size |})
  else (KAA_ERR_WRITE_FAILED, w).

(** Modelled from the spec: kaa_platform_common.h is not among the sources.
    The code keeps the length field of the header at offset 4, four bytes
    wide, so the fixed header is 8 bytes. *)
Definition KAA_EXTENSION_HEADER_SIZE : Z := 8.

(** Modelled from the spec: kaa_platform_utils.c is not among the sources.
    "generic extension header: type, flags, body length", big-endian: one
    byte of type, three of options, four of payload length. *)
Definition kaa_platform_message_extension_header_write
    (w : kaa_platform_message_writer_t) (extension_type options payload_size : Z)
  : kaa_error_t * kaa_platform_message_writer_t :=
  kaa_platform_message_write w
    (be_bytes 1 extension_type ++ be_bytes 3 options ++ be_bytes 4 payload_size).

(** What the platform headers fix and the sources do not show: the byte
    order of the host and the numeric tag of the logging extension. *)
Record kaa_platform : Type := {
  host_order : endianness;
  KAA_LOGGING_EXTENSION_TYPE : Z
}.

(** ** Data model (kaa_logging.h, kaa_status.h, kaa_channel_manager.h) *)

(** A serialized record as the backend stores and returns it; a NULL
    [record_data] is the sentinel "no more records". *)
Record kaa_log_entry_t : Type := {
  record_data : option (list Z);
  record_size : Z
}.

(** A log record in its application form.  [get_size] is what
    [entry->get_size(entry)] returns, [serialize] the bytes that
    [entry->serialize(writer, entry)] produces. *)
Record kaa_user_log_record_t : Type := {
  get_size : Z;
  serialize : list Z
}.

Record kaa_log_upload_properties_t : Type := {
  max_log_storage_volume : Z;
  max_log_block_size : Z
}.

Inductive kaa_log_upload_decision_t : Type := NOOP | UPLOAD | CLEANUP.

Inductive kaa_service_t : Type := KAA_SERVICE_LOGGING | KAA_SERVICE_OTHER.

(** The backend: a table of function pointers acting on the backend's own
    state [S].  [get_record], [upload_succeeded] and [upload_failed] are the
    entries the collector tests against NULL. *)
Record kaa_log_storage_t (S : Type) : Type := {
  add_log_record : kaa_log_entry_t -> S -> S;
  get_record : option (Z -> Z -> S -> kaa_log_entry_t * S);
  shrink_to_size : Z -> S -> S;
  upload_succeeded : option (Z -> S -> S);
  upload_failed : option (Z -> S -> S);
  destroy : S -> S
}.
Arguments add_log_record {S} _ _ _.
Arguments get_record {S} _.
Arguments shrink_to_size {S} _ _ _.
Arguments upload_succeeded {S} _.
Arguments upload_failed {S} _.
Arguments destroy {S} _ _.

(** The status view of the backend. *)
Record kaa_storage_status_t (S : Type) : Type := {
  get_records_count : option (S -> Z);
  get_total_size : option (S -> Z)
}.
Arguments get_records_count {S} _.
Arguments get_total_size {S} _.

(** The decision function receives the status pointer the collector holds. *)
Definition log_upload_decision_fn (S : Type) : Type :=
  option (kaa_storage_status_t S) -> S -> kaa_log_upload_decision_t.

(** Modelled from the spec: kaa_status.h is not among the sources.  The
    "durable counter store" holding the persisted 16-bit bucket id. *)
Record kaa_status_t : Type := {
  status_log_bucket_id : Z
}.

(** Modelled from the spec: kaa_status.c is not among the sources.
    [kaa_status_get_log_bucket_id(status, &out)] copies the stored id to
    [out]; a NULL status is an error and leaves [out] as it was. *)
Definition kaa_status_get_log_bucket_id (st : option kaa_status_t) (out : Z)
  : kaa_error_t * Z :=
  match st with
  | Some s => (KAA_ERR_NONE, to_uint16 (status_log_bucket_id s))
  | None => (KAA_ERR_BADPARAM, out)
  end.

(** Modelled from the spec: kaa_channel_manager.c is not among the sources.
    "A lookup by service kind returning an optional callable". *)
Record kaa_channel_manager_t : Type := {
  sync_handler_registered : kaa_service_t -> bool
}.

Definition kaa_channel_manager_get_sync_handler
    (cm : option kaa_channel_manager_t) (service_type : kaa_service_t) : bool :=
  match cm with
  | Some m => sync_handler_registered m service_type
  | None => false
  end.

Definition logging_sync_services : list kaa_service_t := [KAA_SERVICE_LOGGING].

Definition KAA_LOGGING_RECEIVE_UPDATES_FLAG : Z := 1.
Definition KAA_MAX_PADDING_LENGTH : Z := 3.
Definition LOGGING_RESULT_SUCCESS : Z := 0.

Record kaa_log_collector_t (S : Type) : Type := {
  log_bucket_id : Z;
  log_storage : option (kaa_log_storage_t S);
  log_properties : option kaa_log_upload_properties_t;
  log_storage_status : option (kaa_storage_status_t S);
  is_upload_needed_fn : option (log_upload_decision_fn S);
  status : option kaa_status_t;
  channel_manager : option kaa_channel_manager_t
}.
Arguments log_bucket_id {S} _.
Arguments log_storage {S} _.
Arguments log_properties {S} _.
Arguments log_storage_status {S} _.
Arguments is_upload_needed_fn {S} _.
Arguments status {S} _.
Arguments channel_manager {S} _.

(** ** Calls made through the function-pointer tables *)

Inductive call : Type :=
| Call_is_upload_needed
| Call_add_log_record (record : kaa_log_entry_t)
| Call_get_record (id remaining_size : Z) (result : kaa_log_entry_t)
| Call_shrink_to_size (size : Z)
| Call_upload_succeeded (id : Z)
| Call_upload_failed (id : Z)
| Call_destroy
| Call_sync (services : list kaa_service_t) (count : Z).

(** The state outside the collector: the backend's state and the calls made
    so far, oldest first. *)
Record world (S : Type) : Type := {
  backend : S;
  calls : list call
}.
Arguments backend {S} _.
Arguments calls {S} _.

Definition invoke {S : Type} (c : call) (f : S -> S) (w : world S) : world S :=
  {| backend := f (backend w); calls := calls w ++ [c] |}.

(** What the allocator answers: does [KAA_MALLOC(n)] return a block, does
    [avro_writer_memory(buf, n)] return a writer. *)
Record allocator : Type := {
  KAA_MALLOC : Z -> bool;
  avro_writer_memory : Z -> bool
}.

(** ** The collector (kaa_logging.c) *)

Section Collector.

Context {S : Type}.

Definition sizeof_kaa_log_collector_t : Z := 64.

(** [kaa_log_collector_create].  [log_collector_p] tells whether the result
    pointer is non-NULL.  The function leaves [is_upload_needed_fn] of the
    fresh block unassigned: [uninitialized] is whatever the block held. *)
Definition kaa_log_collector_create
    (mem : allocator) (uninitialized : option (log_upload_decision_fn S))
    (log_collector_p : bool)
    (status : option kaa_status_t)
    (channel_manager : option kaa_channel_manager_t)
  : kaa_error_t * option (kaa_log_collector_t S) :=
  if negb log_collector_p then (KAA_ERR_BADPARAM, None)
  else if negb (KAA_MALLOC mem sizeof_kaa_log_collector_t) then (KAA_ERR_NOMEM, None)
  else
    (KAA_ERR_NONE,
     Some {| log_bucket_id := 0;
             log_storage := None;
             log_storage_status := None;
             log_properties := None;
             is_upload_needed_fn := uninitialized;
             status := status;
             channel_manager := channel_manager |}).

(** [kaa_log_collector_destroy]. *)
Definition kaa_log_collector_destroy
    (self : option (kaa_log_collector_t S)) (w : world S) : world S :=
  match self with
  | Some self =>
      match log_storage self with
      | Some storage => invoke Call_destroy (destroy storage) w
      | None => w
      end
  | None => w
  end.

(** [kaa_logging_init]. *)
Definition kaa_logging_init
    (collector : option (kaa_log_collector_t S))
    (storage : option (kaa_log_storage_t S))
    (properties : option kaa_log_upload_properties_t)
    (status_view : option (kaa_storage_status_t S))
    (need_upl : option (log_upload_decision_fn S))
    (w : world S)
  : kaa_error_t * (option (kaa_log_collector_t S) * world S) :=
  match collector with
  | None => (KAA_ERR_BADPARAM, (collector, w))
  | Some c =>
      match storage, status_view, need_upl, properties with
      | Some _, Some _, Some _, Some _ =>
          let w :=
            match log_storage c with
            | Some old => invoke Call_destroy (destroy old) w
            | None => w
            end in
          (KAA_ERR_NONE,
           (Some {| log_bucket_id := log_bucket_id c;
                    log_storage := storage;
                    log_properties := properties;
                    log_storage_status := status_view;
                    is_upload_needed_fn := need_upl;
                    status := status c;
                    channel_manager := channel_manager c |},
            w))
      | _, _, _, _ => (KAA_ERR_BADPARAM, (collector, w))
      end
  end.

(** [update_storage]: evaluate the decision function and act on it.  For
    CLEANUP the arguments of the warning are evaluated first: the current
    size, by a call through [get_total_size] of the status view, and the
    storage volume of the properties.  The getter only reads the backend
    (as in [kaa_profile_request_get_size]); its value goes to the logger
    and nowhere else.  kaa_log.h is not among the sources: the warning is
    taken to evaluate its arguments, as a call does. *)
Definition update_storage (self : kaa_log_collector_t S) (w : world S)
  : outcome (world S) :=
  match is_upload_needed_fn self with
  | None => Undefined
  | Some is_upload_needed =>
      let decision := is_upload_needed (log_storage_status self) (backend w) in
      let w := invoke Call_is_upload_needed (fun s => s) w in
      match decision with
      | CLEANUP =>
          match log_storage_status self with
          | None => Undefined
          | Some status_view =>
          match get_total_size status_view with
          | None => Undefined
          | Some get_total =>
              let current_size := get_total (backend w) in
              match log_storage self, log_properties self with
              | Some storage, Some properties =>
                  Returns
                    (invoke (Call_shrink_to_size (max_log_storage_volume properties))
                            (shrink_to_size storage (max_log_storage_volume properties))
                            w)
              | _, _ => Undefined
              end
          end end
      | UPLOAD =>
          if kaa_channel_manager_get_sync_handler (channel_manager self) KAA_SERVICE_LOGGING
          then Returns (invoke (Call_sync logging_sync_services 1) (fun s => s) w)
          else Returns w
      | NOOP => Returns w
      end
  end.

(** The record buffer after [entry->serialize]: [size] bytes, the serialized
    form first. *)
Definition serialized (entry : kaa_user_log_record_t) (size : Z) : list Z :=
  firstn (Z.to_nat size) (serialize entry ++ repeat 0 (Z.to_nat size)).

(** [kaa_logging_add_record]. *)
Definition kaa_logging_add_record
    (mem : allocator)
    (self : option (kaa_log_collector_t S))
    (entry : option kaa_user_log_record_t)
    (w : world S)
  : outcome (kaa_error_t * world S) :=
  match self, entry with
  | Some self, Some entry =>
      match log_storage self, is_upload_needed_fn self, log_storage_status self with
      | Some storage, Some _, Some _ =>
          let size := get_size entry in
          if 0 <? size then
            if negb (KAA_MALLOC mem (size * 1)) then Returns (KAA_ERR_NOMEM, w)
            else if negb (avro_writer_memory mem size) then Returns (KAA_ERR_NOMEM, w)
            else
              let record :=
                {| record_data := Some (serialized entry size);
                   record_size := size |} in
              let w := invoke (Call_add_log_record record)
                              (add_log_record storage record) w in
              w <- update_storage self w ;;
              Returns (KAA_ERR_NONE, w)
          else Returns (KAA_ERR_BADPARAM, w)
      | _, _, _ => Returns (KAA_ERR_BAD_STATE, w)
      end
  | _, _ => Returns (KAA_ERR_BADPARAM, w)
  end.

(** [kaa_profile_request_get_size].  [expected_size] is the cell the result
    pointer designates (NULL when [None]); the cell is returned updated. *)
Definition kaa_profile_request_get_size
    (self : option (kaa_log_collector_t S)) (expected_size : option Z)
    (w : world S)
  : kaa_error_t * option Z :=
  match self, expected_size with
  | Some self, Some _ =>
      match log_storage_status self, log_properties self with
      | Some status_view, Some properties =>
          match get_records_count status_view, get_total_size status_view with
          | Some get_count, Some get_total =>
              let expected := KAA_EXTENSION_HEADER_SIZE in
              let expected := to_size_t (expected + sizeof_uint32_t) in
              let records_count := to_uint16 (get_count (backend w)) in
              let total_size := to_size_t (get_total (backend w)) in
              let actual_size :=
                to_size_t (to_size_t (to_size_t (records_count * sizeof_uint32_t)
                                      + to_size_t (records_count * KAA_MAX_PADDING_LENGTH))
                           + total_size) in
              let expected :=
                to_size_t (expected +
                           (if actual_size <? to_size_t (max_log_block_size properties)
                            then actual_size
                            else to_size_t (max_log_block_size properties))) in
              (KAA_ERR_NONE, Some expected)
          | _, _ => (KAA_ERR_BAD_STATE, expected_size)
          end
      | _, _ => (KAA_ERR_NOT_INITIALIZED, expected_size)
      end
  | _, _ => (KAA_ERR_BADPARAM, expected_size)
  end.

(** The optional notification [upload_failed(id)]. *)
Definition notify_upload_failed
    (storage : kaa_log_storage_t S) (id : Z) (w : world S) : world S :=
  match upload_failed storage with
  | Some f => invoke (Call_upload_failed id) (f id) w
  | None => w
  end.

(** The optional notification [upload_succeeded(id)]. *)
Definition notify_upload_succeeded
    (storage : kaa_log_storage_t S) (id : Z) (w : world S) : world S :=
  match upload_succeeded storage with
  | Some f => invoke (Call_upload_succeeded id) (f id) w
  | None => w
  end.

(** The state of the record loop of [kaa_logging_request_serialize]. *)
Record loop_state : Type := {
  ls_writer : kaa_platform_message_writer_t;
  ls_remaining_size : Z;
  ls_records_count : Z;
  ls_world : world S
}.

(** The [for] loop of [kaa_logging_request_serialize]: one [get_record] per
    turn, until the sentinel.  [fuel] bounds the number of turns. *)
Fixpoint serialize_records
    (fuel : nat) (host : endianness) (storage : kaa_log_storage_t S)
    (get : Z -> Z -> S -> kaa_log_entry_t * S) (id : Z) (st : loop_state)
  : outcome (kaa_error_t * loop_state) :=
  match fuel with
  | O => OutOfFuel
  | Datatypes.S fuel' =>
      let (entry, s') := get id (ls_remaining_size st) (backend (ls_world st)) in
      let w := {| backend := s';
                  calls := calls (ls_world st)
                           ++ [Call_get_record id (ls_remaining_size st) entry] |} in
      match record_data entry with
      | None =>
          Returns (KAA_ERR_NONE,
                   {| ls_writer := ls_writer st;
                      ls_remaining_size := ls_remaining_size st;
                      ls_records_count := ls_records_count st;
                      ls_world := w |})
      | Some data =>
          let records_count := to_uint16 (ls_records_count st + 1) in
          let remaining_size :=
            to_ssize_t (ls_remaining_size st
                        - to_size_t (kaa_aligned_size_get (to_size_t (record_size entry))
                                     + sizeof_uint32_t)) in
          match kaa_platform_message_write (ls_writer st)
                  (object_bytes host 4 (record_size entry)) with
          | (KAA_ERR_NONE, writer) =>
              match kaa_platform_message_write_aligned writer data
                      (to_size_t (record_size entry)) with
              | (KAA_ERR_NONE, writer) =>
                  serialize_records fuel' host storage get id
                    {| ls_writer := writer;
                       ls_remaining_size := remaining_size;
                       ls_records_count := records_count;
                       ls_world := w |}
              | (_, writer) =>
                  Returns (KAA_ERR_WRITE_FAILED,
                           {| ls_writer := writer;
                              ls_remaining_size := remaining_size;
                              ls_records_count := records_count;
                              ls_world := notify_upload_failed storage id w |})
              end
          | (_, writer) =>
              Returns (KAA_ERR_WRITE_FAILED,
                       {| ls_writer := writer;
                          ls_remaining_size := remaining_size;
                          ls_records_count := records_count;
                          ls_world := notify_upload_failed storage id w |})
          end
      end
  end.

(** Every turn that goes on writes at least the 4-byte size field, so this
    many turns are enough whatever the backend returns. *)
Definition loop_fuel (writer : kaa_platform_message_writer_t) : nat :=
  Datatypes.S (Z.to_nat ((wend writer - wcurrent writer) / 4)).

Definition set_log_bucket_id (self : kaa_log_collector_t S) (id : Z)
  : kaa_log_collector_t S :=
  {| log_bucket_id := id;
     log_storage := log_storage self;
     log_properties := log_properties self;
     log_storage_status := log_storage_status self;
     is_upload_needed_fn := is_upload_needed_fn self;
     status := status self;
     channel_manager := channel_manager self |}.

Definition advance (writer : kaa_platform_message_writer_t) (n : Z)
  : kaa_platform_message_writer_t :=
  {| wbuf := wbuf writer; wcurrent := wcurrent writer + n |}.

(** [kaa_logging_request_serialize], past the NULL checks of its two
    arguments. *)
Definition request_serialize
    (pf : kaa_platform) (self : kaa_log_collector_t S)
    (writer : kaa_platform_message_writer_t) (w : world S)
  : outcome (kaa_error_t
             * (kaa_log_collector_t S * kaa_platform_message_writer_t * world S)) :=
  match log_storage self with
  | None => Returns (KAA_ERR_BAD_STATE, (self, writer, w))
  | Some storage =>
  match get_record storage with
  | None => Returns (KAA_ERR_BAD_STATE, (self, writer, w))
  | Some get =>
  match log_properties self with
  | None => Returns (KAA_ERR_BAD_STATE, (self, writer, w))
  | Some properties =>
      let total_size := sizeof_uint32_t in
      let extension_header_size_p := wcurrent writer + sizeof_uint32_t in
      match kaa_platform_message_extension_header_write writer
              (KAA_LOGGING_EXTENSION_TYPE pf) KAA_LOGGING_RECEIVE_UPDATES_FLAG 0 with
      | (KAA_ERR_NONE, writer) =>
          match (if log_bucket_id self =? 0
                 then kaa_status_get_log_bucket_id (status self) (log_bucket_id self)
                 else (KAA_ERR_NONE, log_bucket_id self)) with
          | (KAA_ERR_NONE, id) =>
              let self := set_log_bucket_id self (to_uint16 (id + 1)) in
              buf <- store (wcurrent writer) (be_bytes 2 (log_bucket_id self))
                           (wbuf writer) ;;
              let writer := advance {| wbuf := buf; wcurrent := wcurrent writer |}
                                    sizeof_uint16_t in
              let records_count_p := wcurrent writer in
              let writer := advance writer sizeof_uint16_t in
              let remaining_size := to_ssize_t (max_log_block_size properties) in
              r <- serialize_records (loop_fuel writer) (host_order pf) storage get
                     (log_bucket_id self)
                     {| ls_writer := writer;
                        ls_remaining_size := remaining_size;
                        ls_records_count := 0;
                        ls_world := w |} ;;
              match r with
              | (KAA_ERR_NONE, st) =>
                  let total_size :=
                    to_uint32 (total_size
                               + to_size_t (max_log_block_size properties
                                            - ls_remaining_size st)) in
                  buf <- store extension_header_size_p (be_bytes 4 total_size)
                               (wbuf (ls_writer st)) ;;
                  buf <- store records_count_p (be_bytes 2 (ls_records_count st)) buf ;;
                  Returns (KAA_ERR_NONE,
                           (self,
                            {| wbuf := buf; wcurrent := wcurrent (ls_writer st) |},
                            ls_world st))
              | (e, st) => Returns (e, (self, ls_writer st, ls_world st))
              end
          | (_, id) =>
              Returns (KAA_ERR_BAD_STATE, (set_log_bucket_id self id, writer, w))
          end
      | (_, writer) => Returns (KAA_ERR_WRITE_FAILED, (self, writer, w))
      end
  end end end.

(** [kaa_logging_request_serialize]. *)
Definition kaa_logging_request_serialize
    (pf : kaa_platform)
    (self : option (kaa_log_collector_t S))
    (writer : option kaa_platform_message_writer_t) (w : world S)
  : outcome (kaa_error_t
             * (option (kaa_log_collector_t S)
                * option kaa_platform_message_writer_t * world S)) :=
  match self, writer with
  | Some c, Some wr =>
      r <- request_serialize pf c wr w ;;
      let '(e, (c', wr', w')) := r in
      Returns (e, (Some c', Some wr', w'))
  | _, _ => Returns (KAA_ERR_BADPARAM, (self, writer, w))
  end.

(** [kaa_logging_handle_server_sync]. *)
Definition kaa_logging_handle_server_sync
    (self : option (kaa_log_collector_t S))
    (reader : option kaa_platform_message_reader_t)
    (extension_options extension_length : Z) (w : world S)
  : outcome (kaa_error_t * (option kaa_platform_message_reader_t * world S)) :=
  match self, reader with
  | Some self, Some reader =>
      match log_storage self with
      | None => Returns (KAA_ERR_NOT_INITIALIZED, (Some reader, w))
      | Some storage =>
          bs <- load (rcurrent reader) 2 (rbuf reader) ;;
          let id := be_value (map to_uint8 bs) in
          let reader := {| rbuf := rbuf reader;
                           rcurrent := rcurrent reader + sizeof_uint16_t |} in
          bs <- load (rcurrent reader) 1 (rbuf reader) ;;
          let result := be_value (map to_uint8 bs) in
          let reader := {| rbuf := rbuf reader;
                           rcurrent := rcurrent reader + sizeof_uint16_t |} in
          let w :=
            if result =? LOGGING_RESULT_SUCCESS
            then notify_upload_succeeded storage id w
            else notify_upload_failed storage id w in
          w <- update_storage self w ;;
          Returns (KAA_ERR_NONE, (Some reader, w))
      end
  | _, _ => Returns (KAA_ERR_BADPARAM, (reader, w))
  end.

End Collector.

(** Bytes a record takes in a batch: its size field and its padded payload. *)
Definition wire_size (r : kaa_log_entry_t) : Z :=
  kaa_aligned_size_get (to_size_t (record_size r)) + sizeof_uint32_t.

(** ** A conforming in-memory backend

    The backend is supplied by the integrator; the scenarios of the
    specification need one to run against. *)

Module MemoryLogStorage.

(** Modelled from the spec: no backend is among the sources.  Records wait
    in arrival order; a record handed out by [get_record] is "in flight"
    under the bucket id it was handed out for. *)
Record t : Type := {
  pending : list kaa_log_entry_t;
  in_flight : list (Z * kaa_log_entry_t)
}.

Definition empty : t := {| pending := []; in_flight := [] |}.

Definition sentinel : kaa_log_entry_t := {| record_data := None; record_size := 0 |}.

Definition total_size_of (rs : list kaa_log_entry_t) : Z :=
  fold_right (fun r acc => record_size r + acc) 0 rs.

(** Modelled from the spec: [add_log_record(record) -> void]. *)
Definition mem_add_log_record (r : kaa_log_entry_t) (s : t) : t :=
  {| pending := pending s ++ [r]; in_flight := in_flight s |}.

(** Modelled from the spec: [get_record(bucket_id, remaining_budget)]
    "returns records it judges fit within remaining_budget, one at a time,
    and returns a sentinel (null data) when no more records are eligible". *)
Definition mem_get_record (id remaining : Z) (s : t) : kaa_log_entry_t * t :=
  match pending s with
  | r :: rest =>
      if wire_size r <=? remaining
      then (r, {| pending := rest; in_flight := in_flight s ++ [(id, r)] |})
      else (sentinel, s)
  | [] => (sentinel, s)
  end.

Fixpoint drop_oldest (target : Z) (rs : list kaa_log_entry_t)
  : list kaa_log_entry_t :=
  match rs with
  | [] => []
  | r :: rest => if total_size_of rs <=? target then rs else drop_oldest target rest
  end.

(** Modelled from the spec: [shrink_to_size(target_bytes)], oldest first. *)
Definition mem_shrink_to_size (target : Z) (s : t) : t :=
  {| pending := drop_oldest target (pending s); in_flight := in_flight s |}.

(** Modelled from the spec: a record is "destroyed by the backend on
    explicit success acknowledgment". *)
Definition mem_upload_succeeded (id : Z) (s : t) : t :=
  {| pending := pending s;
     in_flight := filter (fun p => negb (fst p =? id)) (in_flight s) |}.

(** Modelled from the spec: a record is "kept for retry on failure
    acknowledgment". *)
Definition mem_upload_failed (id : Z) (s : t) : t :=
  {| pending := map snd (filter (fun p => fst p =? id) (in_flight s)) ++ pending s;
     in_flight := filter (fun p => negb (fst p =? id)) (in_flight s) |}.

Definition mem_destroy (s : t) : t := empty.

Definition storage : kaa_log_storage_t t := {|
  add_log_record := mem_add_log_record;
  get_record := Some mem_get_record;
  shrink_to_size := mem_shrink_to_size;
  upload_succeeded := Some mem_upload_succeeded;
  upload_failed := Some mem_upload_failed;
  destroy := mem_destroy
|}.

(** Modelled from the spec: the status view, "record_count equals the number
    of retained records" and "total_size is the sum of sizes". *)
Definition status_view : kaa_storage_status_t t := {|
  get_records_count := Some (fun s => len (pending s) + len (in_flight s));
  get_total_size :=
    Some (fun s => total_size_of (pending s) + total_size_of (map snd (in_flight s)))
|}.

(** Modelled from the spec: a decision function, "pure function of
    (StorageStatus, UploadProperties)": clean up above the storage volume,
    upload from one block on. *)
Definition decision (p : kaa_log_upload_properties_t) : log_upload_decision_fn t :=
  fun view s =>
    match view with
    | Some v =>
        match get_total_size v with
        | Some total =>
            if max_log_storage_volume p <? total s then CLEANUP
            else if max_log_block_size p <=? total s then UPLOAD
            else NOOP
        | None => NOOP
        end
    | None => NOOP
    end.

End MemoryLogStorage.



(** ** Vocabulary of the properties *)

(** The fields of an extension that was written from offset [start] on. *)
Definition extension_length_field (start : Z) (wr : kaa_platform_message_writer_t) : Z :=
  be_value (peek (start + 4) 4 (wbuf wr)).

Definition bucket_id_field (start : Z) (wr : kaa_platform_message_writer_t) : Z :=
  be_value (peek (start + 8) 2 (wbuf wr)).

Definition records_count_field (start : Z) (wr : kaa_platform_message_writer_t) : Z :=
  be_value (peek (start + 10) 2 (wbuf wr)).

(** Total bytes a list of records takes in a batch. *)
Definition wire_total (rs : list kaa_log_entry_t) : Z :=
  fold_right (fun r acc => wire_size r + acc) 0 rs.

(** The contract of [get_record]: a record it returns fits, with its size
    field and its padding, within the budget it was offered. *)
Definition get_record_fits {S : Type}
    (get : Z -> Z -> S -> kaa_log_entry_t * S) : Prop :=
  forall id remaining s,
    record_data (fst (get id remaining s)) <> None ->
    wire_size (fst (get id remaining s)) <= remaining.

(** The [get_record] calls that hand out the records [rs] one after the
    other, the budget going down by the wire size of each. *)
Fixpoint get_record_calls (id remaining : Z) (rs : list kaa_log_entry_t) : list call :=
  match rs with
  | [] => []
  | r :: rs' =>
      Call_get_record id remaining r
      :: get_record_calls id (remaining - wire_size r) rs'
  end.

Definition is_get_record (c : call) : bool :=
  match c with Call_get_record _ _ _ => true | _ => false end.




Definition count_calls (p : call -> bool) (cs : list call) : nat :=
  length (filter p cs).

(** The records handed out by the [get_record] calls of a log. *)
Fixpoint handed_out (cs : list call) : list kaa_log_entry_t :=
  match cs with
  | [] => []
  | Call_get_record _ _ r :: cs' =>
      match record_data r with
      | Some _ => r :: handed_out cs'
      | None => handed_out cs'
      end
  | _ :: cs' => handed_out cs'
  end.

(** What [kaa_log_collector_create] and [kaa_logging_init] establish and
    [kaa_logging_request_serialize], the one other function that updates
    the collector, keeps: the four dependencies are bound together. *)
Definition collector_inv {S : Type} (c : kaa_log_collector_t S) : Prop :=
  log_storage c <> None ->
  log_properties c <> None /\ log_storage_status c <> None /\
  is_upload_needed_fn c <> None.

(** The id that [kaa_logging_request_serialize] starts from: the one in
    memory, or when that is unset the one in durable status storage. *)
Definition base_bucket_id {S : Type} (c : kaa_log_collector_t S) : option Z :=
  if log_bucket_id c =? 0 then
    match status c with
    | Some s => Some (to_uint16 (status_log_bucket_id s))
    | None => None
    end
  else Some (log_bucket_id c).

(** Successive [kaa_logging_request_serialize] calls on one collector, with
    what each one emits: the bucket id in the request it completed, or
    nothing when it returned an error.  Writer and world are whatever the
    caller passes each time. *)
Inductive successive {S : Type} (pf : kaa_platform)
  : kaa_log_collector_t S -> list (option Z) -> kaa_log_collector_t S -> Prop :=
| successive_nil : forall c, successive pf c [] c
| successive_call : forall c wr w e c' wr' w' outs c'',
    0 <= wcurrent wr ->
    kaa_logging_request_serialize pf (Some c) (Some wr) w
      = Returns (e, (Some c', Some wr', w')) ->
    successive pf c' outs c'' ->
    successive pf c
      ((if kaa_error_eqb e KAA_ERR_NONE
        then Some (bucket_id_field (wcurrent wr) wr') else None) :: outs) c''.

(** The bucket ids a run of calls emitted. *)
Definition emitted (outs : list (option Z)) : list Z :=
  flat_map (fun o => match o with Some i => [i] | None => [] end) outs.

(** What a finished call leaves behind, part by part. *)
Definition result_code {A : Type} (r : outcome (kaa_error_t * A)) : option kaa_error_t :=
  match r with Returns (e, _) => Some e | _ => None end.

Definition result_writer {S : Type}
    (r : outcome (kaa_error_t
                  * (option (kaa_log_collector_t S)
                     * option kaa_platform_message_writer_t * world S)))
  : option kaa_platform_message_writer_t :=
  match r with Returns (_, (_, wr, _)) => wr | _ => None end.

Definition result_world {S : Type}
    (r : outcome (kaa_error_t
                  * (option (kaa_log_collector_t S)
                     * option kaa_platform_message_writer_t * world S)))
  : option (world S) :=
  match r with Returns (_, (_, _, w)) => Some w | _ => None end.

Definition result_collector {S : Type}
    (r : outcome (kaa_error_t
                  * (option (kaa_log_collector_t S)
                     * option kaa_platform_message_writer_t * world S)))
  : option (kaa_log_collector_t S) :=
  match r with Returns (_, (c, _, _)) => c | _ => None end.


(** The sync response the reader is positioned at: a 2-byte bucket id, most
    significant byte first, and a result byte. *)
Definition positioned_at (reader : kaa_platform_message_reader_t)
    (hi lo code : Z) : Prop :=
  exists pre post,
    rbuf reader = pre ++ [hi; lo; code] ++ post /\ rcurrent reader = len pre /\
    0 <= hi < 256 /\ 0 <= lo < 256 /\ 0 <= code < 256.


(** The buffer after one record has been written at [cur]. *)
Definition with_record (host : endianness) (entry : kaa_log_entry_t)
    (data : list Z) (cur : Z) (buf : list Z) : list Z :=
  poke (cur + 4) (padded data (to_size_t (record_size entry)))
       (poke cur (object_bytes host 4 (record_size entry)) buf).

(** The bytes a record takes in a batch: the size field as the host lays
    it out, then the padded payload. *)
Definition record_bytes (host : endianness) (r : kaa_log_entry_t) : list Z :=
  object_bytes host 4 (record_size r)
  ++ padded (match record_data r with Some data => data | None => [] end)
            (to_size_t (record_size r)).

(** The header as [kaa_logging_request_serialize] asks for it. *)
Definition extension_header (pf : kaa_platform) : list Z :=
  be_bytes 1 (KAA_LOGGING_EXTENSION_TYPE pf)
  ++ be_bytes 3 KAA_LOGGING_RECEIVE_UPDATES_FLAG ++ be_bytes 4 0.

(** The state in which the record loop is entered: header and bucket id
    written, two bytes skipped for the record count. *)
Definition entry_state {S : Type} (pf : kaa_platform)
    (props : kaa_log_upload_properties_t) (wr : kaa_platform_message_writer_t)
    (w : world S) (id : Z) : loop_state :=
  {| ls_writer :=
       {| wbuf := poke (wcurrent wr + 8) (be_bytes 2 id)
                       (poke (wcurrent wr) (extension_header pf) (wbuf wr));
          wcurrent := wcurrent wr + 12 |};
     ls_remaining_size := to_ssize_t (max_log_block_size props);
     ls_records_count := 0;
     ls_world := w |}.

(** The writer once the length and the record count have been back-patched. *)
Definition patched {S : Type} (start : Z) (props : kaa_log_upload_properties_t)
    (st : loop_state (S := S)) : kaa_platform_message_writer_t :=
  {| wbuf :=
       poke (start + 10) (be_bytes 2 (ls_records_count st))
         (poke (start + 4)
            (be_bytes 4
               (to_uint32
                  (4 + to_size_t (max_log_block_size props - ls_remaining_size st))))
            (wbuf (ls_writer st)));
     wcurrent := wcurrent (ls_writer st) |}.

(** Does a call to the backend carry the bucket id [id]? *)
Definition uses_id (id : Z) (c : call) : bool :=
  match c with
  | Call_get_record i _ _ => i =? id
  | Call_upload_failed i => i =? id
  | _ => false
  end.

(** Sum of the sizes of a list of records. *)
Definition sizes_total (rs : list kaa_log_entry_t) : Z :=
  fold_right (fun r acc => record_size r + acc) 0 rs.

(** The world after [update_storage] acted on the decision [d]. *)
Definition acted {S : Type} (c : kaa_log_collector_t S)
    (storage : kaa_log_storage_t S) (props : kaa_log_upload_properties_t)
    (d : kaa_log_upload_decision_t) (w : world S) : world S :=
  match d with
  | NOOP =>
      {| backend := backend w; calls := calls w ++ [Call_is_upload_needed] |}
  | UPLOAD =>
      {| backend := backend w;
         calls := calls w ++ Call_is_upload_needed
                  :: (if kaa_channel_manager_get_sync_handler (channel_manager c)
                           KAA_SERVICE_LOGGING
                      then [Call_sync logging_sync_services 1] else []) |}
  | CLEANUP =>
      {| backend := shrink_to_size storage (max_log_storage_volume props) (backend w);
         calls := calls w ++ [Call_is_upload_needed;
                              Call_shrink_to_size (max_log_storage_volume props)] |}
  end.

(** The collectors the public functions produce: created by
    [kaa_log_collector_create], then carried any number of times through
    [kaa_logging_init] and [kaa_logging_request_serialize], the two
    functions that update a collector. *)
Inductive api_built {S : Type} : kaa_log_collector_t S -> Prop :=
| api_created : forall mem uninit st cm c,
    kaa_log_collector_create mem uninit true st cm = (KAA_ERR_NONE, Some c) ->
    api_built c
| api_initialized : forall c storage props view fn w c' w',
    api_built c ->
    kaa_logging_init (Some c) storage props view fn w = (KAA_ERR_NONE, (Some c', w')) ->
    api_built c'
| api_requested : forall pf c wr w e c' wr' w',
    api_built c ->
    0 <= wcurrent wr ->
    kaa_logging_request_serialize pf (Some c) (Some wr) w
      = Returns (e, (Some c', Some wr', w')) ->
    api_built c'.

(** ** The scenarios of the specification *)

Module Scenario.

Import MemoryLogStorage.

(** Block size 100, storage volume 1000. *)
Definition properties : kaa_log_upload_properties_t :=
  {| max_log_storage_volume := 1000; max_log_block_size := 100 |}.

Definition mem : allocator :=
  {| KAA_MALLOC := fun _ => true; avro_writer_memory := fun _ => true |}.

Definition pf (host : endianness) : kaa_platform :=
  {| host_order := host; KAA_LOGGING_EXTENSION_TYPE := 4 |}.

(** The durable status of the device: the last bucket id stored is 7. *)
Definition durable : kaa_status_t := {| status_log_bucket_id := 7 |}.

(** A collector created and initialized through the public functions. *)
Definition start (p : kaa_log_upload_properties_t) (st : option kaa_status_t)
  : option (kaa_log_collector_t t) * world t :=
  snd (kaa_logging_init
         (snd (kaa_log_collector_create mem None true st None))
         (Some storage) (Some p) (Some status_view) (Some (decision p))
         {| backend := empty; calls := [] |}).

(** The collector [start] yields. *)
Definition collector_of (p : kaa_log_upload_properties_t) (st : option kaa_status_t)
  : kaa_log_collector_t t :=
  {| log_bucket_id := 0;
     log_storage := Some storage;
     log_properties := Some p;
     log_storage_status := Some status_view;
     is_upload_needed_fn := Some (decision p);
     status := st;
     channel_manager := None |}.

Definition collector : kaa_log_collector_t t := collector_of properties (Some durable).

Definition world0 : world t := {| backend := empty; calls := [] |}.

(** A user record of [n] bytes, each equal to [b]. *)
Definition user_record (n b : Z) : kaa_user_log_record_t :=
  {| get_size := n; serialize := repeat b (Z.to_nat n) |}.

(** The record the backend holds for [user_record n b]. *)
Definition stored (n b : Z) : kaa_log_entry_t :=
  {| record_data := Some (repeat b (Z.to_nat n)); record_size := n |}.

Definition add (c : kaa_log_collector_t t) (entry : kaa_user_log_record_t)
    (w : outcome (world t)) : outcome (world t) :=
  w <- w ;;
  r <- kaa_logging_add_record mem (Some c) (Some entry) w ;;
  Returns (snd r).

(** The world after records of 10, 50 and 60 bytes have been added. *)
Definition loaded : outcome (world t) :=
  add collector (user_record 60 3)
    (add collector (user_record 50 2)
       (add collector (user_record 10 1) (Returns world0))).

Definition blank (n : nat) : kaa_platform_message_writer_t :=
  {| wbuf := repeat 0 n; wcurrent := 0 |}.

(** The request built from the loaded storage into a 96-byte buffer. *)
Definition built (host : endianness) :=
  w <- loaded ;;
  kaa_logging_request_serialize (pf host) (Some collector) (Some (blank 96)) w.

(** The request built from empty storage into a 16-byte buffer. *)
Definition built_empty (host : endianness) :=
  kaa_logging_request_serialize (pf host) (Some collector) (Some (blank 16)) world0.

(** The device restarts after [built_empty]: a new collector is created
    over the status storage the first one leaves, and builds a request. *)
Definition rebuilt_after_restart (host : endianness) :=
  match result_collector (built_empty host) with
  | Some c =>
      kaa_logging_request_serialize (pf host)
        (fst (start properties (status c))) (Some (blank 16)) world0
  | None => Undefined
  end.

(** Block size 16 and one record of 12 bytes, which with its size field
    takes just the 16 bytes. *)
Definition tight : kaa_log_upload_properties_t :=
  {| max_log_storage_volume := 1000; max_log_block_size := 16 |}.

Definition built_tight (host : endianness) :=
  w <- add (collector_of tight (Some durable)) (user_record 12 5) (Returns world0) ;;
  kaa_logging_request_serialize (pf host)
    (Some (collector_of tight (Some durable))) (Some (blank 32)) w.

(** A record of 40 bytes pending and a buffer with room for the fixed 12
    bytes of the extension and 8 more. *)
Definition world40 : world t :=
  {| backend := {| pending := [stored 40 9]; in_flight := [] |}; calls := [] |}.

Definition built_short (host : endianness) :=
  kaa_logging_request_serialize (pf host) (Some collector) (Some (blank 20)) world40.

(** The states these runs go through, written out. *)
Definition tight_loaded : world t :=
  {| backend := {| pending := [stored 12 5]; in_flight := [] |};
     calls := [Call_add_log_record (stored 12 5); Call_is_upload_needed] |}.

Definition tight_writer : kaa_platform_message_writer_t :=
  {| wbuf := [4; 0; 0; 1; 0; 0; 0; 20; 0; 8; 0; 1; 12; 0; 0; 0;
              5; 5; 5; 5; 5; 5; 5; 5; 5; 5; 5; 5; 0; 0; 0; 0];
     wcurrent := 28 |}.

Definition tight_world : world t :=
  {| backend := {| pending := []; in_flight := [(8, stored 12 5)] |};
     calls := [Call_add_log_record (stored 12 5); Call_is_upload_needed;
               Call_get_record 8 16 (stored 12 5);
               Call_get_record 8 0 sentinel] |}.

Definition empty_writer (id : Z) : kaa_platform_message_writer_t :=
  {| wbuf := [4; 0; 0; 1; 0; 0; 0; 4; 0; id; 0; 0; 0; 0; 0; 0]; wcurrent := 12 |}.

Definition empty_world (id : Z) : world t :=
  {| backend := empty; calls := [Call_get_record id 100 sentinel] |}.

(** A sync response for bucket 8 with the given result code. *)
Definition response (code : Z) : kaa_platform_message_reader_t :=
  {| rbuf := [0; 8; code; 0]; rcurrent := 0 |}.

(** A collector fresh from [kaa_log_collector_create] whose unassigned
    decision field happens to hold a function. *)
Definition fresh : kaa_log_collector_t t :=
  {| log_bucket_id := 0;
     log_storage := None;
     log_properties := None;
     log_storage_status := None;
     is_upload_needed_fn := Some (decision properties);
     status := Some durable;
     channel_manager := None |}.

(** The fresh collector bound to a backend, bound again, then destroyed. *)
Definition bound_once :=
  kaa_logging_init (Some fresh) (Some storage) (Some properties) (Some status_view)
    (Some (decision properties)) world40.

Definition bound_twice :=
  kaa_logging_init (fst (snd bound_once)) (Some storage) (Some tight)
    (Some status_view) (Some (decision tight)) (snd (snd bound_once)).

Definition destroyed : world t :=
  kaa_log_collector_destroy (fst (snd bound_twice)) (snd (snd bound_twice)).

(** A response cut short after the bucket id. *)
Definition cut_response : kaa_platform_message_reader_t :=
  {| rbuf := [0; 8]; rcurrent := 0 |}.

(** The collector whose id in memory is the last 16-bit value. *)
Definition last_id : kaa_log_collector_t t := set_log_bucket_id collector 65535.

(** An allocator that grants the record buffer and refuses the writer. *)
Definition starved : allocator :=
  {| KAA_MALLOC := fun _ => true; avro_writer_memory := fun _ => false |}.

(** A status view that provides neither getter, a decision function that
    always answers CLEANUP, and the collector [kaa_logging_init] makes of
    the fresh one when given them. *)
Definition blind_view : kaa_storage_status_t t :=
  {| get_records_count := None; get_total_size := None |}.

Definition always_cleanup : log_upload_decision_fn t := fun _ _ => CLEANUP.

Definition blind : kaa_log_collector_t t :=
  {| log_bucket_id := 0;
     log_storage := Some storage;
     log_properties := Some properties;
     log_storage_status := Some blind_view;
     is_upload_needed_fn := Some always_cleanup;
     status := Some durable;
     channel_manager := None |}.

(** A status view that reports one record and the largest [size_t] as the
    total, and the collector bound to it. *)
Definition overfull_view : kaa_storage_status_t t :=
  {| get_records_count := Some (fun _ => 1);
     get_total_size := Some (fun _ => 2 ^ 64 - 1) |}.

Definition overfull : kaa_log_collector_t t :=
  {| log_bucket_id := 0;
     log_storage := Some storage;
     log_properties := Some properties;
     log_storage_status := Some overfull_view;
     is_upload_needed_fn := Some (decision properties);
     status := Some durable;
     channel_manager := None |}.

End Scenario.

(** ** Integers *)

Lemma to_size_t_small (z : Z) : 0 <= z < 2 ^ 64 -> to_size_t z = z.
Proof. intros H. unfold to_size_t, SIZE_BITS. apply Z.mod_small. exact H. Qed.

Lemma to_size_t_range (z : Z) : 0 <= to_size_t z < 2 ^ 64.
Proof. unfold to_size_t, SIZE_BITS. apply Z.mod_pos_bound. lia. Qed.

Lemma to_ssize_t_small (z : Z) : - 2 ^ 63 <= z < 2 ^ 63 -> to_ssize_t z = z.
Proof.
  intros H. unfold to_ssize_t, SIZE_BITS. change (64 - 1) with 63.
  rewrite Z.mod_small; lia.
Qed.

Lemma to_ssize_t_range (z : Z) : - 2 ^ 63 <= to_ssize_t z < 2 ^ 63.
Proof.
  unfold to_ssize_t, SIZE_BITS. change (64 - 1) with 63.
  pose proof (Z.mod_pos_bound (z + 2 ^ 63) (2 ^ 64) ltac:(lia)). lia.
Qed.

Lemma to_ssize_t_high (z : Z) : 2 ^ 63 <= z < 2 ^ 64 -> to_ssize_t z = z - 2 ^ 64.
Proof.
  intros H. unfold to_ssize_t, SIZE_BITS. change (64 - 1) with 63.
  assert (E : (z + 2 ^ 63) mod 2 ^ 64 = z - 2 ^ 63).
  { symmetry. apply (Z.mod_unique _ _ 1); lia. }
  rewrite E. lia.
Qed.

Lemma to_uint16_small (z : Z) : 0 <= z < 2 ^ 16 -> to_uint16 z = z.
Proof. intros H. unfold to_uint16. apply Z.mod_small. exact H. Qed.

(** ** Alignment *)

Lemma aligned_small (n : Z) :
  0 <= n < 2 ^ 63 ->
  kaa_aligned_size_get n = n + (4 - n mod 4) mod 4.
Proof.
  intros H. unfold kaa_aligned_size_get, KAA_ALIGNMENT.
  apply to_size_t_small.
  pose proof (Z.mod_pos_bound (4 - n mod 4) 4 ltac:(lia)). lia.
Qed.

Lemma aligned_nonneg (n : Z) : 0 <= kaa_aligned_size_get n.
Proof. unfold kaa_aligned_size_get. apply to_size_t_range. Qed.

Lemma aligned_bounds (n : Z) :
  0 <= n < 2 ^ 63 -> n <= kaa_aligned_size_get n < n + 4.
Proof.
  intros H. rewrite aligned_small by exact H.
  pose proof (Z.mod_pos_bound (4 - n mod 4) 4 ltac:(lia)). lia.
Qed.

Lemma aligned_multiple (n : Z) :
  0 <= n < 2 ^ 63 -> kaa_aligned_size_get n mod 4 = 0.
Proof.
  intros H. rewrite aligned_small by exact H.
  pose proof (Z.mod_pos_bound n 4 ltac:(lia)) as Hn.
  rewrite Z.add_mod by lia. rewrite Z.mod_mod by lia.
  assert (Hc : n mod 4 = 0 \/ n mod 4 = 1 \/ n mod 4 = 2 \/ n mod 4 = 3) by lia.
  destruct Hc as [E | [E | [E | E]]]; rewrite E; reflexivity.
Qed.

Lemma wire_size_lower (r : kaa_log_entry_t) : 4 <= wire_size r.
Proof.
  unfold wire_size, sizeof_uint32_t.
  pose proof (aligned_nonneg (to_size_t (record_size r))). lia.
Qed.

Lemma wire_total_nonneg (rs : list kaa_log_entry_t) : 0 <= wire_total rs.
Proof.
  induction rs as [| r rs IH]; simpl; [lia |].
  pose proof (wire_size_lower r). lia.
Qed.

(** ** Bytes and buffers *)

Lemma length_be_bytes (n : nat) (v : Z) : length (be_bytes n v) = n.
Proof. induction n as [| n IH]; simpl; [reflexivity | now rewrite IH]. Qed.

Lemma fold_be_bytes (n : nat) (v acc : Z) :
  fold_left (fun a b => a * 256 + b) (be_bytes n v) acc
  = acc * 256 ^ Z.of_nat n + v mod 256 ^ Z.of_nat n.
Proof.
  revert acc. induction n as [| n IH]; intros acc.
  - simpl. rewrite Z.mod_1_r. lia.
  - cbn [be_bytes fold_left]. rewrite IH.
    rewrite Nat2Z.inj_succ, Z.pow_succ_r by lia.
    assert (Hp : 0 < 256 ^ Z.of_nat n) by (apply Z.pow_pos_nonneg; lia).
    rewrite (Z.mul_comm 256 (256 ^ Z.of_nat n)).
    rewrite (Z.rem_mul_r v (256 ^ Z.of_nat n) 256) by lia.
    lia.
Qed.

Lemma be_value_be_bytes (n : nat) (v : Z) :
  be_value (be_bytes n v) = v mod 256 ^ Z.of_nat n.
Proof. unfold be_value. rewrite fold_be_bytes. lia. Qed.

Lemma len_app {A : Type} (xs ys : list A) : len (xs ++ ys) = len xs + len ys.
Proof. unfold len. rewrite length_app. lia. Qed.

Lemma len_be_bytes (n : nat) (v : Z) : len (be_bytes n v) = Z.of_nat n.
Proof. unfold len. now rewrite length_be_bytes. Qed.

Lemma len_object_bytes (host : endianness) (n : nat) (v : Z) :
  len (object_bytes host n v) = Z.of_nat n.
Proof.
  unfold len. destruct host; simpl; rewrite ?length_rev, length_be_bytes; reflexivity.
Qed.

Lemma len_poke (off : Z) (bs buf : list Z) :
  0 <= off -> off + len bs <= len buf -> len (poke off bs buf) = len buf.
Proof.
  unfold len, poke. intros H0 H1.
  rewrite !length_app, length_firstn, length_skipn. lia.
Qed.

Lemma peek_poke_same (off : Z) (bs buf : list Z) :
  0 <= off -> off + len bs <= len buf ->
  peek off (length bs) (poke off bs buf) = bs.
Proof.
  unfold len, peek, poke. intros H0 H1.
  rewrite skipn_app.
  rewrite length_firstn.
  replace (Nat.min (Z.to_nat off) (length buf)) with (Z.to_nat off) by lia.
  rewrite skipn_all2 by (rewrite length_firstn; lia).
  rewrite Nat.sub_diag. simpl.
  rewrite firstn_app, Nat.sub_diag, firstn_all. simpl. apply app_nil_r.
Qed.

Lemma peek_poke_before (off : Z) (n : nat) (off' : Z) (bs buf : list Z) :
  0 <= off -> off + Z.of_nat n <= off' -> off' <= len buf ->
  peek off n (poke off' bs buf) = peek off n buf.
Proof.
  unfold len, peek, poke. intros H0 H1 H2.
  rewrite skipn_app.
  rewrite length_firstn.
  replace (Z.to_nat off - Nat.min (Z.to_nat off') (length buf))%nat with 0%nat by lia.
  simpl skipn at 2.
  rewrite firstn_app.
  rewrite length_skipn, length_firstn.
  replace (n - (Nat.min (Z.to_nat off') (length buf) - Z.to_nat off))%nat
    with 0%nat by lia.
  simpl firstn at 2. rewrite app_nil_r.
  rewrite skipn_firstn_comm, firstn_firstn.
  f_equal. lia.
Qed.

Lemma peek_poke_after (off : Z) (n : nat) (off' : Z) (bs buf : list Z) :
  0 <= off' -> off' + len bs <= off -> off' + len bs <= len buf ->
  peek off n (poke off' bs buf) = peek off n buf.
Proof.
  unfold len, peek, poke. intros H0 H1 H2.
  f_equal.
  rewrite skipn_app, length_firstn.
  rewrite skipn_all2 by (rewrite length_firstn; lia).
  simpl.
  rewrite skipn_app.
  rewrite skipn_all2 by lia.
  simpl. rewrite skipn_skipn. f_equal. lia.
Qed.

(** ** Initialization *)

Section Lifecycle.

Context {S : Type}.

Lemma create_inv mem uninit p st cm (c : kaa_log_collector_t S) :
  kaa_log_collector_create mem uninit p st cm = (KAA_ERR_NONE, Some c) ->
  collector_inv c /\ log_storage c = None /\ log_bucket_id c = 0.
Proof.
  unfold kaa_log_collector_create.
  destruct (negb p); [discriminate |].
  destruct (negb (KAA_MALLOC mem sizeof_kaa_log_collector_t)); [discriminate |].
  intros H. injection H as <-. unfold collector_inv. simpl.
  repeat split; congruence.
Qed.

Lemma init_inv (c : kaa_log_collector_t S) storage props view fn w c' w' :
  kaa_logging_init (Some c) storage props view fn w = (KAA_ERR_NONE, (Some c', w')) ->
  collector_inv c' /\ log_storage c' = storage /\ storage <> None /\
  log_bucket_id c' = log_bucket_id c /\ status c' = status c.
Proof.
  unfold kaa_logging_init.
  destruct storage, view, fn, props; try discriminate.
  intros H. injection H as <- _. unfold collector_inv. simpl.
  repeat split; congruence.
Qed.

Lemma inv_bound (c : kaa_log_collector_t S) storage :
  collector_inv c -> log_storage c = Some storage ->
  exists props view fn,
    log_properties c = Some props /\ log_storage_status c = Some view /\
    is_upload_needed_fn c = Some fn.
Proof.
  intros Hinv Hs.
  assert (Hb : log_storage c <> None) by congruence.
  destruct (Hinv Hb) as (Hp & Hv & Hf).
  destruct (log_properties c) as [props |]; [| congruence].
  destruct (log_storage_status c) as [view |]; [| congruence].
  destruct (is_upload_needed_fn c) as [fn |]; [| congruence].
  exists props, view, fn. repeat split.
Qed.



Lemma count_calls_app (p : call -> bool) (xs ys : list call) :
  count_calls p (xs ++ ys) = (count_calls p xs + count_calls p ys)%nat.
Proof. unfold count_calls. now rewrite filter_app, length_app. Qed.

End Lifecycle.

(** ** Record ingestion *)

Section AddRecord.

Context {S : Type}.

(** The guard of [kaa_logging_add_record] examines the backend, the decision
    function and the status view. *)
Lemma add_record_guard mem (c : kaa_log_collector_t S) entry w :
  kaa_logging_add_record mem (Some c) (Some entry) w = Returns (KAA_ERR_BAD_STATE, w)
  <-> (log_storage c = None \/ is_upload_needed_fn c = None \/
       log_storage_status c = None).
Proof.
  unfold kaa_logging_add_record.
  destruct (log_storage c) as [storage |],
           (is_upload_needed_fn c) as [fn |] eqn:Hf,
           (log_storage_status c) as [view |];
    try (split; [intros _ | reflexivity]; auto).
  split.
  - destruct (0 <? get_size entry); [| discriminate].
    destruct (negb (KAA_MALLOC mem (get_size entry * 1))); [discriminate |].
    destruct (negb (avro_writer_memory mem (get_size entry))); [discriminate |].
    destruct (update_storage c _); simpl; discriminate.
  - intros [H | [H | H]]; discriminate.
Qed.

End AddRecord.

Section AddRecordClaims.

Context {S : Type}.

(** C6: on an initialized collector, [kaa_logging_add_record] with an entry
    whose [get_size] is zero or negative fails with [KAA_ERR_BADPARAM]
    (invalid argument) and makes no call: the backend state and the log of
    calls are returned as they were. *)
Theorem add_record_rejects_empty mem (c : kaa_log_collector_t S) entry w
    storage props view fn :
  log_storage c = Some storage ->
  log_properties c = Some props ->
  log_storage_status c = Some view ->
  is_upload_needed_fn c = Some fn ->
  get_size entry <= 0 ->
  kaa_logging_add_record mem (Some c) (Some entry) w = Returns (KAA_ERR_BADPARAM, w).
Proof.
  intros Hs Hp Hv Hf Hsize. unfold kaa_logging_add_record.
  rewrite Hs, Hv, Hf.
  destruct (0 <? get_size entry) eqn:E; [| reflexivity].
  apply Z.ltb_lt in E. lia.
Qed.

End AddRecordClaims.

(** ** Size estimate *)

Section RequestSize.

Context {S : Type}.

(** C9 (amended): with the status view and the properties bound and the
    view providing its two getters, [kaa_profile_request_get_size] returns
    [KAA_EXTENSION_HEADER_SIZE + 4 + min(max_log_block_size, record_count * 4
    + record_count * 3 + total_size)] computed in [size_t], that is with the
    second argument of the minimum and the final sum taken modulo 2^64; this
    is the formula itself whenever the two sums fit [size_t].  The count and
    the total are read from the status view and lie in the ranges of their
    types.  With the view bound but one of its getters missing the function
    fails with [KAA_ERR_BAD_STATE]; with the status view or the properties
    unset it fails with [KAA_ERR_NOT_INITIALIZED]; in both cases the result
    cell is left as it was. *)
Theorem request_size_estimate (c : kaa_log_collector_t S) (out : Z) (w : world S) :
  (forall view props get_count get_total,
      log_storage_status c = Some view ->
      log_properties c = Some props ->
      get_records_count view = Some get_count ->
      get_total_size view = Some get_total ->
      0 <= get_count (backend w) < 2 ^ 16 ->
      0 <= get_total (backend w) < 2 ^ 64 ->
      0 <= max_log_block_size props < 2 ^ 64 ->
      kaa_profile_request_get_size (Some c) (Some out) w
      = (KAA_ERR_NONE,
         Some (to_size_t
                 (KAA_EXTENSION_HEADER_SIZE + 4
                  + Z.min (max_log_block_size props)
                          (to_size_t (get_count (backend w) * 4
                                      + get_count (backend w) * 3
                                      + get_total (backend w))))))
      /\ (get_count (backend w) * 4 + get_count (backend w) * 3
            + get_total (backend w) < 2 ^ 64 ->
          KAA_EXTENSION_HEADER_SIZE + 4
            + Z.min (max_log_block_size props)
                    (get_count (backend w) * 4 + get_count (backend w) * 3
                     + get_total (backend w)) < 2 ^ 64 ->
          kaa_profile_request_get_size (Some c) (Some out) w
          = (KAA_ERR_NONE,
             Some (KAA_EXTENSION_HEADER_SIZE + 4
                   + Z.min (max_log_block_size props)
                           (get_count (backend w) * 4 + get_count (backend w) * 3
                            + get_total (backend w))))))
  /\ (forall view props,
      log_storage_status c = Some view ->
      log_properties c = Some props ->
      get_records_count view = None \/ get_total_size view = None ->
      kaa_profile_request_get_size (Some c) (Some out) w
      = (KAA_ERR_BAD_STATE, Some out))
  /\ (log_storage_status c = None \/ log_properties c = None ->
      kaa_profile_request_get_size (Some c) (Some out) w
      = (KAA_ERR_NOT_INITIALIZED, Some out)).
Proof.
  split; [| split].
  - intros view props get_count get_total Hv Hp Hc Ht Hn Htot Hmax.
    set (n := get_count (backend w)) in *.
    set (t := get_total (backend w)) in *.
    assert (E : kaa_profile_request_get_size (Some c) (Some out) w
                = (KAA_ERR_NONE,
                   Some (to_size_t
                           (KAA_EXTENSION_HEADER_SIZE + 4
                            + Z.min (max_log_block_size props)
                                    (to_size_t (n * 4 + n * 3 + t)))))).
    { unfold kaa_profile_request_get_size.
      rewrite Hv, Hp, Hc, Ht.
      unfold KAA_EXTENSION_HEADER_SIZE, sizeof_uint32_t, KAA_MAX_PADDING_LENGTH.
      fold n. fold t.
      rewrite (to_uint16_small n) by exact Hn.
      rewrite (to_size_t_small (8 + 4)) by lia.
      rewrite (to_size_t_small t) by lia.
      rewrite (to_size_t_small (n * 4)) by lia.
      rewrite (to_size_t_small (n * 3)) by lia.
      rewrite (to_size_t_small (n * 4 + n * 3)) by lia.
      rewrite (to_size_t_small (max_log_block_size props)) by lia.
      destruct (to_size_t (n * 4 + n * 3 + t) <? max_log_block_size props) eqn:E.
      - apply Z.ltb_lt in E. rewrite Z.min_r by lia. reflexivity.
      - apply Z.ltb_ge in E. rewrite Z.min_l by lia. reflexivity. }
    split; [exact E |].
    intros Hsum Hall. rewrite E.
    rewrite (to_size_t_small (n * 4 + n * 3 + t)) by lia.
    unfold KAA_EXTENSION_HEADER_SIZE in *.
    rewrite to_size_t_small; [reflexivity |].
    assert (0 <= Z.min (max_log_block_size props) (n * 4 + n * 3 + t)) by lia.
    lia.
  - intros view props Hv Hp H. unfold kaa_profile_request_get_size.
    rewrite Hv, Hp. destruct H as [H | H]; rewrite H; [reflexivity |].
    destruct (get_records_count view); reflexivity.
  - intros H. unfold kaa_profile_request_get_size.
    destruct H as [H | H]; rewrite H; [reflexivity |].
    destruct (log_storage_status c); reflexivity.
Qed.

End RequestSize.

(** ** Acknowledgments *)

Section ServerSync.

Context {S : Type}.

Lemma load_at (pre bs post : list Z) :
  load (len pre) (length bs) (pre ++ bs ++ post) = Returns bs.
Proof.
  unfold load, in_range, peek, len.
  rewrite !length_app.
  replace (0 <=? Z.of_nat (length pre)) with true by (symmetry; apply Z.leb_le; lia).
  replace (Z.of_nat (length pre) + Z.of_nat (length bs)
           <=? Z.of_nat (length pre + (length bs + length post))) with true
    by (symmetry; apply Z.leb_le; lia).
  simpl. rewrite Nat2Z.id.
  rewrite skipn_app, skipn_all, Nat.sub_diag. simpl.
  rewrite firstn_app, firstn_all, Nat.sub_diag. simpl.
  now rewrite app_nil_r.
Qed.

Lemma to_uint8_small (b : Z) : 0 <= b < 256 -> to_uint8 b = b.
Proof. intros H. unfold to_uint8. apply Z.mod_small. simpl. lia. Qed.




End ServerSync.

Lemma poke_app (off : Z) (xs ys buf : list Z) :
  0 <= off -> off + len xs + len ys <= len buf ->
  poke off (xs ++ ys) buf = poke (off + len xs) ys (poke off xs buf).
Proof.
  unfold len, poke. intros H0 H1.
  rewrite firstn_app, length_firstn.
  replace (Z.to_nat (off + Z.of_nat (length xs))
           - Nat.min (Z.to_nat off) (length buf))%nat with (length xs) by lia.
  rewrite (firstn_all2 (n := Z.to_nat (off + Z.of_nat (length xs)))
             (firstn (Z.to_nat off) buf)) by (rewrite length_firstn; lia).
  rewrite firstn_app, firstn_all, Nat.sub_diag. cbn [firstn]. rewrite app_nil_r.
  rewrite <- !app_assoc. do 3 f_equal.
  rewrite skipn_app, length_firstn.
  rewrite (skipn_all2 (n := (Z.to_nat (off + Z.of_nat (length xs)) + length ys)%nat)
             (firstn (Z.to_nat off) buf)) by (rewrite length_firstn; lia).
  cbn [app].
  rewrite skipn_app.
  rewrite (skipn_all2 xs) by lia. cbn [app].
  rewrite skipn_skipn, length_app. f_equal. lia.
Qed.

Lemma poke_nil (off : Z) (buf : list Z) : poke off [] buf = buf.
Proof.
  unfold poke. cbn [app length]. rewrite Nat.add_0_r. apply firstn_skipn.
Qed.

(** ** Building a request: the record loop *)

Lemma len_padded (data : list Z) (n : Z) :
  len (padded data n) = kaa_aligned_size_get n.
Proof.
  unfold len, padded.
  rewrite length_firstn, length_app, repeat_length.
  pose proof (aligned_nonneg n). lia.
Qed.

Lemma write_ok (wr : kaa_platform_message_writer_t) (data : list Z) :
  0 <= wcurrent wr ->
  wcurrent wr + len data <= wend wr ->
  kaa_platform_message_write wr data
  = (KAA_ERR_NONE,
     {| wbuf := poke (wcurrent wr) data (wbuf wr);
        wcurrent := wcurrent wr + len data |})
  /\ wend {| wbuf := poke (wcurrent wr) data (wbuf wr);
             wcurrent := wcurrent wr + len data |} = wend wr.
Proof.
  intros H0 H1. unfold kaa_platform_message_write.
  replace (wcurrent wr + len data <=? wend wr) with true
    by (symmetry; apply Z.leb_le; exact H1).
  split; [reflexivity |]. unfold wend in *. simpl. now apply len_poke.
Qed.

Lemma write_full (wr : kaa_platform_message_writer_t) (data : list Z) :
  wend wr < wcurrent wr + len data ->
  kaa_platform_message_write wr data = (KAA_ERR_WRITE_FAILED, wr).
Proof.
  intros H. unfold kaa_platform_message_write.
  replace (wcurrent wr + len data <=? wend wr) with false
    by (symmetry; apply Z.leb_gt; exact H).
  reflexivity.
Qed.

Lemma len_with_record host entry data cur buf :
  0 <= cur -> cur + wire_size entry <= len buf ->
  len (with_record host entry data cur buf) = len buf.
Proof.
  intros H0 H1. unfold with_record.
  pose proof (aligned_nonneg (to_size_t (record_size entry))) as Ha.
  unfold wire_size, sizeof_uint32_t in H1.
  assert (H2 : len (poke cur (object_bytes host 4 (record_size entry)) buf) = len buf).
  { apply len_poke; rewrite ?len_object_bytes; lia. }
  rewrite len_poke; rewrite ?len_padded, ?H2; lia.
Qed.

Lemma peek_with_record host entry data cur buf off n :
  0 <= off -> off + Z.of_nat n <= cur -> cur + wire_size entry <= len buf ->
  peek off n (with_record host entry data cur buf) = peek off n buf.
Proof.
  intros H0 H1 H2. unfold with_record.
  pose proof (aligned_nonneg (to_size_t (record_size entry))) as Ha.
  unfold wire_size, sizeof_uint32_t in H2.
  assert (H3 : len (poke cur (object_bytes host 4 (record_size entry)) buf) = len buf).
  { apply len_poke; rewrite ?len_object_bytes; lia. }
  rewrite peek_poke_before by lia.
  apply peek_poke_before; lia.
Qed.

Lemma len_record_bytes host (r : kaa_log_entry_t) :
  len (record_bytes host r) = wire_size r.
Proof.
  unfold record_bytes, wire_size, sizeof_uint32_t.
  rewrite len_app, len_object_bytes, len_padded. change (Z.of_nat 4) with 4. lia.
Qed.

Lemma with_record_bytes host (r : kaa_log_entry_t) data cur buf :
  record_data r = Some data ->
  0 <= cur -> cur + wire_size r <= len buf ->
  with_record host r data cur buf = poke cur (record_bytes host r) buf.
Proof.
  intros Hdata H0 H1. unfold with_record, record_bytes. rewrite Hdata.
  unfold wire_size, sizeof_uint32_t in H1.
  rewrite poke_app by (rewrite ?len_object_bytes, ?len_padded;
                       change (Z.of_nat 4) with 4; lia).
  rewrite len_object_bytes. reflexivity.
Qed.

Lemma len_concat_record_bytes host (rs : list kaa_log_entry_t) :
  len (concat (map (record_bytes host) rs)) = wire_total rs.
Proof.
  induction rs as [| r rs IH]; [reflexivity |].
  cbn [map concat wire_total fold_right]. fold (wire_total rs).
  now rewrite len_app, len_record_bytes, IH.
Qed.

Section RecordLoop.

Context {S : Type}.
Variable host : endianness.
Variable storage : kaa_log_storage_t S.
Variable get : Z -> Z -> S -> kaa_log_entry_t * S.
Variable id : Z.

Local Notation "'loop' fuel st" := (serialize_records fuel host storage get id st)
  (at level 10, fuel at level 9, st at level 9, only parsing).

(** One turn of the loop, the two write steps spelled out as the tests on
    the writer that decide them. *)
Lemma serialize_records_turn (fuel : nat) (st : loop_state (S := S)) :
  0 <= wcurrent (ls_writer st) ->
  loop (Datatypes.S fuel) st =
  let entry := fst (get id (ls_remaining_size st) (backend (ls_world st))) in
  let w := {| backend := snd (get id (ls_remaining_size st) (backend (ls_world st)));
              calls := calls (ls_world st)
                       ++ [Call_get_record id (ls_remaining_size st) entry] |} in
  match record_data entry with
  | None =>
      Returns (KAA_ERR_NONE,
               {| ls_writer := ls_writer st;
                  ls_remaining_size := ls_remaining_size st;
                  ls_records_count := ls_records_count st;
                  ls_world := w |})
  | Some data =>
      let count := to_uint16 (ls_records_count st + 1) in
      let remaining :=
        to_ssize_t (ls_remaining_size st - to_size_t (wire_size entry)) in
      let sized :=
        {| wbuf := poke (wcurrent (ls_writer st))
                        (object_bytes host 4 (record_size entry))
                        (wbuf (ls_writer st));
           wcurrent := wcurrent (ls_writer st) + 4 |} in
      if wcurrent (ls_writer st) + 4 <=? wend (ls_writer st) then
        if wcurrent (ls_writer st) + wire_size entry <=? wend (ls_writer st) then
          loop fuel
            {| ls_writer :=
                 {| wbuf := with_record host entry data (wcurrent (ls_writer st))
                                        (wbuf (ls_writer st));
                    wcurrent := wcurrent (ls_writer st) + wire_size entry |};
               ls_remaining_size := remaining;
               ls_records_count := count;
               ls_world := w |}
        else
          Returns (KAA_ERR_WRITE_FAILED,
                   {| ls_writer := sized;
                      ls_remaining_size := remaining;
                      ls_records_count := count;
                      ls_world := notify_upload_failed storage id w |})
      else
        Returns (KAA_ERR_WRITE_FAILED,
                 {| ls_writer := ls_writer st;
                    ls_remaining_size := remaining;
                    ls_records_count := count;
                    ls_world := notify_upload_failed storage id w |})
  end.
Proof.
  intros Hcur. cbn [serialize_records].
  destruct (get id (ls_remaining_size st) (backend (ls_world st))) as [entry s'].
  cbn [fst snd]. cbv zeta.
  destruct (record_data entry) as [data |]; [| reflexivity].
  fold (wire_size entry).
  destruct (wcurrent (ls_writer st) + 4 <=? wend (ls_writer st)) eqn:E4.
  - apply Z.leb_le in E4.
    destruct (write_ok (ls_writer st) (object_bytes host 4 (record_size entry)))
      as [Hw Hend]; rewrite ?len_object_bytes; try assumption.
    rewrite len_object_bytes in Hw, Hend. change (Z.of_nat 4) with 4 in Hw, Hend.
    rewrite Hw. unfold kaa_platform_message_write_aligned.
    rewrite Hend. cbn [wcurrent wbuf].
    unfold wire_size, sizeof_uint32_t.
    replace (wcurrent (ls_writer st) + 4
             + kaa_aligned_size_get (to_size_t (record_size entry)))
      with (wcurrent (ls_writer st)
            + (kaa_aligned_size_get (to_size_t (record_size entry)) + 4)) by lia.
    destruct (wcurrent (ls_writer st)
              + (kaa_aligned_size_get (to_size_t (record_size entry)) + 4)
              <=? wend (ls_writer st)); reflexivity.
  - apply Z.leb_gt in E4.
    rewrite write_full by (rewrite len_object_bytes; exact E4). reflexivity.
Qed.

(** The loop always comes to an end within the fuel [loop_fuel] gives it,
    and it does no unguarded access. *)
Lemma serialize_records_returns (fuel : nat) (st : loop_state (S := S)) :
  0 <= wcurrent (ls_writer st) ->
  (Z.to_nat ((wend (ls_writer st) - wcurrent (ls_writer st)) / 4) < fuel)%nat ->
  exists r, loop fuel st = Returns r.
Proof.
  revert st. induction fuel as [| fuel IH]; intros st Hcur Hfuel; [lia |].
  rewrite serialize_records_turn by exact Hcur. cbv zeta.
  destruct (record_data _) as [data |]; [| eexists; reflexivity].
  destruct (_ <=? _) eqn:E4; [| eexists; reflexivity].
  destruct (_ + wire_size _ <=? _) eqn:Ew; [| eexists; reflexivity].
  apply Z.leb_le in E4, Ew.
  set (entry := fst (get id (ls_remaining_size st) (backend (ls_world st)))) in *.
  pose proof (wire_size_lower entry) as Hlow.
  apply IH; cbn [ls_writer wcurrent wbuf]; [lia |].
  unfold wend at 1. cbn [wbuf].
  rewrite len_with_record by (unfold wend in Ew; lia).
  fold (wend (ls_writer st)).
  assert (Hq : (wend (ls_writer st) - (wcurrent (ls_writer st) + wire_size entry)) / 4
               <= (wend (ls_writer st) - wcurrent (ls_writer st)) / 4 - 1).
  { replace ((wend (ls_writer st) - wcurrent (ls_writer st)) / 4 - 1)
      with ((wend (ls_writer st) - wcurrent (ls_writer st) + (-1) * 4) / 4)
      by (rewrite Z.div_add by lia; lia).
    apply Z.div_le_mono; lia. }
  assert (Hpos : 1 <= (wend (ls_writer st) - wcurrent (ls_writer st)) / 4).
  { apply Z.div_le_lower_bound; lia. }
  lia.
Qed.

(** What the loop does, whatever the backend: it only calls [get_record];
    it keeps the buffer's size and everything before the position it
    started at; on success every record handed out has been written whole;
    on failure the record handed out last did not fit and the backend is
    notified. *)
Lemma serialize_records_spec (fuel : nat) (st : loop_state (S := S)) e st' :
  0 <= wcurrent (ls_writer st) ->
  loop fuel st = Returns (e, st') ->
  exists gets,
    forallb is_get_record gets = true /\
    wend (ls_writer st') = wend (ls_writer st) /\
    (forall off n, 0 <= off -> off + Z.of_nat n <= wcurrent (ls_writer st) ->
       peek off n (wbuf (ls_writer st')) = peek off n (wbuf (ls_writer st))) /\
    ((e = KAA_ERR_NONE /\
      calls (ls_world st') = calls (ls_world st) ++ gets /\
      wcurrent (ls_writer st')
        = wcurrent (ls_writer st) + wire_total (handed_out gets) /\
      (handed_out gets <> [] -> wcurrent (ls_writer st') <= wend (ls_writer st)) /\
      to_uint16 (ls_records_count st')
        = to_uint16 (ls_records_count st + len (handed_out gets)))
     \/
     (e = KAA_ERR_WRITE_FAILED /\
      (exists b, ls_world st'
                 = notify_upload_failed storage id
                     {| backend := b; calls := calls (ls_world st) ++ gets |}) /\
      handed_out gets <> [] /\
      wend (ls_writer st)
        < wcurrent (ls_writer st) + wire_total (handed_out gets))).
Proof.
  revert st. induction fuel as [| fuel IH]; intros st Hcur Hrun; [discriminate |].
  rewrite serialize_records_turn in Hrun by exact Hcur. cbv zeta in Hrun.
  set (entry := fst (get id (ls_remaining_size st) (backend (ls_world st)))) in *.
  pose proof (wire_size_lower entry) as Hlow.
  destruct (record_data entry) as [data |] eqn:Hdata.
  - destruct (_ <=? _) eqn:E4 in Hrun.
    + destruct (_ + wire_size _ <=? _) eqn:Ew in Hrun.
      * apply Z.leb_le in E4, Ew.
        apply IH in Hrun; [| cbn [ls_writer wcurrent]; lia].
        cbn [ls_writer ls_world ls_records_count wcurrent wbuf calls] in Hrun.
        assert (Hnew : wend {| wbuf := with_record host entry data
                                         (wcurrent (ls_writer st)) (wbuf (ls_writer st));
                               wcurrent := wcurrent (ls_writer st) + wire_size entry |}
                       = wend (ls_writer st)).
        { unfold wend. cbn [wbuf]. apply len_with_record; unfold wend in Ew; lia. }
        rewrite !Hnew in Hrun.
        destruct Hrun as (gets & Hg & Hend & Hpre & Hres).
        exists (Call_get_record id (ls_remaining_size st) entry :: gets).
        assert (Hho : handed_out (Call_get_record id (ls_remaining_size st) entry :: gets)
                      = entry :: handed_out gets)
          by (cbn [handed_out]; now rewrite Hdata).
        rewrite Hho.
        split; [exact Hg |]. split; [exact Hend |]. split.
        { intros off n H0 H1. rewrite Hpre by lia.
          apply peek_with_record; unfold wend in Ew; lia. }
        destruct Hres as [(-> & Hc & Hw & Hfit & Hcount) | (-> & (b & Hb) & Hne & Hover)].
        -- left. split; [reflexivity |]. cbn [wire_total fold_right].
           fold (wire_total (handed_out gets)).
           split; [rewrite Hc, <- app_assoc; reflexivity |].
           split; [lia |]. split.
           ++ intros _. destruct (handed_out gets) eqn:Hh.
              ** rewrite Hw. cbn. lia.
              ** apply Hfit. discriminate.
           ++ rewrite Hcount. unfold to_uint16.
              rewrite Z.add_mod_idemp_l by lia. f_equal.
              unfold len. cbn [length]. lia.
        -- right. split; [reflexivity |]. split.
           ++ exists b. rewrite Hb, <- app_assoc. reflexivity.
           ++ split; [discriminate |]. cbn [wire_total fold_right].
              fold (wire_total (handed_out gets)). lia.
      * apply Z.leb_le in E4. apply Z.leb_gt in Ew.
        injection Hrun as <- <-. cbn [ls_writer ls_world wcurrent wbuf].
        exists [Call_get_record id (ls_remaining_size st) entry].
        split; [reflexivity |]. split.
        { unfold wend. cbn [wbuf]. apply len_poke; rewrite ?len_object_bytes;
            unfold wend in E4; lia. }
        split.
        { intros off n H0 H1. apply peek_poke_before; unfold wend in E4; lia. }
        right. split; [reflexivity |]. split; [eexists; reflexivity |].
        cbn [handed_out]. rewrite Hdata. split; [discriminate |].
        cbn [wire_total fold_right]. lia.
    + apply Z.leb_gt in E4.
      injection Hrun as <- <-. cbn [ls_writer ls_world wcurrent wbuf].
      exists [Call_get_record id (ls_remaining_size st) entry].
      split; [reflexivity |]. split; [reflexivity |].
      split; [reflexivity |].
      right. split; [reflexivity |]. split; [eexists; reflexivity |].
      cbn [handed_out]. rewrite Hdata. split; [discriminate |].
      cbn [wire_total fold_right]. lia.
  - injection Hrun as <- <-. cbn [ls_writer ls_world ls_records_count calls].
    exists [Call_get_record id (ls_remaining_size st) entry].
    split; [reflexivity |]. split; [reflexivity |]. split; [reflexivity |].
    left. cbn [handed_out]. rewrite Hdata. cbn [wire_total fold_right].
    split; [reflexivity |]. split; [reflexivity |]. split; [lia |].
    split; [intros H; now contradiction H |].
    f_equal. unfold len. cbn [length]. lia.
Qed.

(** With a backend that keeps the contract, the budget offered to
    [get_record] goes down by exactly the wire size of each record handed
    out, the writer advances by the same amount, and the budget never goes
    below zero. *)
Lemma serialize_records_budget (fuel : nat) (st : loop_state (S := S)) st' :
  get_record_fits get ->
  0 <= wcurrent (ls_writer st) ->
  - 2 ^ 63 <= ls_remaining_size st < 2 ^ 63 ->
  loop fuel st = Returns (KAA_ERR_NONE, st') ->
  exists rs last,
    calls (ls_world st')
      = calls (ls_world st)
        ++ get_record_calls id (ls_remaining_size st) rs
        ++ [Call_get_record id (ls_remaining_size st - wire_total rs) last] /\
    record_data last = None /\
    Forall (fun r => record_data r <> None) rs /\
    ls_remaining_size st' = ls_remaining_size st - wire_total rs /\
    (rs <> [] -> 0 <= ls_remaining_size st') /\
    wcurrent (ls_writer st') = wcurrent (ls_writer st) + wire_total rs /\
    to_uint16 (ls_records_count st') = to_uint16 (ls_records_count st + len rs).
Proof.
  intros Hfits. revert st.
  induction fuel as [| fuel IH]; intros st Hcur Hrem Hrun; [discriminate |].
  rewrite serialize_records_turn in Hrun by exact Hcur. cbv zeta in Hrun.
  pose proof (Hfits id (ls_remaining_size st) (backend (ls_world st))) as Hfit.
  set (entry := fst (get id (ls_remaining_size st) (backend (ls_world st)))) in *.
  pose proof (wire_size_lower entry) as Hlow.
  destruct (record_data entry) as [data |] eqn:Hdata.
  - assert (Hle : wire_size entry <= ls_remaining_size st)
      by (apply Hfit; discriminate).
    assert (Hnext : to_ssize_t (ls_remaining_size st - to_size_t (wire_size entry))
                    = ls_remaining_size st - wire_size entry).
    { rewrite (to_size_t_small (wire_size entry)) by lia.
      apply to_ssize_t_small. lia. }
    rewrite Hnext in Hrun.
    destruct (_ <=? _) eqn:E4 in Hrun; [| discriminate].
    destruct (_ + wire_size _ <=? _) eqn:Ew in Hrun; [| discriminate].
    apply IH in Hrun; cbn [ls_writer ls_remaining_size wcurrent]; try lia.
    cbn [ls_writer ls_world ls_records_count ls_remaining_size wcurrent calls] in Hrun.
    destruct Hrun as (rs & last & Hc & Hlast & Hall & Hr & Hpos & Hw & Hcount).
    exists (entry :: rs), last.
    cbn [get_record_calls wire_total fold_right]. fold (wire_total rs).
    split.
    { rewrite Hc, <- !app_assoc. cbn [app].
      replace (ls_remaining_size st - (wire_size entry + wire_total rs))
        with (ls_remaining_size st - wire_size entry - wire_total rs) by lia.
      reflexivity. }
    split; [exact Hlast |]. split.
    { constructor; [rewrite Hdata; discriminate | exact Hall]. }
    split; [lia |]. split.
    { intros _. destruct rs as [| r rs]; [cbn in Hr; lia | apply Hpos; discriminate]. }
    split; [lia |].
    rewrite Hcount. unfold to_uint16. rewrite Z.add_mod_idemp_l by lia.
    f_equal. unfold len. cbn [length]. lia.
  - injection Hrun as <-. cbn [ls_writer ls_world ls_records_count ls_remaining_size calls].
    exists [], entry. cbn [get_record_calls wire_total fold_right app].
    rewrite Z.sub_0_r, !Z.add_0_r.
    split; [reflexivity |]. split; [exact Hdata |]. split; [constructor |].
    split; [reflexivity |]. split; [intros H; now contradiction H |].
    split; reflexivity.
Qed.

(** On success the buffer holds, from the position the loop started at, the
    records handed out, one after the other. *)
Lemma serialize_records_bytes (fuel : nat) (st : loop_state (S := S)) st' :
  0 <= wcurrent (ls_writer st) ->
  loop fuel st = Returns (KAA_ERR_NONE, st') ->
  wbuf (ls_writer st')
  = poke (wcurrent (ls_writer st))
         (concat (map (record_bytes host)
                      (handed_out (skipn (length (calls (ls_world st)))
                                         (calls (ls_world st'))))))
         (wbuf (ls_writer st)).
Proof.
  revert st. induction fuel as [| fuel IH]; intros st Hcur Hrun; [discriminate |].
  rewrite serialize_records_turn in Hrun by exact Hcur. cbv zeta in Hrun.
  set (entry := fst (get id (ls_remaining_size st) (backend (ls_world st)))) in *.
  pose proof (wire_size_lower entry) as Hlow.
  destruct (record_data entry) as [data |] eqn:Hdata.
  - destruct (_ <=? _) eqn:E4 in Hrun; [| discriminate].
    destruct (_ + wire_size _ <=? _) eqn:Ew in Hrun; [| discriminate].
    apply Z.leb_le in E4, Ew. unfold wend in Ew.
    set (st1 := {| ls_writer := _ |}) in Hrun.
    assert (Hcur1 : 0 <= wcurrent (ls_writer st1)) by (cbn; lia).
    pose proof (IH st1 Hcur1 Hrun) as Hbuf.
    destruct (serialize_records_spec fuel st1 _ st' Hcur1 Hrun)
      as (gets & _ & _ & _ & [(_ & Hc & Hw & Hfit & _) | (He & _)]);
      [| discriminate].
    cbn [st1 ls_writer ls_world wcurrent wbuf calls] in Hbuf, Hc, Hw, Hfit.
    rewrite Hc in Hbuf |- *.
    rewrite skipn_app, skipn_all, Nat.sub_diag in Hbuf. cbn [skipn app] in Hbuf.
    rewrite <- app_assoc, skipn_app, skipn_all, Nat.sub_diag. cbn [skipn app].
    cbn [handed_out]. rewrite Hdata. cbn [map concat].
    rewrite Hbuf.
    rewrite (with_record_bytes host entry data) by (assumption || lia).
    assert (Hroom : wcurrent (ls_writer st) + wire_size entry
                    + wire_total (handed_out gets) <= len (wbuf (ls_writer st))).
    { destruct (handed_out gets) as [| r rs] eqn:Hh; [cbn; lia |].
      assert (Hle : wcurrent (ls_writer st') <= wend (ls_writer st1))
        by (apply Hfit; discriminate).
      unfold wend in Hle. cbn [st1 ls_writer wbuf] in Hle.
      rewrite len_with_record in Hle by lia. lia. }
    rewrite (poke_app (wcurrent (ls_writer st)))
      by (rewrite ?len_record_bytes, ?len_concat_record_bytes; lia).
    rewrite len_record_bytes. reflexivity.
  - injection Hrun as <-. cbn [ls_writer ls_world calls].
    rewrite skipn_app, skipn_all, Nat.sub_diag. cbn [skipn app handed_out].
    rewrite Hdata. cbn [map concat]. now rewrite poke_nil.
Qed.

End RecordLoop.

(** ** Building a request: the whole function *)

Section Request.

Context {S : Type}.
Variable pf : kaa_platform.

Lemma len_extension_header : len (extension_header pf) = 8.
Proof. reflexivity. Qed.

(** [request_serialize] with its guards spelled out as tests on the writer. *)
Lemma request_serialize_eq (c : kaa_log_collector_t S) wr w storage get props :
  log_storage c = Some storage ->
  get_record storage = Some get ->
  log_properties c = Some props ->
  0 <= wcurrent wr ->
  request_serialize pf c wr w =
  if wcurrent wr + 8 <=? wend wr then
    match base_bucket_id c with
    | None =>
        Returns (KAA_ERR_BAD_STATE,
                 (set_log_bucket_id c (log_bucket_id c),
                  {| wbuf := poke (wcurrent wr) (extension_header pf) (wbuf wr);
                     wcurrent := wcurrent wr + 8 |},
                  w))
    | Some b =>
        let id := to_uint16 (b + 1) in
        if wcurrent wr + 10 <=? wend wr then
          r <- serialize_records (loop_fuel (ls_writer (entry_state pf props wr w id)))
                 (host_order pf) storage get id (entry_state pf props wr w id) ;;
          match r with
          | (KAA_ERR_NONE, st) =>
              if wcurrent wr + 12 <=? wend (ls_writer st)
              then Returns (KAA_ERR_NONE,
                            (set_log_bucket_id c id, patched (wcurrent wr) props st,
                             ls_world st))
              else Undefined
          | (e, st) =>
              Returns (e, (set_log_bucket_id c id, ls_writer st, ls_world st))
          end
        else Undefined
    end
  else Returns (KAA_ERR_WRITE_FAILED, (c, wr, w)).
Proof.
  intros Hs Hg Hp Hcur. unfold request_serialize. rewrite Hs, Hg, Hp.
  unfold kaa_platform_message_extension_header_write, kaa_platform_message_write.
  change (be_bytes 1 (KAA_LOGGING_EXTENSION_TYPE pf)
          ++ be_bytes 3 KAA_LOGGING_RECEIVE_UPDATES_FLAG ++ be_bytes 4 0)
    with (extension_header pf).
  rewrite len_extension_header.
  destruct (wcurrent wr + 8 <=? wend wr) eqn:E8; [| reflexivity].
  apply Z.leb_le in E8.
  assert (Hlen1 : len (poke (wcurrent wr) (extension_header pf) (wbuf wr)) = wend wr).
  { unfold wend in *. apply len_poke; rewrite ?len_extension_header; lia. }
  unfold base_bucket_id, kaa_status_get_log_bucket_id.
  assert (Hmid :
    forall b,
      (buf <- store (wcurrent wr + 8) (be_bytes 2 (to_uint16 (b + 1)))
                (poke (wcurrent wr) (extension_header pf) (wbuf wr)) ;;
       r <- serialize_records
              (loop_fuel
                 (advance (advance {| wbuf := buf; wcurrent := wcurrent wr + 8 |}
                                   sizeof_uint16_t) sizeof_uint16_t))
              (host_order pf) storage get (to_uint16 (b + 1))
              {| ls_writer :=
                   advance (advance {| wbuf := buf; wcurrent := wcurrent wr + 8 |}
                                    sizeof_uint16_t) sizeof_uint16_t;
                 ls_remaining_size := to_ssize_t (max_log_block_size props);
                 ls_records_count := 0;
                 ls_world := w |} ;;
       match r with
       | (KAA_ERR_NONE, st) =>
           buf0 <- store (wcurrent wr + sizeof_uint32_t)
                     (be_bytes 4
                        (to_uint32
                           (sizeof_uint32_t
                            + to_size_t (max_log_block_size props
                                         - ls_remaining_size st))))
                     (wbuf (ls_writer st)) ;;
           buf1 <- store (wcurrent wr + 8 + sizeof_uint16_t)
                     (be_bytes 2 (ls_records_count st)) buf0 ;;
           Returns (KAA_ERR_NONE,
                    (set_log_bucket_id c (to_uint16 (b + 1)),
                     {| wbuf := buf1; wcurrent := wcurrent (ls_writer st) |},
                     ls_world st))
       | (e, st) =>
           Returns (e, (set_log_bucket_id c (to_uint16 (b + 1)), ls_writer st,
                        ls_world st))
       end)
      = (if wcurrent wr + 10 <=? wend wr then
           r <- serialize_records
                  (loop_fuel (ls_writer (entry_state pf props wr w (to_uint16 (b + 1)))))
                  (host_order pf) storage get (to_uint16 (b + 1))
                  (entry_state pf props wr w (to_uint16 (b + 1))) ;;
           match r with
           | (KAA_ERR_NONE, st) =>
               if wcurrent wr + 12 <=? wend (ls_writer st)
               then Returns (KAA_ERR_NONE,
                             (set_log_bucket_id c (to_uint16 (b + 1)),
                              patched (wcurrent wr) props st, ls_world st))
               else Undefined
           | (e, st) =>
               Returns (e, (set_log_bucket_id c (to_uint16 (b + 1)), ls_writer st,
                            ls_world st))
           end
         else Undefined)).
  { intros b. unfold store at 1, in_range. rewrite len_be_bytes, Hlen1.
    replace (0 <=? wcurrent wr + 8) with true by (symmetry; apply Z.leb_le; lia).
    change (Z.of_nat 2) with 2. cbn [andb].
    replace (wcurrent wr + 8 + 2) with (wcurrent wr + 10) by lia.
    destruct (wcurrent wr + 10 <=? wend wr) eqn:E10; [| reflexivity].
    cbn [bind]. unfold advance, sizeof_uint16_t, sizeof_uint32_t. cbn [wbuf wcurrent].
    replace (wcurrent wr + 8 + 2 + 2) with (wcurrent wr + 12) by lia.
    fold (entry_state pf props wr w (to_uint16 (b + 1))).
    destruct (serialize_records _ _ _ _ _ _) as [[e st] | |]; try reflexivity.
    cbn [bind].
    destruct e; try reflexivity.
    unfold store, in_range, patched. rewrite !len_be_bytes.
    change (Z.of_nat 4) with 4. change (Z.of_nat 2) with 2.
    replace (wcurrent wr + 8 + 2) with (wcurrent wr + 10) by lia.
    replace (0 <=? wcurrent wr + 4) with true by (symmetry; apply Z.leb_le; lia).
    replace (0 <=? wcurrent wr + 10) with true by (symmetry; apply Z.leb_le; lia).
    cbn [andb]. fold (wend (ls_writer st)).
    destruct (wcurrent wr + 12 <=? wend (ls_writer st)) eqn:E12.
    - apply Z.leb_le in E12.
      replace (wcurrent wr + 4 + 4 <=? wend (ls_writer st)) with true
        by (symmetry; apply Z.leb_le; lia).
      cbn [bind]. rewrite len_poke by (rewrite ?len_be_bytes; unfold wend in E12; lia).
      fold (wend (ls_writer st)).
      replace (wcurrent wr + 10 + 2 <=? wend (ls_writer st)) with true
        by (symmetry; apply Z.leb_le; lia).
      reflexivity.
    - apply Z.leb_gt in E12.
      destruct (wcurrent wr + 4 + 4 <=? wend (ls_writer st)) eqn:E8'; [| reflexivity].
      cbn [bind]. rewrite len_poke
        by (apply Z.leb_le in E8'; rewrite ?len_be_bytes; unfold wend in E8'; lia).
      fold (wend (ls_writer st)).
      replace (wcurrent wr + 10 + 2 <=? wend (ls_writer st)) with false
        by (symmetry; apply Z.leb_gt; lia).
      reflexivity. }
  cbn [wbuf wcurrent].
  destruct (log_bucket_id c =? 0) eqn:E0.
  - destruct (status c) as [s |]; [| reflexivity].
    cbn [set_log_bucket_id log_bucket_id]. cbv zeta.
    rewrite <- Hmid. reflexivity.
  - apply Z.eqb_neq in E0.
    cbn [set_log_bucket_id log_bucket_id]. cbv zeta.
    rewrite <- Hmid. reflexivity.
Qed.

End Request.

Section RequestRuns.

Context {S : Type}.
Variable pf : kaa_platform.

Lemma outer_inv (c : kaa_log_collector_t S) wr w e oc owr w' :
  kaa_logging_request_serialize pf (Some c) (Some wr) w = Returns (e, (oc, owr, w')) ->
  exists c' wr',
    oc = Some c' /\ owr = Some wr' /\
    request_serialize pf c wr w = Returns (e, (c', wr', w')).
Proof.
  unfold kaa_logging_request_serialize.
  destruct (request_serialize pf c wr w) as [[e0 [[c0 wr0] w0]] | |];
    cbn [bind]; try discriminate.
  intros H. injection H as <- <- <- <-. eauto.
Qed.

Lemma outer_run (c : kaa_log_collector_t S) wr w e c' wr' w' :
  request_serialize pf c wr w = Returns (e, (c', wr', w')) ->
  kaa_logging_request_serialize pf (Some c) (Some wr) w
  = Returns (e, (Some c', Some wr', w')).
Proof. intros H. unfold kaa_logging_request_serialize. now rewrite H. Qed.

Lemma entry_state_end props wr (w : world S) id :
  0 <= wcurrent wr -> wcurrent wr + 10 <= wend wr ->
  wend (ls_writer (entry_state pf props wr w id)) = wend wr.
Proof.
  intros H0 H1. unfold wend in *. cbn [entry_state ls_writer wbuf].
  assert (H2 : len (poke (wcurrent wr) (extension_header pf) (wbuf wr)) = len (wbuf wr)).
  { apply len_poke; rewrite ?len_extension_header; lia. }
  rewrite len_poke; rewrite ?len_be_bytes, ?H2; lia.
Qed.

(** The fixed fields as they stand when the record loop is entered. *)
Lemma entry_state_fields props wr (w : world S) id :
  0 <= wcurrent wr -> wcurrent wr + 10 <= wend wr ->
  peek (wcurrent wr + 4) 4 (wbuf (ls_writer (entry_state pf props wr w id)))
    = be_bytes 4 0 /\
  peek (wcurrent wr + 8) 2 (wbuf (ls_writer (entry_state pf props wr w id)))
    = be_bytes 2 id.
Proof.
  intros H0 H1. unfold wend in *. cbn [entry_state ls_writer wbuf].
  assert (H2 : len (poke (wcurrent wr) (extension_header pf) (wbuf wr)) = len (wbuf wr)).
  { apply len_poke; rewrite ?len_extension_header; lia. }
  split.
  - rewrite peek_poke_before by (rewrite ?H2; change (Z.of_nat 4) with 4; lia).
    unfold extension_header. rewrite app_assoc.
    rewrite poke_app
      by (rewrite ?len_app, ?len_be_bytes; change (Z.of_nat 4) with 4; simpl; lia).
    replace (wcurrent wr + len (be_bytes 1 (KAA_LOGGING_EXTENSION_TYPE pf)
                                ++ be_bytes 3 KAA_LOGGING_RECEIVE_UPDATES_FLAG))
      with (wcurrent wr + 4) by reflexivity.
    apply (peek_poke_same (wcurrent wr + 4) (be_bytes 4 0)); [lia |].
    rewrite len_poke; rewrite ?len_app, ?len_be_bytes; simpl; lia.
  - apply (peek_poke_same (wcurrent wr + 8) (be_bytes 2 id)); [lia |].
    rewrite H2, len_be_bytes. change (Z.of_nat 2) with 2. lia.
Qed.

(** How a call that got its header written ends. *)
Lemma request_serialize_inv (c : kaa_log_collector_t S) wr w e c' wr' w'
    storage get props :
  log_storage c = Some storage ->
  get_record storage = Some get ->
  log_properties c = Some props ->
  0 <= wcurrent wr ->
  wcurrent wr + 8 <= wend wr ->
  request_serialize pf c wr w = Returns (e, (c', wr', w')) ->
  (e = KAA_ERR_BAD_STATE /\ base_bucket_id c = None /\ w' = w)
  \/ (exists b st,
        base_bucket_id c = Some b /\
        wcurrent wr + 10 <= wend wr /\
        serialize_records (loop_fuel (ls_writer (entry_state pf props wr w (to_uint16 (b + 1)))))
          (host_order pf) storage get (to_uint16 (b + 1))
          (entry_state pf props wr w (to_uint16 (b + 1))) = Returns (e, st) /\
        c' = set_log_bucket_id c (to_uint16 (b + 1)) /\
        w' = ls_world st /\
        ((e = KAA_ERR_NONE /\ wcurrent wr + 12 <= wend wr /\
          wr' = patched (wcurrent wr) props st)
         \/ (e = KAA_ERR_WRITE_FAILED /\ wr' = ls_writer st))).
Proof.
  intros Hs Hg Hp Hcur H8.
  rewrite (request_serialize_eq pf c wr w storage get props Hs Hg Hp Hcur).
  replace (wcurrent wr + 8 <=? wend wr) with true by (symmetry; now apply Z.leb_le).
  destruct (base_bucket_id c) as [b |].
  - cbv zeta. destruct (wcurrent wr + 10 <=? wend wr) eqn:E10; [| discriminate].
    apply Z.leb_le in E10.
    destruct (serialize_records _ _ _ _ _ _) as [[e0 st] | |] eqn:Hloop;
      cbn [bind]; try discriminate.
    intros Hret. right. exists b, st.
    assert (Hpos : 0 <= wcurrent (ls_writer (entry_state pf props wr w (to_uint16 (b + 1)))))
      by (cbn [entry_state ls_writer wcurrent]; lia).
    destruct (serialize_records_spec _ _ _ _ _ _ e0 st Hpos Hloop)
      as (gets & _ & Hend & _ & [(-> & _) | (-> & _)]).
    + rewrite Hend, entry_state_end in Hret by assumption.
      destruct (wcurrent wr + 12 <=? wend wr) eqn:E12; [| discriminate].
      apply Z.leb_le in E12. injection Hret as <- <- <- <-.
      repeat split; auto.
    + injection Hret as <- <- <- <-. repeat split; auto.
  - intros Hret. injection Hret as <- <- <- <-. left. repeat split.
Qed.

(** The same for a call that returned [KAA_ERR_NONE]: everything it needs
    was bound and the fixed 12 bytes had room. *)
Lemma request_success_inv (c : kaa_log_collector_t S) wr w c' wr' w' :
  0 <= wcurrent wr ->
  request_serialize pf c wr w = Returns (KAA_ERR_NONE, (c', wr', w')) ->
  exists storage get props b st,
    log_storage c = Some storage /\ get_record storage = Some get /\
    log_properties c = Some props /\
    base_bucket_id c = Some b /\
    wcurrent wr + 12 <= wend wr /\
    serialize_records (loop_fuel (ls_writer (entry_state pf props wr w (to_uint16 (b + 1)))))
      (host_order pf) storage get (to_uint16 (b + 1))
      (entry_state pf props wr w (to_uint16 (b + 1))) = Returns (KAA_ERR_NONE, st) /\
    c' = set_log_bucket_id c (to_uint16 (b + 1)) /\
    w' = ls_world st /\
    wr' = patched (wcurrent wr) props st.
Proof.
  intros Hcur Hret.
  destruct (log_storage c) as [storage |] eqn:Hs;
    [| unfold request_serialize in Hret; rewrite Hs in Hret; discriminate].
  destruct (get_record storage) as [get |] eqn:Hg;
    [| unfold request_serialize in Hret; rewrite Hs, Hg in Hret; discriminate].
  destruct (log_properties c) as [props |] eqn:Hp;
    [| unfold request_serialize in Hret; rewrite Hs, Hg, Hp in Hret; discriminate].
  destruct (Z.le_gt_cases (wcurrent wr + 8) (wend wr)) as [H8 | H8].
  - destruct (request_serialize_inv c wr w _ c' wr' w' storage get props
                Hs Hg Hp Hcur H8 Hret)
      as [(He & _) | (b & st & Hb & _ & Hloop & -> & -> & [(_ & H12 & ->) | (He & _)])];
      try discriminate.
    exists storage, get, props, b, st. repeat split; auto.
  - rewrite (request_serialize_eq pf c wr w storage get props Hs Hg Hp Hcur) in Hret.
    replace (wcurrent wr + 8 <=? wend wr) with false in Hret
      by (symmetry; apply Z.leb_gt; lia).
    discriminate.
Qed.

End RequestRuns.

Section RequestClaims.

Context {S : Type}.
Variable pf : kaa_platform.

(** The fields of the finished extension. *)
Lemma patched_fields (start : Z) props (st : loop_state (S := S)) :
  0 <= start -> start + 12 <= wend (ls_writer st) ->
  extension_length_field start (patched start props st)
    = (4 + to_size_t (max_log_block_size props - ls_remaining_size st)) mod 2 ^ 32
  /\ records_count_field start (patched start props st)
     = to_uint16 (ls_records_count st)
  /\ bucket_id_field start (patched start props st)
     = be_value (peek (start + 8) 2 (wbuf (ls_writer st))).
Proof.
  intros H0 H12. unfold wend in H12.
  unfold extension_length_field, records_count_field, bucket_id_field, patched.
  cbn [wbuf].
  set (total := to_uint32 (4 + to_size_t (max_log_block_size props - ls_remaining_size st))).
  assert (H1 : len (poke (start + 4) (be_bytes 4 total) (wbuf (ls_writer st)))
               = len (wbuf (ls_writer st))).
  { apply len_poke; rewrite ?len_be_bytes; change (Z.of_nat 4) with 4; lia. }
  split; [| split].
  - rewrite peek_poke_before by (rewrite ?H1; change (Z.of_nat 4) with 4; lia).
    rewrite (peek_poke_same (start + 4) (be_bytes 4 total))
      by (rewrite ?len_be_bytes; change (Z.of_nat 4) with 4; lia).
    rewrite be_value_be_bytes. unfold total, to_uint32.
    change (256 ^ Z.of_nat 4) with (2 ^ 32). apply Z.mod_mod. lia.
  - rewrite (peek_poke_same (start + 10) (be_bytes 2 (ls_records_count st)))
      by (rewrite ?len_be_bytes, ?H1; change (Z.of_nat 2) with 2; lia).
    rewrite be_value_be_bytes. reflexivity.
  - rewrite peek_poke_before by (rewrite ?H1; change (Z.of_nat 2) with 2; lia).
    rewrite peek_poke_after
      by (rewrite ?len_be_bytes; change (Z.of_nat 4) with 4; lia).
    reflexivity.
Qed.

Lemma handed_out_get_record_calls id remaining (rs : list kaa_log_entry_t)
    remaining' last :
  Forall (fun r => record_data r <> None) rs ->
  record_data last = None ->
  handed_out (get_record_calls id remaining rs
              ++ [Call_get_record id remaining' last]) = rs.
Proof.
  intros Hall Hlast. revert remaining.
  induction Hall as [| r rs Hr Hall IH]; intros remaining.
  - cbn. now rewrite Hlast.
  - cbn [get_record_calls app handed_out].
    destruct (record_data r); [| now contradiction Hr]. now rewrite IH.
Qed.

(** C1 (amended): for a collector whose backend keeps the [get_record]
    contract (a record returned fits, size field and padding included,
    within the budget offered), a request that
    [kaa_logging_request_serialize] completes offered the backend first
    [max_log_block_size] (as the [ssize_t] the code keeps it in) and after
    each record exactly [aligned_size(record.size) + 4] less; these are the
    bytes actually written: the buffer holds, after the header, the bucket
    id and the count, each record's 4-byte size field and padded payload,
    and the writer has advanced by their total.  The records written take
    at most [max_log_block_size] bytes.  The body of the extension, whose
    length the header carries, is those bytes and the 4 bytes of bucket id
    and record count, hence at most [max_log_block_size + 4]. *)
Theorem request_respects_budget (c : kaa_log_collector_t S) wr w storage get props
    c' wr' w' :
  log_storage c = Some storage ->
  get_record storage = Some get ->
  log_properties c = Some props ->
  get_record_fits get ->
  0 <= max_log_block_size props < 2 ^ 64 ->
  0 <= wcurrent wr ->
  kaa_logging_request_serialize pf (Some c) (Some wr) w
    = Returns (KAA_ERR_NONE, (Some c', Some wr', w')) ->
  exists rs last,
    calls w'
      = calls w
        ++ get_record_calls (log_bucket_id c')
             (to_ssize_t (max_log_block_size props)) rs
        ++ [Call_get_record (log_bucket_id c')
              (to_ssize_t (max_log_block_size props) - wire_total rs) last] /\
    (max_log_block_size props < 2 ^ 63 ->
     to_ssize_t (max_log_block_size props) = max_log_block_size props) /\
    record_data last = None /\
    Forall (fun r => record_data r <> None) rs /\
    wcurrent wr' = wcurrent wr + KAA_EXTENSION_HEADER_SIZE + 4 + wire_total rs /\
    wire_total rs <= max_log_block_size props /\
    extension_length_field (wcurrent wr) wr' = (4 + wire_total rs) mod 2 ^ 32 /\
    records_count_field (wcurrent wr) wr' = len rs mod 2 ^ 16 /\
    peek (wcurrent wr + KAA_EXTENSION_HEADER_SIZE + 4)
         (length (concat (map (record_bytes (host_order pf)) rs))) (wbuf wr')
      = concat (map (record_bytes (host_order pf)) rs) /\
    len (concat (map (record_bytes (host_order pf)) rs)) = wire_total rs.
Proof.
  intros Hs Hg Hp Hfits Hmax Hcur Hret.
  apply outer_inv in Hret. destruct Hret as (c0 & wr0 & Ec & Ew & Hret).
  injection Ec as <-. injection Ew as <-.
  destruct (request_success_inv pf c wr w c' wr' w' Hcur Hret)
    as (storage0 & get0 & props0 & b & st & Hs0 & Hg0 & Hp0 & Hb & H12 & Hloop
        & -> & -> & ->).
  rewrite Hs in Hs0. injection Hs0 as <-.
  rewrite Hg in Hg0. injection Hg0 as <-.
  rewrite Hp in Hp0. injection Hp0 as <-.
  set (id := to_uint16 (b + 1)) in *.
  assert (Hpos : 0 <= wcurrent (ls_writer (entry_state pf props wr w id)))
    by (cbn [entry_state ls_writer wcurrent]; lia).
  assert (Hrem : - 2 ^ 63 <= ls_remaining_size (entry_state pf props wr w id) < 2 ^ 63)
    by (cbn [entry_state ls_remaining_size]; apply to_ssize_t_range).
  destruct (serialize_records_budget _ _ _ _ _ _ st Hfits Hpos Hrem Hloop)
    as (rs & last & Hcalls & Hlast & Hall & Hr & Hnonneg & Hw & Hcount).
  destruct (serialize_records_spec _ _ _ _ _ _ _ st Hpos Hloop)
    as (gets & _ & Hend & _ & [(_ & Hc3 & _ & Hfit3 & _) | (He & _)]);
    [| discriminate].
  pose proof (serialize_records_bytes _ _ _ _ _ _ st Hpos Hloop) as Hbytes.
  rewrite Hcalls in Hc3. apply app_inv_head in Hc3. subst gets.
  rewrite Hcalls in Hbytes.
  rewrite skipn_app, skipn_all, Nat.sub_diag in Hbytes. cbn [skipn app] in Hbytes.
  rewrite (handed_out_get_record_calls _ _ rs _ last Hall Hlast) in Hbytes, Hfit3.
  rewrite entry_state_end in Hend, Hfit3 by lia.
  cbn [entry_state ls_writer ls_world ls_remaining_size ls_records_count
       wcurrent wbuf calls] in Hcalls, Hr, Hnonneg, Hw, Hcount, Hbytes.
  pose proof (wire_total_nonneg rs) as Hnn.
  assert (Hbudget : to_ssize_t (max_log_block_size props) = max_log_block_size props
                    \/ (to_ssize_t (max_log_block_size props)
                        = max_log_block_size props - 2 ^ 64 /\ rs = [])).
  { destruct (Z.lt_ge_cases (max_log_block_size props) (2 ^ 63)) as [Hlo | Hhi].
    - left. apply to_ssize_t_small. lia.
    - right. split; [apply to_ssize_t_high; lia |].
      destruct rs as [| r rs]; [reflexivity |].
      assert (0 <= ls_remaining_size st) by (apply Hnonneg; discriminate).
      rewrite to_ssize_t_high in Hr by lia. lia. }
  assert (Hle : wire_total rs <= max_log_block_size props).
  { destruct Hbudget as [Eb | (_ & ->)]; [| cbn; lia].
    destruct rs as [| r rs]; [cbn; lia |].
    assert (0 <= ls_remaining_size st) by (apply Hnonneg; discriminate). lia. }
  destruct (patched_fields (wcurrent wr) props st Hcur ltac:(lia))
    as (Hlen & Hcnt & _).
  exists rs, last. cbn [set_log_bucket_id log_bucket_id patched wcurrent].
  split; [exact Hcalls |].
  split; [intros Hlo; apply to_ssize_t_small; lia |].
  split; [exact Hlast |]. split; [exact Hall |].
  split; [unfold KAA_EXTENSION_HEADER_SIZE; lia |]. split; [exact Hle |]. split.
  - rewrite Hlen, Hr. destruct Hbudget as [Eb | (Eb & ->)]; rewrite Eb.
    + replace (max_log_block_size props - (max_log_block_size props - wire_total rs))
        with (wire_total rs) by lia.
      rewrite to_size_t_small by lia. reflexivity.
    + cbn [wire_total fold_right].
      replace (max_log_block_size props - (max_log_block_size props - 2 ^ 64 - 0))
        with (2 ^ 64) by lia.
      reflexivity.
  - split; [rewrite Hcnt, Hcount; unfold to_uint16; f_equal |].
    split; [| apply len_concat_record_bytes].
    set (bytes := concat (map (record_bytes (host_order pf)) rs)) in *.
    assert (Hlb : len bytes = wire_total rs) by apply len_concat_record_bytes.
    assert (Hroom : wcurrent wr + 12 + wire_total rs <= wend wr).
    { destruct rs as [| r rs]; [cbn; lia |].
      assert (wcurrent (ls_writer st) <= wend wr) by (apply Hfit3; discriminate).
      lia. }
    assert (He : len (wbuf (ls_writer (entry_state pf props wr w id))) = wend wr)
      by (apply (entry_state_end pf props wr w id); lia).
    cbn [entry_state ls_writer wbuf] in He.
    unfold KAA_EXTENSION_HEADER_SIZE. cbn [patched wbuf].
    replace (wcurrent wr + 8 + 4) with (wcurrent wr + 12) by lia.
    assert (Hls : len (wbuf (ls_writer st)) = wend wr) by exact Hend.
    assert (H1 : len (poke (wcurrent wr + 4)
                        (be_bytes 4
                           (to_uint32
                              (4 + to_size_t (max_log_block_size props
                                              - ls_remaining_size st))))
                        (wbuf (ls_writer st))) = wend wr).
    { rewrite len_poke; rewrite ?len_be_bytes; change (Z.of_nat 4) with 4; lia. }
    rewrite peek_poke_after
      by (rewrite ?len_be_bytes, ?H1; change (Z.of_nat 2) with 2; lia).
    rewrite peek_poke_after
      by (rewrite ?len_be_bytes; change (Z.of_nat 4) with 4; lia).
    rewrite Hbytes. apply peek_poke_same; [lia |]. rewrite He. lia.
Qed.

Lemma calls_notify_upload_failed storage id (w : world S) :
  calls (notify_upload_failed storage id w)
  = calls w ++ match upload_failed storage with
               | Some _ => [Call_upload_failed id]
               | None => []
               end.
Proof.
  unfold notify_upload_failed.
  destruct (upload_failed storage); simpl; now rewrite ?app_nil_r.
Qed.



(** C4 (amended): when the backend has no eligible record (its first
    [get_record] returns the sentinel), [kaa_logging_request_serialize]
    succeeds and emits a well-formed extension of the fixed 12 bytes whose
    back-patched record count is 0 and whose back-patched body length is 4:
    the two bytes of bucket id and the two of record count. *)
Theorem empty_request (c : kaa_log_collector_t S) wr w storage get props b :
  log_storage c = Some storage ->
  get_record storage = Some get ->
  log_properties c = Some props ->
  base_bucket_id c = Some b ->
  0 <= max_log_block_size props < 2 ^ 64 ->
  0 <= wcurrent wr ->
  wcurrent wr + 12 <= wend wr ->
  record_data (fst (get (to_uint16 (b + 1)) (to_ssize_t (max_log_block_size props))
                        (backend w))) = None ->
  exists c' wr' w',
    kaa_logging_request_serialize pf (Some c) (Some wr) w
      = Returns (KAA_ERR_NONE, (Some c', Some wr', w')) /\
    records_count_field (wcurrent wr) wr' = 0 /\
    extension_length_field (wcurrent wr) wr' = 4 /\
    bucket_id_field (wcurrent wr) wr' = to_uint16 (b + 1) /\
    wcurrent wr' = wcurrent wr + KAA_EXTENSION_HEADER_SIZE + 4 /\
    handed_out (skipn (length (calls w)) (calls w')) = [].
Proof.
  intros Hs Hg Hp Hb Hmax Hcur H12 Hnone.
  set (id := to_uint16 (b + 1)) in *.
  set (st0 := entry_state pf props wr w id).
  set (entry := fst (get id (to_ssize_t (max_log_block_size props)) (backend w))) in *.
  set (st1 := {| ls_writer := ls_writer st0;
                 ls_remaining_size := ls_remaining_size st0;
                 ls_records_count := ls_records_count st0;
                 ls_world :=
                   {| backend := snd (get id (ls_remaining_size st0)
                                         (backend (ls_world st0)));
                      calls := calls (ls_world st0)
                               ++ [Call_get_record id (ls_remaining_size st0) entry] |} |}).
  assert (Hloop : serialize_records (loop_fuel (ls_writer st0)) (host_order pf)
                    storage get id st0 = Returns (KAA_ERR_NONE, st1)).
  { unfold loop_fuel. rewrite serialize_records_turn
      by (cbn [st0 entry_state ls_writer wcurrent]; lia).
    cbv zeta. cbn [st0 entry_state ls_remaining_size ls_world].
    fold entry. rewrite Hnone. reflexivity. }
  assert (Hend : wend (ls_writer st1) = wend wr)
    by (cbn [st1 ls_writer]; apply entry_state_end; lia).
  exists (set_log_bucket_id c id), (patched (wcurrent wr) props st1), (ls_world st1).
  split.
  - apply outer_run.
    rewrite (request_serialize_eq pf c wr w storage get props Hs Hg Hp Hcur).
    replace (wcurrent wr + 8 <=? wend wr) with true by (symmetry; apply Z.leb_le; lia).
    rewrite Hb. cbv zeta.
    replace (wcurrent wr + 10 <=? wend wr) with true by (symmetry; apply Z.leb_le; lia).
    fold id. fold st0. rewrite Hloop. cbn [bind]. rewrite Hend.
    replace (wcurrent wr + 12 <=? wend wr) with true by (symmetry; apply Z.leb_le; lia).
    reflexivity.
  - destruct (patched_fields (wcurrent wr) props st1 Hcur ltac:(lia))
      as (Hlen & Hcnt & Hid).
    destruct (entry_state_fields pf props wr w id Hcur ltac:(lia)) as (_ & Hidb).
    split; [rewrite Hcnt; reflexivity |]. split.
    + rewrite Hlen. cbn [st1 st0 entry_state ls_remaining_size].
      destruct (Z.lt_ge_cases (max_log_block_size props) (2 ^ 63)) as [Hlo | Hhi].
      * rewrite to_ssize_t_small by lia. rewrite Z.sub_diag. reflexivity.
      * rewrite to_ssize_t_high by lia.
        replace (max_log_block_size props - (max_log_block_size props - 2 ^ 64))
          with (2 ^ 64) by lia.
        reflexivity.
    + split.
      * rewrite Hid. cbn [st1 ls_writer]. fold st0 in Hidb. rewrite Hidb.
        rewrite be_value_be_bytes. unfold id, to_uint16.
        change (256 ^ Z.of_nat 2) with (2 ^ 16). apply Z.mod_mod. lia.
      * split; [cbn; unfold KAA_EXTENSION_HEADER_SIZE; lia |].
        cbn [st1 ls_world calls st0 entry_state].
        rewrite skipn_app, skipn_all, Nat.sub_diag. cbn [skipn app handed_out].
        now rewrite Hnone.
Qed.


(** The function never runs out of the turns [loop_fuel] allows. *)
Lemma request_serialize_fuel (c : kaa_log_collector_t S) wr w :
  0 <= wcurrent wr ->
  kaa_logging_request_serialize pf (Some c) (Some wr) w <> OutOfFuel.
Proof.
  intros Hcur. unfold kaa_logging_request_serialize.
  assert (H : request_serialize pf c wr w <> OutOfFuel).
  { destruct (log_storage c) as [storage |] eqn:Hs;
      [| unfold request_serialize; rewrite Hs; discriminate].
    destruct (get_record storage) as [get |] eqn:Hg;
      [| unfold request_serialize; rewrite Hs, Hg; discriminate].
    destruct (log_properties c) as [props |] eqn:Hp;
      [| unfold request_serialize; rewrite Hs, Hg, Hp; discriminate].
    rewrite (request_serialize_eq pf c wr w storage get props Hs Hg Hp Hcur).
    destruct (wcurrent wr + 8 <=? wend wr); [| discriminate].
    destruct (base_bucket_id c) as [b |]; [| discriminate].
    cbv zeta. destruct (wcurrent wr + 10 <=? wend wr); [| discriminate].
    destruct (serialize_records_returns (host_order pf) storage get (to_uint16 (b + 1))
                (loop_fuel (ls_writer (entry_state pf props wr w (to_uint16 (b + 1)))))
                (entry_state pf props wr w (to_uint16 (b + 1))))
      as ([e st] & Hloop).
    { cbn [entry_state ls_writer wcurrent]. lia. }
    { unfold loop_fuel. lia. }
    rewrite Hloop. cbn [bind].
    destruct e; try discriminate.
    destruct (wcurrent wr + 12 <=? wend (ls_writer st)); discriminate. }
  destruct (request_serialize pf c wr w) as [[e [[c' wr'] w']] | |];
    cbn [bind]; try discriminate. now contradiction H.
Qed.

(** With room for the fixed 12 bytes the function returns: no store falls
    outside the buffer and the loop comes to an end. *)
Lemma request_serialize_returns (c : kaa_log_collector_t S) wr w :
  0 <= wcurrent wr ->
  wcurrent wr + 12 <= wend wr ->
  exists e c' wr' w',
    kaa_logging_request_serialize pf (Some c) (Some wr) w
    = Returns (e, (Some c', Some wr', w')).
Proof.
  intros Hcur H12.
  assert (H : exists e c' wr' w',
             request_serialize pf c wr w = Returns (e, (c', wr', w'))).
  { destruct (log_storage c) as [storage |] eqn:Hs;
      [| unfold request_serialize; rewrite Hs; eauto].
    destruct (get_record storage) as [get |] eqn:Hg;
      [| unfold request_serialize; rewrite Hs, Hg; eauto].
    destruct (log_properties c) as [props |] eqn:Hp;
      [| unfold request_serialize; rewrite Hs, Hg, Hp; eauto].
    rewrite (request_serialize_eq pf c wr w storage get props Hs Hg Hp Hcur).
    replace (wcurrent wr + 8 <=? wend wr) with true by (symmetry; apply Z.leb_le; lia).
    destruct (base_bucket_id c) as [b |]; [| eauto].
    cbv zeta.
    replace (wcurrent wr + 10 <=? wend wr) with true by (symmetry; apply Z.leb_le; lia).
    assert (Hpos : 0 <= wcurrent (ls_writer (entry_state pf props wr w (to_uint16 (b + 1)))))
      by (cbn [entry_state ls_writer wcurrent]; lia).
    destruct (serialize_records_returns (host_order pf) storage get (to_uint16 (b + 1))
                (loop_fuel (ls_writer (entry_state pf props wr w (to_uint16 (b + 1)))))
                (entry_state pf props wr w (to_uint16 (b + 1))) Hpos)
      as ([e st] & Hloop).
    { unfold loop_fuel. lia. }
    rewrite Hloop. cbn [bind].
    destruct (serialize_records_spec _ _ _ _ _ _ e st Hpos Hloop)
      as (_ & _ & Hend & _ & [(-> & _) | (-> & _)]).
    - rewrite Hend, entry_state_end by lia.
      replace (wcurrent wr + 12 <=? wend wr) with true
        by (symmetry; apply Z.leb_le; lia).
      eauto.
    - eauto. }
  destruct H as (e & c' & wr' & w' & H).
  exists e, c', wr', w'. now apply outer_run.
Qed.


(** One finished request: the id it carries is one more (in 16 bits) than
    the id in memory, or than the stored one when the id in memory is unset;
    it stays in memory, and the status object is left as it was. *)
Lemma request_bucket_id (c : kaa_log_collector_t S) wr w c' wr' w' :
  0 <= wcurrent wr ->
  kaa_logging_request_serialize pf (Some c) (Some wr) w
    = Returns (KAA_ERR_NONE, (Some c', Some wr', w')) ->
  exists b,
    base_bucket_id c = Some b /\
    c' = set_log_bucket_id c (to_uint16 (b + 1)) /\
    bucket_id_field (wcurrent wr) wr' = to_uint16 (b + 1).
Proof.
  intros Hcur Hret.
  apply outer_inv in Hret. destruct Hret as (c0 & wr0 & Ec & Ew & Hret).
  injection Ec as <-. injection Ew as <-.
  destruct (request_success_inv pf c wr w c' wr' w' Hcur Hret)
    as (storage & get & props & b & st & Hs & Hg & Hp & Hb & H12 & Hloop
        & -> & -> & ->).
  exists b. split; [exact Hb |]. split; [reflexivity |].
  set (id := to_uint16 (b + 1)) in *.
  assert (Hpos : 0 <= wcurrent (ls_writer (entry_state pf props wr w id)))
    by (cbn [entry_state ls_writer wcurrent]; lia).
  destruct (serialize_records_spec _ _ _ _ _ _ _ st Hpos Hloop)
    as (_ & _ & Hend & Hpre & _).
  rewrite entry_state_end in Hend by lia.
  destruct (patched_fields (wcurrent wr) props st Hcur ltac:(lia)) as (_ & _ & Hid).
  destruct (entry_state_fields pf props wr w id Hcur ltac:(lia)) as (_ & Hidb).
  rewrite Hid, Hpre, Hidb
    by (cbn [entry_state ls_writer wcurrent]; change (Z.of_nat 2) with 2; lia).
  rewrite be_value_be_bytes. unfold id, to_uint16.
  change (256 ^ Z.of_nat 2) with (2 ^ 16). apply Z.mod_mod. lia.
Qed.

Lemma set_log_bucket_id_same (c : kaa_log_collector_t S) :
  set_log_bucket_id c (log_bucket_id c) = c.
Proof. destruct c. reflexivity. Qed.

(** Any call that returns has changed nothing in the collector but the id
    in memory, which is as it was or at the 16-bit successor of the id the
    call started from. *)
Lemma request_id_step (c : kaa_log_collector_t S) wr w e c' wr' w' :
  0 <= wcurrent wr ->
  kaa_logging_request_serialize pf (Some c) (Some wr) w
    = Returns (e, (Some c', Some wr', w')) ->
  exists i,
    c' = set_log_bucket_id c i /\
    ((i = log_bucket_id c /\ e <> KAA_ERR_NONE)
     \/ (exists b, base_bucket_id c = Some b /\ i = to_uint16 (b + 1))).
Proof.
  intros Hcur Hret.
  apply outer_inv in Hret. destruct Hret as (c0 & wr0 & Ec & Ew & Hret).
  injection Ec as <-. injection Ew as <-.
  assert (Hsame : forall c1 e1,
             c1 = c -> e1 <> KAA_ERR_NONE ->
             exists i,
               c1 = set_log_bucket_id c i /\
               ((i = log_bucket_id c /\ e1 <> KAA_ERR_NONE)
                \/ (exists b, base_bucket_id c = Some b /\ i = to_uint16 (b + 1)))).
  { intros c1 e1 -> He1. exists (log_bucket_id c).
    split; [symmetry; apply set_log_bucket_id_same | left; now split]. }
  destruct (log_storage c) as [storage |] eqn:Hs.
  2: { unfold request_serialize in Hret. rewrite Hs in Hret.
       injection Hret as <- <- <- <-. apply Hsame; [reflexivity | discriminate]. }
  destruct (get_record storage) as [get |] eqn:Hg.
  2: { unfold request_serialize in Hret. rewrite Hs, Hg in Hret.
       injection Hret as <- <- <- <-. apply Hsame; [reflexivity | discriminate]. }
  destruct (log_properties c) as [props |] eqn:Hp.
  2: { unfold request_serialize in Hret. rewrite Hs, Hg, Hp in Hret.
       injection Hret as <- <- <- <-. apply Hsame; [reflexivity | discriminate]. }
  rewrite (request_serialize_eq pf c wr w storage get props Hs Hg Hp Hcur) in Hret.
  destruct (wcurrent wr + 8 <=? wend wr).
  2: { injection Hret as <- <- <- <-. apply Hsame; [reflexivity | discriminate]. }
  destruct (base_bucket_id c) as [b |] eqn:Hb.
  2: { injection Hret as <- <- <- <-.
       apply Hsame; [apply set_log_bucket_id_same | discriminate]. }
  cbv zeta in Hret.
  destruct (wcurrent wr + 10 <=? wend wr); [| discriminate].
  destruct (serialize_records _ _ _ _ _ _) as [[e0 st] | |];
    cbn [bind] in Hret; try discriminate.
  assert (Hc' : c' = set_log_bucket_id c (to_uint16 (b + 1))).
  { destruct e0; try (injection Hret as <- <- <- <-; reflexivity).
    destruct (wcurrent wr + 12 <=? wend (ls_writer st)); [| discriminate].
    injection Hret as <- <- <- <-. reflexivity. }
  exists (to_uint16 (b + 1)). split; [exact Hc' |]. right. exists b. now split.
Qed.

Lemma set_log_bucket_id_inv (c : kaa_log_collector_t S) (i : Z) :
  collector_inv c -> collector_inv (set_log_bucket_id c i).
Proof. intros H. exact H. Qed.

Lemma StronglySorted_lt_NoDup (l : list Z) : StronglySorted Z.lt l -> NoDup l.
Proof.
  induction 1 as [| x l Hl IH Hall]; constructor; [| exact IH].
  intros Hin. rewrite Forall_forall in Hall. specialize (Hall x Hin). lia.
Qed.

Lemma successive_status (c : kaa_log_collector_t S) outs c'' :
  successive pf c outs c'' -> status c'' = status c.
Proof.
  induction 1 as [| c wr w e c' wr' w' outs c'' Hcur Hret Hrest IH]; [reflexivity |].
  destruct (request_id_step c wr w e c' wr' w' Hcur Hret) as (i & -> & _).
  exact IH.
Qed.

Lemma successive_inv (c : kaa_log_collector_t S) outs c'' :
  successive pf c outs c'' -> collector_inv c -> collector_inv c''.
Proof.
  induction 1 as [| c wr w e c' wr' w' outs c'' Hcur Hret Hrest IH]; [trivial |].
  destruct (request_id_step c wr w e c' wr' w' Hcur Hret) as (i & -> & _).
  intros Hinv. apply IH. now apply set_log_bucket_id_inv.
Qed.

Lemma successive_cons_inv (c : kaa_log_collector_t S) o outs c'' :
  successive pf c (o :: outs) c'' ->
  exists wr w e c' wr' w',
    0 <= wcurrent wr /\
    kaa_logging_request_serialize pf (Some c) (Some wr) w
      = Returns (e, (Some c', Some wr', w')) /\
    successive pf c' outs c'' /\
    o = (if kaa_error_eqb e KAA_ERR_NONE
         then Some (bucket_id_field (wcurrent wr) wr') else None).
Proof.
  intros H. inversion H as [| c0 wr w e c1 wr' w' outs0 c2 Hcur Hret Hrest]; subst.
  exists wr, w, e, c1, wr', w'. repeat split; assumption.
Qed.

Lemma emitted_some_inv (e : kaa_error_t) (i first : Z) :
  Some first = (if kaa_error_eqb e KAA_ERR_NONE then Some i else None) ->
  e = KAA_ERR_NONE /\ first = i.
Proof.
  destruct e; cbn; intros H; try discriminate. injection H as ->. now split.
Qed.

Lemma successive_app (c : kaa_log_collector_t S) xs ys c'' :
  successive pf c (xs ++ ys) c'' ->
  exists c', successive pf c xs c' /\ successive pf c' ys c''.
Proof.
  revert c. induction xs as [| x xs IH]; intros c H.
  - exists c. split; [constructor | exact H].
  - cbn [app] in H. apply successive_cons_inv in H.
    destruct H as (wr & w & e & c1 & wr' & w' & Hcur & Hret & Hrest & ->).
    destruct (IH c1 Hrest) as (c' & Hxs & Hys).
    exists c'. split; [| exact Hys].
    now apply (successive_call pf c wr w e c1 wr' w' xs c').
Qed.

(** Once the id is set in memory, every call leaves it as it is or one
    higher, and the ids emitted go strictly up, as long as they do not wrap
    around. *)
Lemma successive_above (c : kaa_log_collector_t S) outs c'' :
  successive pf c outs c'' ->
  1 <= log_bucket_id c ->
  log_bucket_id c + len outs < 2 ^ 16 ->
  log_bucket_id c <= log_bucket_id c'' <= log_bucket_id c + len outs /\
  StronglySorted Z.lt (emitted outs) /\
  Forall (fun i => log_bucket_id c < i <= log_bucket_id c + len outs) (emitted outs).
Proof.
  induction 1 as [| c wr w e c' wr' w' outs c'' Hcur Hret Hrest IH]; intros Hlo Hhi.
  - unfold len. cbn. repeat split; try lia; constructor.
  - unfold len in Hhi |- *. cbn [length] in Hhi |- *.
    rewrite Nat2Z.inj_succ in Hhi |- *.
    assert (Hbase : base_bucket_id c = Some (log_bucket_id c)).
    { unfold base_bucket_id.
      now replace (log_bucket_id c =? 0) with false
        by (symmetry; apply Z.eqb_neq; lia). }
    assert (Hnext : to_uint16 (log_bucket_id c + 1) = log_bucket_id c + 1)
      by (apply to_uint16_small; lia).
    destruct (request_id_step c wr w e c' wr' w' Hcur Hret)
      as (i & Hc' & Hi).
    assert (Hl : log_bucket_id c' = i) by (rewrite Hc'; reflexivity).
    rewrite <- Hl in Hi. clear Hc' Hl i.
    destruct Hi as [(Hsame & Hne) | (b & Hb & Hid)].
    + replace (kaa_error_eqb e KAA_ERR_NONE) with false
        by (destruct e; try reflexivity; now contradiction Hne).
      cbn [emitted flat_map app]. fold (emitted outs).
      destruct IH as (Hfin & Hsorted & Hall); unfold len; try lia.
      rewrite Hsame in Hfin, Hall. unfold len in Hfin, Hall.
      split; [lia |]. split; [exact Hsorted |].
      eapply Forall_impl; [| exact Hall]. cbn beta. intros i Hi. lia.
    + rewrite Hbase in Hb. injection Hb as <-. rewrite Hnext in Hid.
      destruct IH as (Hfin & Hsorted & Hall); unfold len; try lia.
      rewrite Hid in Hfin, Hall. unfold len in Hfin, Hall.
      split; [lia |].
      destruct (kaa_error_eqb e KAA_ERR_NONE) eqn:Ee.
      * assert (He : e = KAA_ERR_NONE) by (destruct e; try discriminate; reflexivity).
        subst e.
        destruct (request_bucket_id c wr w c' wr' w' Hcur Hret) as (b & Hb & _ & Hf).
        rewrite Hbase in Hb. injection Hb as <-. rewrite Hnext in Hf. rewrite Hf.
        cbn [emitted flat_map app]. fold (emitted outs).
        split.
        -- constructor; [exact Hsorted |].
           eapply Forall_impl; [| exact Hall]. cbn beta. intros i Hi. lia.
        -- constructor; [lia |].
           eapply Forall_impl; [| exact Hall]. cbn beta. intros i Hi. lia.
      * cbn [emitted flat_map app]. fold (emitted outs).
        split; [exact Hsorted |].
        eapply Forall_impl; [| exact Hall]. cbn beta. intros i Hi. lia.
Qed.

(** C3 (amended): a completed [kaa_logging_request_serialize] call emits
    the 16-bit successor of the id it starts from, which is the id in the
    collector, read from durable status storage when it is unset (zero).
    Across successive calls in one process, from a call that emitted an id
    on, the emitted ids go strictly up, so none repeats, until the 16-bit
    wraparound.  The function keeps the incremented id in the collector
    only: the status storage is returned as it was. *)
Theorem bucket_ids_successive (c : kaa_log_collector_t S) outs c'' :
  successive pf c outs c'' ->
  status c'' = status c /\
  (forall first rest,
      outs = Some first :: rest ->
      exists b, base_bucket_id c = Some b /\ first = to_uint16 (b + 1)) /\
  (forall before first rest,
      outs = before ++ Some first :: rest ->
      1 <= first -> first + len rest < 2 ^ 16 ->
      StronglySorted Z.lt (first :: emitted rest) /\
      NoDup (first :: emitted rest)).
Proof.
  intros Hsucc. split; [exact (successive_status c outs c'' Hsucc) |]. split.
  - intros first rest Hout. subst outs.
    apply successive_cons_inv in Hsucc.
    destruct Hsucc as (wr & w & e & c1 & wr' & w' & Hcur & Hret & Hrest & Hhead).
    apply emitted_some_inv in Hhead. destruct Hhead as (-> & ->).
    destruct (request_bucket_id c wr w c1 wr' w' Hcur Hret) as (b & Hb & _ & Hf).
    exists b. split; [exact Hb | exact Hf].
  - intros before first rest Hout Hlo Hhi. subst outs.
    apply successive_app in Hsucc. destruct Hsucc as (c1 & _ & Hsucc).
    apply successive_cons_inv in Hsucc.
    destruct Hsucc as (wr & w & e & c2 & wr' & w' & Hcur & Hret & Hrest & Hhead).
    apply emitted_some_inv in Hhead. destruct Hhead as (-> & Hfirst).
    destruct (request_bucket_id c1 wr w c2 wr' w' Hcur Hret) as (b & Hb & Hc2 & Hf).
    assert (Hid : log_bucket_id c2 = first)
      by (rewrite Hc2, Hfirst, Hf; reflexivity).
    destruct (successive_above c2 rest c'' Hrest) as (_ & Hsorted & Hall);
      rewrite ?Hid; try lia.
    assert (Hs : StronglySorted Z.lt (first :: emitted rest)).
    { constructor; [exact Hsorted |].
      eapply Forall_impl; [| exact Hall]. cbn beta. rewrite Hid. intros i Hi. lia. }
    split; [exact Hs | now apply StronglySorted_lt_NoDup].
Qed.

End RequestClaims.

(** ** The scenarios *)

Section Scenarios.

Import MemoryLogStorage.
Import Scenario.

Lemma mem_get_record_fits : get_record_fits mem_get_record.
Proof.
  intros id remaining s. unfold mem_get_record.
  destruct (pending s) as [| r rest]; [intros H; now contradiction H |].
  destruct (wire_size r <=? remaining) eqn:E; cbn [fst].
  - intros _. now apply Z.leb_le.
  - intros H. now contradiction H.
Qed.

Lemma start_collector p st : fst (start p st) = Some (collector_of p st).
Proof. reflexivity. Qed.

Lemma collector_of_inv p st : collector_inv (collector_of p st).
Proof. intros _. cbn. repeat split; discriminate. Qed.

(** C2 (amended): with properties [{max_log_storage_volume: 1000,
    max_log_block_size: 100}] and the conforming backend holding records of
    10, 50 and 60 bytes added through [kaa_logging_add_record],
    [kaa_logging_request_serialize] emits exactly the 10-byte and the
    50-byte record, back-patches the record count to 2 and the body length
    to 76 (4 bytes of bucket id and count, 4 + 12 and 4 + 52 of records),
    and the 60-byte record stays pending in the backend. *)
Theorem scenario_two_of_three (host : endianness) :
  result_code (built host) = Some KAA_ERR_NONE /\
  option_map (fun w => handed_out (calls w)) (result_world (built host))
    = Some [stored 10 1; stored 50 2] /\
  option_map (records_count_field 0) (result_writer (built host)) = Some 2 /\
  option_map (extension_length_field 0) (result_writer (built host)) = Some 76 /\
  option_map wcurrent (result_writer (built host)) = Some (8 + 76) /\
  option_map (fun w => pending (backend w)) (result_world (built host))
    = Some [stored 60 3].
Proof. destruct host; vm_compute; repeat split; reflexivity. Qed.

(** C2 as stated does not hold: the body length of that request is not 80. *)
Lemma scenario_length_is_not_80 :
  ~ (result_code (built LittleEndian) = Some KAA_ERR_NONE /\
     option_map (records_count_field 0) (result_writer (built LittleEndian)) = Some 2 /\
     option_map (extension_length_field 0) (result_writer (built LittleEndian)) = Some 80 /\
     option_map (fun w => pending (backend w)) (result_world (built LittleEndian))
       = Some [stored 60 3]).
Proof. intros (_ & _ & H & _). vm_compute in H. discriminate H. Qed.

(** C4 as stated does not hold: the request built from empty storage
    succeeds with record count 0, and its body length is 4, not 8. *)
Lemma empty_length_is_not_8 :
  ~ (result_code (built_empty LittleEndian) = Some KAA_ERR_NONE /\
     option_map (records_count_field 0) (result_writer (built_empty LittleEndian))
       = Some 0 /\
     option_map (extension_length_field 0) (result_writer (built_empty LittleEndian))
       = Some 8).
Proof. intros (_ & _ & H). vm_compute in H. discriminate H. Qed.

Lemma empty_request_witness :
  exists c' wr' w',
    kaa_logging_request_serialize (pf LittleEndian) (Some collector)
      (Some (blank 16)) world0
      = Returns (KAA_ERR_NONE, (Some c', Some wr', w')) /\
    records_count_field (wcurrent (blank 16)) wr' = 0 /\
    extension_length_field (wcurrent (blank 16)) wr' = 4 /\
    bucket_id_field (wcurrent (blank 16)) wr' = to_uint16 (7 + 1) /\
    wcurrent wr' = wcurrent (blank 16) + KAA_EXTENSION_HEADER_SIZE + 4 /\
    handed_out (skipn (length (calls world0)) (calls w')) = [].
Proof.
  apply (empty_request (pf LittleEndian) collector (blank 16) world0
           storage mem_get_record properties 7).
  - reflexivity.
  - reflexivity.
  - reflexivity.
  - reflexivity.
  - simpl. lia.
  - simpl. lia.
  - vm_compute. discriminate.
  - reflexivity.
Defined.

(** C1 as stated does not hold: the backend keeps the contract, the block
    size is 16, and the body of the request is 20 bytes. *)
Lemma tight_body_exceeds_block_size :
  get_record_fits mem_get_record /\
  result_code (built_tight LittleEndian) = Some KAA_ERR_NONE /\
  exists body,
    option_map (extension_length_field 0) (result_writer (built_tight LittleEndian))
      = Some body /\
    option_map (fun wr => wcurrent wr - KAA_EXTENSION_HEADER_SIZE)
      (result_writer (built_tight LittleEndian)) = Some body /\
    max_log_block_size tight < body.
Proof.
  split; [exact mem_get_record_fits |]. split; [vm_compute; reflexivity |].
  exists 20. repeat split.
Qed.

Lemma request_respects_budget_witness :
  exists rs last,
    calls tight_world
      = calls tight_loaded
        ++ get_record_calls
             (log_bucket_id (set_log_bucket_id (collector_of tight (Some durable)) 8))
             (to_ssize_t (max_log_block_size tight)) rs
        ++ [Call_get_record
              (log_bucket_id (set_log_bucket_id (collector_of tight (Some durable)) 8))
              (to_ssize_t (max_log_block_size tight) - wire_total rs) last] /\
    (max_log_block_size tight < 2 ^ 63 ->
     to_ssize_t (max_log_block_size tight) = max_log_block_size tight) /\
    record_data last = None /\
    Forall (fun r => record_data r <> None) rs /\
    wcurrent tight_writer
      = wcurrent (blank 32) + KAA_EXTENSION_HEADER_SIZE + 4 + wire_total rs /\
    wire_total rs <= max_log_block_size tight /\
    extension_length_field (wcurrent (blank 32)) tight_writer
      = (4 + wire_total rs) mod 2 ^ 32 /\
    records_count_field (wcurrent (blank 32)) tight_writer = len rs mod 2 ^ 16 /\
    peek (wcurrent (blank 32) + KAA_EXTENSION_HEADER_SIZE + 4)
         (length (concat (map (record_bytes (host_order (pf LittleEndian))) rs)))
         (wbuf tight_writer)
      = concat (map (record_bytes (host_order (pf LittleEndian))) rs) /\
    len (concat (map (record_bytes (host_order (pf LittleEndian))) rs)) = wire_total rs.
Proof.
  apply (request_respects_budget (pf LittleEndian) (collector_of tight (Some durable))
           (blank 32) tight_loaded storage mem_get_record tight).
  - reflexivity.
  - reflexivity.
  - reflexivity.
  - exact mem_get_record_fits.
  - simpl. lia.
  - simpl. lia.
  - reflexivity.
Defined.

(** C3 as stated does not hold: the request carries bucket id 8 while the
    status storage still holds 7, and after a restart of the device the next
    request carries bucket id 8 again. *)
Lemma bucket_id_repeats_after_restart :
  option_map (bucket_id_field 0) (result_writer (built_empty LittleEndian)) = Some 8 /\
  option_map status (result_collector (built_empty LittleEndian))
    = Some (Some {| status_log_bucket_id := 7 |}) /\
  result_code (rebuilt_after_restart LittleEndian) = Some KAA_ERR_NONE /\
  option_map (bucket_id_field 0) (result_writer (rebuilt_after_restart LittleEndian))
    = Some 8.
Proof. vm_compute. repeat split. Qed.

Lemma three_requests :
  successive (pf LittleEndian) collector [Some 8; None; Some 10]
    (set_log_bucket_id (set_log_bucket_id (set_log_bucket_id collector 8) 9) 10).
Proof.
  apply (successive_call (pf LittleEndian) collector (blank 16) world0 KAA_ERR_NONE
           (set_log_bucket_id collector 8) (empty_writer 8) (empty_world 8)
           [None; Some 10]).
  - simpl. lia.
  - reflexivity.
  - apply (successive_call (pf LittleEndian) (set_log_bucket_id collector 8)
             (blank 20) world40 KAA_ERR_WRITE_FAILED
             (set_log_bucket_id (set_log_bucket_id collector 8) 9)
             {| wbuf := [4; 0; 0; 1; 0; 0; 0; 0; 0; 9; 0; 0; 40; 0; 0; 0; 0; 0; 0; 0];
                wcurrent := 16 |}
             {| backend := {| pending := [stored 40 9]; in_flight := [] |};
                calls := [Call_get_record 9 100 (stored 40 9); Call_upload_failed 9] |}
             [Some 10]).
    + simpl. lia.
    + reflexivity.
    + apply (successive_call (pf LittleEndian)
               (set_log_bucket_id (set_log_bucket_id collector 8) 9)
               (blank 16) world0 KAA_ERR_NONE
               (set_log_bucket_id (set_log_bucket_id (set_log_bucket_id collector 8) 9) 10)
               (empty_writer 10) (empty_world 10) []).
      * simpl. lia.
      * reflexivity.
      * apply successive_nil.
Defined.

Lemma bucket_ids_successive_witness :
  status (set_log_bucket_id (set_log_bucket_id (set_log_bucket_id collector 8) 9) 10)
    = status collector /\
  (forall first rest,
      [Some 8; None; Some 10] = Some first :: rest ->
      exists b, base_bucket_id collector = Some b /\ first = to_uint16 (b + 1)) /\
  (forall before first rest,
      [Some 8; None; Some 10] = before ++ Some first :: rest ->
      1 <= first -> first + len rest < 2 ^ 16 ->
      StronglySorted Z.lt (first :: emitted rest) /\
      NoDup (first :: emitted rest)).
Proof.
  apply (bucket_ids_successive (pf LittleEndian) collector [Some 8; None; Some 10]
           (set_log_bucket_id (set_log_bucket_id (set_log_bucket_id collector 8) 9) 10)).
  exact three_requests.
Defined.

Lemma add_record_rejects_empty_witness :
  kaa_logging_add_record mem (Some collector) (Some (user_record 0 0)) world0
  = Returns (KAA_ERR_BADPARAM, world0).
Proof.
  apply (add_record_rejects_empty mem collector (user_record 0 0) world0
           storage properties status_view (decision properties)).
  - reflexivity.
  - reflexivity.
  - reflexivity.
  - reflexivity.
  - simpl. lia.
Defined.

(** The 40-byte record does not fit the 20-byte buffer: the request fails,
    the backend is told so once, and it has the record pending again. *)
Lemma scenario_short_buffer (host : endianness) :
  result_code (built_short host) = Some KAA_ERR_WRITE_FAILED /\
  option_map calls (result_world (built_short host))
    = Some [Call_get_record 8 100 (stored 40 9); Call_upload_failed 8] /\
  option_map (fun w => pending (backend w)) (result_world (built_short host))
    = Some [stored 40 9] /\
  option_map (extension_length_field 0) (result_writer (built_short host)) = Some 0.
Proof. destruct host; vm_compute; repeat split; reflexivity. Qed.




Lemma request_size_estimate_witness :
  kaa_profile_request_get_size (Some collector) (Some 0) tight_world
  = (KAA_ERR_NONE, Some (KAA_EXTENSION_HEADER_SIZE + 4 + Z.min 100 (1 * 4 + 1 * 3 + 12))).
Proof.
  apply (proj1 (request_size_estimate collector 0 tight_world)
           status_view properties
           (fun s => len (pending s) + len (in_flight s))
           (fun s => total_size_of (pending s) + total_size_of (map snd (in_flight s)))).
  - reflexivity.
  - reflexivity.
  - reflexivity.
  - reflexivity.
  - vm_compute. split; [discriminate | reflexivity].
  - vm_compute. split; [discriminate | reflexivity].
  - vm_compute. split; [discriminate | reflexivity].
  - vm_compute. reflexivity.
  - vm_compute. reflexivity.
Defined.

End Scenarios.

(** ** Life cycle of the collector *)

Section LifeCycleProperties.

Context {S : Type}.

(** X1: a collector fresh from [kaa_log_collector_create] is not ready,
    whatever its unassigned [is_upload_needed_fn] field holds: adding a
    record and building a request fail with [KAA_ERR_BAD_STATE], the size
    estimate and the handling of a server response fail with
    [KAA_ERR_NOT_INITIALIZED], destroying it calls nothing, and none of them
    touches the backend, the writer or the reader. *)
Theorem fresh_collector_is_not_ready mem uninit st cm (c : kaa_log_collector_t S)
    pf entry wr out reader opts length_ w :
  kaa_log_collector_create mem uninit true st cm = (KAA_ERR_NONE, Some c) ->
  kaa_logging_add_record mem (Some c) (Some entry) w = Returns (KAA_ERR_BAD_STATE, w) /\
  kaa_logging_request_serialize pf (Some c) (Some wr) w
    = Returns (KAA_ERR_BAD_STATE, (Some c, Some wr, w)) /\
  kaa_profile_request_get_size (Some c) (Some out) w
    = (KAA_ERR_NOT_INITIALIZED, Some out) /\
  kaa_logging_handle_server_sync (Some c) (Some reader) opts length_ w
    = Returns (KAA_ERR_NOT_INITIALIZED, (Some reader, w)) /\
  kaa_log_collector_destroy (Some c) w = w.
Proof.
  intros Hc. destruct (create_inv mem uninit true st cm c Hc) as (_ & Hs & _).
  unfold kaa_logging_add_record, kaa_logging_request_serialize, request_serialize,
    kaa_profile_request_get_size, kaa_logging_handle_server_sync,
    kaa_log_collector_destroy.
  rewrite Hs. cbn [bind].
  assert (Hv : log_storage_status c = None).
  { unfold kaa_log_collector_create in Hc. cbn [negb] in Hc.
    destruct (negb (KAA_MALLOC mem sizeof_kaa_log_collector_t)); [discriminate |].
    injection Hc as <-. reflexivity. }
  rewrite Hv. repeat split.
Qed.

(** X2: [kaa_logging_init] succeeds exactly when none of its four
    arguments is NULL.  When it fails it returns [KAA_ERR_BADPARAM] and
    changes nothing: the collector keeps what it had bound and the backend
    bound before is not destroyed.  When it succeeds the collector has the
    four arguments bound, keeps its bucket id, status and channel manager,
    and the backend bound before, if any, has been destroyed by exactly one
    call. *)
Theorem init_binds_or_rejects (c : kaa_log_collector_t S) storage props view fn w :
  (storage = None \/ props = None \/ view = None \/ fn = None ->
   kaa_logging_init (Some c) storage props view fn w
   = (KAA_ERR_BADPARAM, (Some c, w))) /\
  (forall s p v f,
      storage = Some s -> props = Some p -> view = Some v -> fn = Some f ->
      exists c',
        kaa_logging_init (Some c) storage props view fn w
        = (KAA_ERR_NONE,
           (Some c',
            match log_storage c with
            | Some old => {| backend := destroy old (backend w);
                             calls := calls w ++ [Call_destroy] |}
            | None => w
            end)) /\
        log_storage c' = Some s /\ log_properties c' = Some p /\
        log_storage_status c' = Some v /\ is_upload_needed_fn c' = Some f /\
        log_bucket_id c' = log_bucket_id c /\ status c' = status c /\
        channel_manager c' = channel_manager c /\ collector_inv c').
Proof.
  split.
  - unfold kaa_logging_init.
    intros H. destruct storage, props, view, fn; try reflexivity.
    destruct H as [H | [H | [H | H]]]; discriminate H.
  - intros s p v f -> -> -> ->. eexists. split.
    + unfold kaa_logging_init. destruct (log_storage c); reflexivity.
    + cbn. unfold collector_inv. cbn. repeat split; discriminate.
Qed.

(** X3: over the life of a collector every backend bound to it is destroyed
    exactly once, in the order of binding: create, init with one backend,
    init again with another, destroy makes two [destroy] calls, the first
    through the first backend's table and the second through the second's. *)
Theorem every_backend_is_destroyed_once mem uninit st cm (c0 : kaa_log_collector_t S)
    s1 p1 v1 f1 s2 p2 v2 f2 w :
  kaa_log_collector_create mem uninit true st cm = (KAA_ERR_NONE, Some c0) ->
  let r1 := kaa_logging_init (Some c0) (Some s1) (Some p1) (Some v1) (Some f1) w in
  let r2 := kaa_logging_init (fst (snd r1)) (Some s2) (Some p2) (Some v2) (Some f2)
              (snd (snd r1)) in
  let w3 := kaa_log_collector_destroy (fst (snd r2)) (snd (snd r2)) in
  fst r1 = KAA_ERR_NONE /\ fst r2 = KAA_ERR_NONE /\
  snd (snd r1) = w /\
  calls w3 = calls w ++ [Call_destroy; Call_destroy] /\
  backend w3 = destroy s2 (destroy s1 (backend w)).
Proof.
  intros Hc. destruct (create_inv mem uninit true st cm c0 Hc) as (_ & Hs & _).
  cbv zeta.
  assert (E1 : kaa_logging_init (Some c0) (Some s1) (Some p1) (Some v1) (Some f1) w
               = (KAA_ERR_NONE,
                  (Some {| log_bucket_id := log_bucket_id c0;
                           log_storage := Some s1;
                           log_properties := Some p1;
                           log_storage_status := Some v1;
                           is_upload_needed_fn := Some f1;
                           status := status c0;
                           channel_manager := channel_manager c0 |}, w))).
  { unfold kaa_logging_init. rewrite Hs. reflexivity. }
  rewrite E1. cbn [fst snd].
  unfold kaa_logging_init, kaa_log_collector_destroy.
  cbn [fst snd log_storage invoke backend calls].
  rewrite <- app_assoc. repeat split.
Qed.

End LifeCycleProperties.

(** ** Record ingestion, continued *)

Section AddRecordProperties.

Context {S : Type}.

Lemma update_storage_acted (c : kaa_log_collector_t S) storage props view fn w :
  log_storage c = Some storage ->
  log_properties c = Some props ->
  log_storage_status c = Some view ->
  is_upload_needed_fn c = Some fn ->
  get_total_size view <> None ->
  update_storage c w = Returns (acted c storage props (fn (Some view) (backend w)) w).
Proof.
  intros Hs Hp Hv Hf Ht. unfold update_storage, acted. rewrite Hf, Hs, Hp, Hv.
  destruct (fn (Some view) (backend w)); unfold invoke; cbn [backend calls].
  - reflexivity.
  - destruct (kaa_channel_manager_get_sync_handler _ _); unfold invoke;
      cbn [backend calls]; [rewrite <- app_assoc |]; reflexivity.
  - destruct (get_total_size view); [| now contradiction Ht].
    rewrite <- app_assoc. reflexivity.
Qed.


(** [update_storage] only adds to the log of calls. *)
Lemma update_storage_appends (c : kaa_log_collector_t S) w w' :
  update_storage c w = Returns w' -> exists cs, calls w' = calls w ++ cs.
Proof.
  unfold update_storage.
  destruct (is_upload_needed_fn c) as [fn |]; [| discriminate].
  cbv zeta. destruct (fn _ _).
  - intros H. injection H as <-. cbn. eauto.
  - destruct (kaa_channel_manager_get_sync_handler _ _);
      intros H; injection H as <-; cbn; [rewrite <- app_assoc |]; eauto.
  - destruct (log_storage_status c) as [view |]; [| discriminate].
    destruct (get_total_size view); [| discriminate].
    destruct (log_storage c); [| discriminate].
    destruct (log_properties c); [| discriminate].
    intros H. injection H as <-. cbn. rewrite <- app_assoc. eauto.
Qed.

Lemma len_serialized entry size : 0 <= size -> len (serialized entry size) = size.
Proof.
  intros H. unfold len, serialized.
  rewrite length_firstn, length_app, repeat_length. lia.
Qed.

Lemma serialized_exact entry size :
  len (serialize entry) = size -> serialized entry size = serialize entry.
Proof.
  intros H. unfold serialized, len in *.
  rewrite firstn_app.
  replace (Z.to_nat size - length (serialize entry))%nat with 0%nat by lia.
  cbn [firstn]. rewrite app_nil_r. apply firstn_all2. lia.
Qed.

(** X4: on an initialized collector whose status view provides
    [get_total_size], with an entry of positive size and both allocations
    granted, [kaa_logging_add_record] returns [KAA_ERR_NONE] after handing
    the backend, by one [add_log_record] call, a record of exactly
    [get_size] bytes (the serialized entry itself when the entry serializes
    to that many bytes); the decision function is then evaluated once, on
    the backend state after the insertion, and acted on:
    [shrink_to_size(max_log_storage_volume)] for CLEANUP, the sync handler
    if one is registered for UPLOAD, nothing else. *)
Theorem add_record_stores_then_decides mem (c : kaa_log_collector_t S) entry w
    storage props view fn :
  log_storage c = Some storage ->
  log_properties c = Some props ->
  log_storage_status c = Some view ->
  is_upload_needed_fn c = Some fn ->
  get_total_size view <> None ->
  0 < get_size entry ->
  KAA_MALLOC mem (get_size entry * 1) = true ->
  avro_writer_memory mem (get_size entry) = true ->
  exists data,
    let record := {| record_data := Some data; record_size := get_size entry |} in
    let stored := {| backend := add_log_record storage record (backend w);
                     calls := calls w ++ [Call_add_log_record record] |} in
    len data = get_size entry /\
    (len (serialize entry) = get_size entry -> data = serialize entry) /\
    kaa_logging_add_record mem (Some c) (Some entry) w
    = Returns (KAA_ERR_NONE,
               acted c storage props (fn (Some view) (backend stored)) stored).
Proof.
  intros Hs Hp Hv Hf Ht Hsize Hm Ha.
  exists (serialized entry (get_size entry)). cbv zeta.
  split; [apply len_serialized; lia |]. split; [apply serialized_exact |].
  unfold kaa_logging_add_record. rewrite Hs, Hv, Hf.
  replace (0 <? get_size entry) with true by (symmetry; now apply Z.ltb_lt).
  rewrite Hm, Ha. cbn [negb]. unfold invoke.
  rewrite (update_storage_acted c storage props view fn _ Hs Hp Hv Hf Ht).
  reflexivity.
Qed.

(** X5: [kaa_logging_add_record] fails cleanly.  On a collector whose
    dependencies are bound together, with the backend bound and an entry of
    positive size, a refused allocation (of the record buffer, or of the
    writer over it) makes the function return [KAA_ERR_NOMEM] with no call
    made and the backend as it was.  And whenever the function returns an
    error, whichever it is, no call has been made and the backend is as it
    was; [KAA_ERR_NOMEM] is returned for a refused allocation only, and
    [KAA_ERR_NONE] only after both allocations were granted and a record of
    [get_size] bytes was handed to the backend as the first call. *)
Theorem add_record_fails_cleanly mem (c : kaa_log_collector_t S) entry w :
  collector_inv c ->
  (log_storage c <> None -> 0 < get_size entry ->
   KAA_MALLOC mem (get_size entry * 1) = false \/
   avro_writer_memory mem (get_size entry) = false ->
   kaa_logging_add_record mem (Some c) (Some entry) w = Returns (KAA_ERR_NOMEM, w)) /\
  (forall e w',
      kaa_logging_add_record mem (Some c) (Some entry) w = Returns (e, w') ->
      (e <> KAA_ERR_NONE -> w' = w) /\
      (e = KAA_ERR_NOMEM ->
       log_storage c <> None /\ 0 < get_size entry /\
       (KAA_MALLOC mem (get_size entry * 1) = false \/
        avro_writer_memory mem (get_size entry) = false)) /\
      (e = KAA_ERR_NONE ->
       log_storage c <> None /\ 0 < get_size entry /\
       KAA_MALLOC mem (get_size entry * 1) = true /\
       avro_writer_memory mem (get_size entry) = true /\
       exists data rest,
         len data = get_size entry /\
         calls w'
         = calls w
           ++ Call_add_log_record
                {| record_data := Some data; record_size := get_size entry |}
              :: rest)).
Proof.
  intros Hinv.
  destruct (log_storage c) as [storage |] eqn:Hs.
  - destruct (inv_bound c storage Hinv Hs) as (props & view & fn & Hp & Hv & Hf).
    unfold kaa_logging_add_record. rewrite Hs, Hv, Hf.
    destruct (0 <? get_size entry) eqn:Esize.
    + apply Z.ltb_lt in Esize.
      destruct (KAA_MALLOC mem (get_size entry * 1)) eqn:Hm; cbn [negb].
      * destruct (avro_writer_memory mem (get_size entry)) eqn:Ha; cbn [negb].
        -- split; [intros _ _ [H | H]; discriminate H |].
           intros e w'. unfold invoke. cbn [backend calls].
           destruct (update_storage c _) as [w1 | |] eqn:Hu; cbn [bind];
             try discriminate.
           intros H. injection H as <- <-.
           split; [intros H; now contradiction H |].
           split; [discriminate |]. intros _.
           destruct (update_storage_appends c _ w1 Hu) as (cs & Hcs).
           cbn [calls] in Hcs.
           split; [discriminate |]. split; [exact Esize |].
           split; [reflexivity |]. split; [reflexivity |].
           exists (serialized entry (get_size entry)), cs.
           split; [apply len_serialized; lia |].
           rewrite Hcs, <- app_assoc. reflexivity.
        -- split; [reflexivity |].
           intros e w' H. injection H as <- <-.
           split; [reflexivity |]. split; [| discriminate].
           intros _. split; [discriminate |]. split; [exact Esize |]. now right.
      * split; [reflexivity |].
        intros e w' H. injection H as <- <-.
        split; [reflexivity |]. split; [| discriminate].
        intros _. split; [discriminate |]. split; [exact Esize |]. now left.
    + apply Z.ltb_ge in Esize.
      split; [intros _ H; lia |].
      intros e w' H. injection H as <- <-.
      split; [reflexivity |]. split; discriminate.
  - split; [intros H; now contradiction H |].
    unfold kaa_logging_add_record. rewrite Hs.
    intros e w' H. injection H as <- <-.
    split; [reflexivity |]. split; discriminate.
Qed.

End AddRecordProperties.

(** ** Size estimate, continued *)

Section RequestSizeProperties.

Context {S : Type}.

Lemma get_size_value (c : kaa_log_collector_t S) (out : Z) (w : world S)
    view props get_count get_total :
  log_storage_status c = Some view ->
  log_properties c = Some props ->
  get_records_count view = Some get_count ->
  get_total_size view = Some get_total ->
  kaa_profile_request_get_size (Some c) (Some out) w
  = (KAA_ERR_NONE,
     Some (to_size_t
             (12 + Z.min (to_size_t (max_log_block_size props))
                         (to_size_t
                            (to_size_t (to_size_t (to_uint16 (get_count (backend w)) * 4)
                                        + to_size_t (to_uint16 (get_count (backend w)) * 3))
                             + to_size_t (get_total (backend w))))))).
Proof.
  intros Hv Hp Hc Ht. unfold kaa_profile_request_get_size.
  rewrite Hv, Hp, Hc, Ht.
  unfold KAA_EXTENSION_HEADER_SIZE, sizeof_uint32_t, KAA_MAX_PADDING_LENGTH.
  rewrite (to_size_t_small (8 + 4)) by lia.
  set (actual := to_size_t (_ + to_size_t (get_total (backend w)))).
  destruct (actual <? to_size_t (max_log_block_size props)) eqn:E.
  - apply Z.ltb_lt in E. rewrite Z.min_r by lia. reflexivity.
  - apply Z.ltb_ge in E. rewrite Z.min_l by lia. reflexivity.
Qed.

(** X6: whatever the status view reports (even a total so large that the
    sum wraps around), the estimate of [kaa_profile_request_get_size] lies
    between the fixed 12 bytes and 12 plus [max_log_block_size], provided
    that bound itself fits [size_t]. *)
Theorem request_size_estimate_bounded (c : kaa_log_collector_t S) (out : Z)
    (w : world S) view props get_count get_total :
  log_storage_status c = Some view ->
  log_properties c = Some props ->
  get_records_count view = Some get_count ->
  get_total_size view = Some get_total ->
  0 <= max_log_block_size props ->
  KAA_EXTENSION_HEADER_SIZE + 4 + max_log_block_size props < 2 ^ 64 ->
  exists estimate,
    kaa_profile_request_get_size (Some c) (Some out) w = (KAA_ERR_NONE, Some estimate) /\
    KAA_EXTENSION_HEADER_SIZE + 4 <= estimate
      <= KAA_EXTENSION_HEADER_SIZE + 4 + max_log_block_size props.
Proof.
  unfold KAA_EXTENSION_HEADER_SIZE.
  intros Hv Hp Hc Ht Hmax Hfit.
  rewrite (get_size_value c out w view props get_count get_total Hv Hp Hc Ht).
  eexists. split; [reflexivity |].
  rewrite (to_size_t_small (max_log_block_size props)) by lia.
  set (actual := to_size_t (_ + to_size_t (get_total (backend w)))).
  pose proof (to_size_t_range
                (to_size_t (to_size_t (to_uint16 (get_count (backend w)) * 4)
                            + to_size_t (to_uint16 (get_count (backend w)) * 3))
                 + to_size_t (get_total (backend w)))) as Hr.
  fold actual in Hr.
  rewrite to_size_t_small by lia. lia.
Qed.

End RequestSizeProperties.

(** ** Building a request, continued *)

Lemma to_size_t_ssize (z k : Z) : to_size_t (to_ssize_t z + k) = to_size_t (z + k).
Proof.
  unfold to_size_t, to_ssize_t, SIZE_BITS. change (64 - 1) with 63.
  replace ((z + 2 ^ 63) mod 2 ^ 64 - 2 ^ 63 + k)
    with ((z + 2 ^ 63) mod 2 ^ 64 + (k - 2 ^ 63)) by lia.
  rewrite Zplus_mod_idemp_l. f_equal. lia.
Qed.

Lemma to_size_t_sub_r (a b : Z) : to_size_t (a - to_size_t b) = to_size_t (a - b).
Proof. unfold to_size_t, SIZE_BITS. apply Zminus_mod_idemp_r. Qed.

Lemma to_size_t_step (a b y : Z) :
  to_size_t (to_ssize_t (a - to_size_t b) - y) = to_size_t (a - (b + y)).
Proof.
  replace (to_ssize_t (a - to_size_t b) - y)
    with (to_ssize_t (a - to_size_t b) + (- y)) by lia.
  rewrite to_size_t_ssize.
  replace (a - to_size_t b + - y) with ((a - y) - to_size_t b) by lia.
  rewrite to_size_t_sub_r. f_equal. lia.
Qed.

Section RecordLoopTrace.

Context {S : Type}.
Variable host : endianness.
Variable storage : kaa_log_storage_t S.
Variable get : Z -> Z -> S -> kaa_log_entry_t * S.
Variable id : Z.

(** The calls of the loop, whatever the backend: [get_record] calls that all
    carry the bucket id, no more of them than turns allowed, then the
    notification if a write failed; and the budget, as [size_t], is the one
    the loop started with less the wire size of every record handed out. *)
Lemma serialize_records_trace (fuel : nat) (st : loop_state (S := S)) e st' :
  0 <= wcurrent (ls_writer st) ->
  serialize_records fuel host storage get id st = Returns (e, st') ->
  exists gets,
    calls (ls_world st')
      = calls (ls_world st) ++ gets
        ++ (if kaa_error_eqb e KAA_ERR_NONE then []
            else match upload_failed storage with
                 | Some _ => [Call_upload_failed id]
                 | None => []
                 end) /\
    forallb (uses_id id) gets = true /\
    forallb is_get_record gets = true /\
    (length gets <= fuel)%nat /\
    to_size_t (ls_remaining_size st')
      = to_size_t (ls_remaining_size st - wire_total (handed_out gets)).
Proof.
  revert st. induction fuel as [| fuel IH]; intros st Hcur Hrun; [discriminate |].
  rewrite serialize_records_turn in Hrun by exact Hcur. cbv zeta in Hrun.
  set (entry := fst (get id (ls_remaining_size st) (backend (ls_world st)))) in *.
  pose proof (wire_size_lower entry) as Hlow.
  assert (Hfail : forall b0 wr0 cnt,
             let st1 := {| ls_writer := wr0;
                           ls_remaining_size :=
                             to_ssize_t (ls_remaining_size st
                                         - to_size_t (wire_size entry));
                           ls_records_count := cnt;
                           ls_world :=
                             notify_upload_failed storage id
                               {| backend := b0;
                                  calls := calls (ls_world st)
                                           ++ [Call_get_record id (ls_remaining_size st)
                                                 entry] |} |} in
             record_data entry <> None ->
             exists gets,
               calls (ls_world st1)
                 = calls (ls_world st) ++ gets
                   ++ match upload_failed storage with
                      | Some _ => [Call_upload_failed id]
                      | None => []
                      end /\
               forallb (uses_id id) gets = true /\
               forallb is_get_record gets = true /\
               (length gets <= Datatypes.S fuel)%nat /\
               to_size_t (ls_remaining_size st1)
                 = to_size_t (ls_remaining_size st - wire_total (handed_out gets))).
  { intros b0 wr0 cnt st1 Hdata.
    exists [Call_get_record id (ls_remaining_size st) entry].
    cbn [st1 ls_world ls_remaining_size].
    rewrite calls_notify_upload_failed. cbn [calls].
    split; [now rewrite <- app_assoc |].
    cbn [forallb uses_id is_get_record handed_out length].
    rewrite Z.eqb_refl.
    destruct (record_data entry); [| now contradiction Hdata].
    cbn [wire_total fold_right].
    repeat split; try lia.
    replace (to_ssize_t (ls_remaining_size st - to_size_t (wire_size entry)))
      with (to_ssize_t (ls_remaining_size st - to_size_t (wire_size entry)) - 0) by lia.
    apply to_size_t_step. }
  destruct (record_data entry) as [data |] eqn:Hdata.
  - destruct (_ <=? _) eqn:E4 in Hrun.
    + destruct (_ + wire_size _ <=? _) eqn:Ew in Hrun.
      * apply IH in Hrun; [| cbn [ls_writer wcurrent]; lia].
        cbn [ls_writer ls_world ls_remaining_size wcurrent calls] in Hrun.
        destruct Hrun as (gets & Hc & Hid & Hg & Hn & Hrem).
        exists (Call_get_record id (ls_remaining_size st) entry :: gets).
        split; [rewrite Hc, <- !app_assoc; reflexivity |].
        cbn [forallb uses_id is_get_record handed_out length].
        rewrite Z.eqb_refl, Hdata, Hid, Hg.
        cbn [wire_total fold_right]. fold (wire_total (handed_out gets)).
        repeat split; try lia.
        rewrite Hrem. apply to_size_t_step.
      * injection Hrun as <- <-. cbn [kaa_error_eqb].
        apply (Hfail _ _ _). discriminate.
    + injection Hrun as <- <-. cbn [kaa_error_eqb].
      apply (Hfail _ _ _). discriminate.
  - injection Hrun as <- <-. cbn [kaa_error_eqb ls_world ls_remaining_size calls].
    exists [Call_get_record id (ls_remaining_size st) entry].
    cbn [forallb uses_id is_get_record handed_out length].
    rewrite Z.eqb_refl, Hdata. cbn [wire_total fold_right].
    rewrite app_nil_r, Z.sub_0_r. repeat split; lia.
Qed.

End RecordLoopTrace.

Section RequestProperties.

Context {S : Type}.
Variable pf : kaa_platform.

(** X7: [kaa_logging_request_serialize] leaves the collector, the writer
    and the backend exactly as they were, with no call made, when it
    returns [KAA_ERR_BAD_STATE] for an unbound backend, a backend without
    [get_record] or unbound properties, and also when the header does not
    fit the buffer: that [KAA_ERR_WRITE_FAILED] consumes no bucket id and,
    unlike a failed record write, is not reported through [upload_failed]. *)
Theorem request_early_exit_changes_nothing (c : kaa_log_collector_t S) wr w :
  0 <= wcurrent wr ->
  (log_storage c = None \/
   (exists storage, log_storage c = Some storage /\ get_record storage = None) \/
   log_properties c = None ->
   kaa_logging_request_serialize pf (Some c) (Some wr) w
   = Returns (KAA_ERR_BAD_STATE, (Some c, Some wr, w))) /\
  (forall storage get props,
      log_storage c = Some storage -> get_record storage = Some get ->
      log_properties c = Some props ->
      wend wr < wcurrent wr + KAA_EXTENSION_HEADER_SIZE ->
      kaa_logging_request_serialize pf (Some c) (Some wr) w
      = Returns (KAA_ERR_WRITE_FAILED, (Some c, Some wr, w))).
Proof.
  intros Hcur. split.
  - intros H. apply outer_run. unfold request_serialize.
    destruct (log_storage c) as [storage |] eqn:Hs; [| reflexivity].
    destruct (get_record storage) as [get |] eqn:Hg; [| reflexivity].
    destruct (log_properties c) as [props |] eqn:Hp; [| reflexivity].
    destruct H as [H | [(s0 & Hs0 & Hg0) | H]]; try discriminate.
    injection Hs0 as <-. rewrite Hg in Hg0. discriminate.
  - intros storage get props Hs Hg Hp Hroom. apply outer_run.
    rewrite (request_serialize_eq pf c wr w storage get props Hs Hg Hp Hcur).
    unfold KAA_EXTENSION_HEADER_SIZE in Hroom.
    now replace (wcurrent wr + 8 <=? wend wr) with false
      by (symmetry; apply Z.leb_gt; lia).
Qed.

(** X8: when the bucket id is unset in memory (zero) and no status storage
    is there to read it from, [kaa_logging_request_serialize] returns
    [KAA_ERR_BAD_STATE] after the header has been written: the writer is 8
    bytes further and holds the extension header with length 0, while the
    collector and the backend are as they were and no call was made. *)
Theorem request_without_status_leaves_header (c : kaa_log_collector_t S) wr w
    storage get props :
  log_storage c = Some storage ->
  get_record storage = Some get ->
  log_properties c = Some props ->
  log_bucket_id c = 0 ->
  status c = None ->
  0 <= wcurrent wr ->
  wcurrent wr + KAA_EXTENSION_HEADER_SIZE <= wend wr ->
  exists wr',
    kaa_logging_request_serialize pf (Some c) (Some wr) w
    = Returns (KAA_ERR_BAD_STATE, (Some c, Some wr', w)) /\
    wcurrent wr' = wcurrent wr + KAA_EXTENSION_HEADER_SIZE /\
    wend wr' = wend wr /\
    peek (wcurrent wr) 8 (wbuf wr') = extension_header pf /\
    extension_length_field (wcurrent wr) wr' = 0.
Proof.
  unfold KAA_EXTENSION_HEADER_SIZE.
  intros Hs Hg Hp Hid Hst Hcur Hroom.
  exists {| wbuf := poke (wcurrent wr) (extension_header pf) (wbuf wr);
            wcurrent := wcurrent wr + 8 |}.
  split; [| split; [reflexivity | split; [| split]]].
  - apply outer_run.
    rewrite (request_serialize_eq pf c wr w storage get props Hs Hg Hp Hcur).
    replace (wcurrent wr + 8 <=? wend wr) with true by (symmetry; apply Z.leb_le; lia).
    unfold base_bucket_id. rewrite Hid, Hst. cbn [Z.eqb].
    rewrite <- Hid at 1. rewrite set_log_bucket_id_same. reflexivity.
  - unfold wend in *. cbn [wbuf]. apply len_poke; rewrite ?len_extension_header; lia.
  - cbn [wbuf]. apply (peek_poke_same (wcurrent wr) (extension_header pf)); [lia |].
    rewrite len_extension_header. unfold wend in Hroom. lia.
  - unfold extension_length_field. cbn [wbuf]. unfold extension_header.
    rewrite app_assoc.
    rewrite poke_app
      by (rewrite ?len_app, ?len_be_bytes; unfold wend in Hroom; simpl; lia).
    replace (wcurrent wr + len (be_bytes 1 (KAA_LOGGING_EXTENSION_TYPE pf)
                                ++ be_bytes 3 KAA_LOGGING_RECEIVE_UPDATES_FLAG))
      with (wcurrent wr + 4) by reflexivity.
    rewrite (peek_poke_same (wcurrent wr + 4) (be_bytes 4 0)); [reflexivity | lia |].
    rewrite len_poke; rewrite ?len_app, ?len_be_bytes; unfold wend in Hroom;
      simpl; lia.
Qed.

Lemma count_gets (gets tail : list call) :
  forallb is_get_record gets = true ->
  forallb (fun c => negb (is_get_record c)) tail = true ->
  count_calls is_get_record (gets ++ tail) = length gets.
Proof.
  intros Hg Ht. rewrite count_calls_app. unfold count_calls.
  assert (E1 : filter is_get_record gets = gets).
  { induction gets as [| g gets IH]; [reflexivity |].
    cbn [forallb] in Hg. apply andb_prop in Hg. destruct Hg as [H1 H2].
    cbn [filter]. rewrite H1, IH by exact H2. reflexivity. }
  assert (E2 : filter is_get_record tail = []).
  { induction tail as [| t tail IH]; [reflexivity |].
    cbn [forallb] in Ht. apply andb_prop in Ht. destruct Ht as [H1 H2].
    cbn [filter]. destruct (is_get_record t); [discriminate | now apply IH]. }
  rewrite E1, E2. cbn. lia.
Qed.

(** The calls of a request that returned. *)
Lemma request_trace (c : kaa_log_collector_t S) wr w e c' wr' w' :
  0 <= wcurrent wr ->
  kaa_logging_request_serialize pf (Some c) (Some wr) w
    = Returns (e, (Some c', Some wr', w')) ->
  exists news,
    calls w' = calls w ++ news /\
    forallb (uses_id (log_bucket_id c')) news = true /\
    (count_calls is_get_record news
     <= Datatypes.S (Z.to_nat ((wend wr - (wcurrent wr + 12)) / 4)))%nat.
Proof.
  intros Hcur Hret.
  apply outer_inv in Hret. destruct Hret as (c0 & wr0 & Ec & Ew & Hret).
  injection Ec as <-. injection Ew as <-.
  assert (Hnone : w' = w ->
                  exists news,
                    calls w' = calls w ++ news /\
                    forallb (uses_id (log_bucket_id c')) news = true /\
                    (count_calls is_get_record news
                     <= Datatypes.S (Z.to_nat ((wend wr - (wcurrent wr + 12)) / 4)))%nat).
  { intros ->. exists []. rewrite app_nil_r. repeat split. cbn. lia. }
  destruct (log_storage c) as [storage |] eqn:Hs.
  2: { unfold request_serialize in Hret. rewrite Hs in Hret.
       injection Hret as <- <- <- <-. now apply Hnone. }
  destruct (get_record storage) as [get |] eqn:Hg.
  2: { unfold request_serialize in Hret. rewrite Hs, Hg in Hret.
       injection Hret as <- <- <- <-. now apply Hnone. }
  destruct (log_properties c) as [props |] eqn:Hp.
  2: { unfold request_serialize in Hret. rewrite Hs, Hg, Hp in Hret.
       injection Hret as <- <- <- <-. now apply Hnone. }
  destruct (Z.le_gt_cases (wcurrent wr + 8) (wend wr)) as [H8 | H8].
  2: { rewrite (request_serialize_eq pf c wr w storage get props Hs Hg Hp Hcur) in Hret.
       replace (wcurrent wr + 8 <=? wend wr) with false in Hret
         by (symmetry; apply Z.leb_gt; lia).
       injection Hret as <- <- <- <-. now apply Hnone. }
  destruct (request_serialize_inv pf c wr w e c' wr' w' storage get props
              Hs Hg Hp Hcur H8 Hret)
    as [(_ & _ & ->) | (b & st & Hb & H10 & Hloop & -> & -> & _)];
    [now apply Hnone |].
  cbn [set_log_bucket_id log_bucket_id].
  set (id := to_uint16 (b + 1)) in *.
  assert (Hpos : 0 <= wcurrent (ls_writer (entry_state pf props wr w id)))
    by (cbn [entry_state ls_writer wcurrent]; lia).
  destruct (serialize_records_trace _ _ _ _ _ _ e st Hpos Hloop)
    as (gets & Hc & Hid & Hg' & Hn & _).
  cbn [entry_state ls_world calls] in Hc.
  eexists. split; [exact Hc |]. split.
  - rewrite forallb_app, Hid. cbn [andb].
    destruct (kaa_error_eqb e KAA_ERR_NONE); [reflexivity |].
    destruct (upload_failed storage); [| reflexivity].
    cbn [forallb uses_id]. now rewrite Z.eqb_refl.
  - rewrite count_gets; [| exact Hg' |].
    + unfold loop_fuel in Hn. rewrite entry_state_end in Hn by lia.
      cbn [entry_state ls_writer wcurrent] in Hn. exact Hn.
    + destruct (kaa_error_eqb e KAA_ERR_NONE); [reflexivity |].
      destruct (upload_failed storage); reflexivity.
Qed.

(** X9: every call [kaa_logging_request_serialize] makes to the backend is
    a [get_record] or the final [upload_failed], and each carries the one
    bucket id the collector holds afterwards, which on success is the id
    written in the request; the function never evaluates the decision
    function and never adds, shrinks or acknowledges. *)
Theorem request_calls_carry_one_id (c : kaa_log_collector_t S) wr w e c' wr' w' :
  0 <= wcurrent wr ->
  kaa_logging_request_serialize pf (Some c) (Some wr) w
    = Returns (e, (Some c', Some wr', w')) ->
  exists news,
    calls w' = calls w ++ news /\
    forallb (uses_id (log_bucket_id c')) news = true /\
    (e = KAA_ERR_NONE -> bucket_id_field (wcurrent wr) wr' = log_bucket_id c').
Proof.
  intros Hcur Hret.
  destruct (request_trace c wr w e c' wr' w' Hcur Hret) as (news & Hc & Hid & _).
  exists news. split; [exact Hc |]. split; [exact Hid |].
  intros ->.
  destruct (request_bucket_id pf c wr w c' wr' w' Hcur Hret) as (b & _ & -> & Hf).
  exact Hf.
Qed.

(** X10: whatever the backend returns, even if it never returns the
    sentinel, a call with room for the fixed 12 bytes returns, and it has
    asked the backend for a record at most once more than the number of
    4-byte size fields the rest of the buffer can hold. *)
Theorem request_asks_boundedly (c : kaa_log_collector_t S) wr w :
  0 <= wcurrent wr ->
  wcurrent wr + KAA_EXTENSION_HEADER_SIZE + 4 <= wend wr ->
  exists e c' wr' w',
    kaa_logging_request_serialize pf (Some c) (Some wr) w
      = Returns (e, (Some c', Some wr', w')) /\
    (e = KAA_ERR_NONE \/ e = KAA_ERR_WRITE_FAILED \/ e = KAA_ERR_BAD_STATE) /\
    (Z.of_nat (count_calls is_get_record (skipn (length (calls w)) (calls w')))
     <= (wend wr - (wcurrent wr + KAA_EXTENSION_HEADER_SIZE + 4)) / 4 + 1).
Proof.
  unfold KAA_EXTENSION_HEADER_SIZE. intros Hcur Hroom.
  destruct (request_serialize_returns pf c wr w Hcur ltac:(lia))
    as (e & c' & wr' & w' & Hret).
  exists e, c', wr', w'. split; [exact Hret |].
  destruct (request_trace c wr w e c' wr' w' Hcur Hret) as (news & Hc & _ & Hn).
  split.
  - pose proof Hret as Hret'. apply outer_inv in Hret'.
    destruct Hret' as (c0 & wr0 & Ec & Ew & Hreq).
    injection Ec as <-. injection Ew as <-.
    destruct (log_storage c) as [storage |] eqn:Hs;
      [| unfold request_serialize in Hreq; rewrite Hs in Hreq;
         injection Hreq as <- _ _ _; auto].
    destruct (get_record storage) as [get |] eqn:Hg;
      [| unfold request_serialize in Hreq; rewrite Hs, Hg in Hreq;
         injection Hreq as <- _ _ _; auto].
    destruct (log_properties c) as [props |] eqn:Hp;
      [| unfold request_serialize in Hreq; rewrite Hs, Hg, Hp in Hreq;
         injection Hreq as <- _ _ _; auto].
    destruct (request_serialize_inv pf c wr w e c' wr' w' storage get props
                Hs Hg Hp Hcur ltac:(lia) Hreq)
      as [(-> & _) | (_ & _ & _ & _ & _ & _ & _ & [(-> & _) | (-> & _)])]; auto.
  - rewrite Hc, skipn_app, skipn_all, Nat.sub_diag. cbn [skipn app].
    replace (wcurrent wr + 8 + 4) with (wcurrent wr + 12) by lia.
    assert (0 <= (wend wr - (wcurrent wr + 12)) / 4)
      by (apply Z.div_pos; lia).
    lia.
Qed.

End RequestProperties.

Section RequestContents.

Context {S : Type}.
Variable pf : kaa_platform.

Lemma mod_2_64_2_32 (z : Z) : (z mod 2 ^ 64) mod 2 ^ 32 = z mod 2 ^ 32.
Proof.
  apply Z.mod_mod_divide. exists (2 ^ 32). reflexivity.
Qed.

(** A completed request, whatever the backend. *)
Lemma request_success_contents (c : kaa_log_collector_t S) wr w c' wr' w' :
  0 <= wcurrent wr ->
  kaa_logging_request_serialize pf (Some c) (Some wr) w
    = Returns (KAA_ERR_NONE, (Some c', Some wr', w')) ->
  exists props (st : loop_state (S := S)) gets,
    log_properties c = Some props /\
    wr' = patched (wcurrent wr) props st /\
    calls w' = calls w ++ gets /\
    wend (ls_writer st) = wend wr /\
    wcurrent wr + 12 <= wend wr /\
    wcurrent (ls_writer st) = wcurrent wr + 12 + wire_total (handed_out gets) /\
    wcurrent wr + 12 + wire_total (handed_out gets) <= wend wr /\
    to_uint16 (ls_records_count st) = to_uint16 (len (handed_out gets)) /\
    to_size_t (max_log_block_size props - ls_remaining_size st)
      = to_size_t (wire_total (handed_out gets)) /\
    peek (wcurrent wr + 12) (length (concat (map (record_bytes (host_order pf))
                                                 (handed_out gets))))
         (wbuf (ls_writer st))
      = concat (map (record_bytes (host_order pf)) (handed_out gets)).
Proof.
  intros Hcur Hret.
  apply outer_inv in Hret. destruct Hret as (c0 & wr0 & Ec & Ew & Hret).
  injection Ec as <-. injection Ew as <-.
  destruct (request_success_inv pf c wr w c' wr' w' Hcur Hret)
    as (storage & get & props & b & st & Hs & Hg & Hp & Hb & H12 & Hloop
        & -> & -> & ->).
  set (id := to_uint16 (b + 1)) in *.
  assert (Hpos : 0 <= wcurrent (ls_writer (entry_state pf props wr w id)))
    by (cbn [entry_state ls_writer wcurrent]; lia).
  destruct (serialize_records_spec _ _ _ _ _ _ _ st Hpos Hloop)
    as (gets & _ & Hend & _ & [(_ & Hc & Hw & Hfit & Hcount) | (He & _)]);
    [| discriminate].
  destruct (serialize_records_trace _ _ _ _ _ _ _ st Hpos Hloop)
    as (gets' & Hc' & _ & _ & _ & Hrem).
  cbn [kaa_error_eqb] in Hc'. rewrite app_nil_r, Hc in Hc'.
  apply app_inv_head in Hc'. subst gets'.
  pose proof (serialize_records_bytes _ _ _ _ _ _ st Hpos Hloop) as Hbytes.
  rewrite Hc, skipn_app, skipn_all, Nat.sub_diag in Hbytes. cbn [skipn app] in Hbytes.
  rewrite entry_state_end in Hend, Hfit by lia.
  assert (He : len (wbuf (ls_writer (entry_state pf props wr w id))) = wend wr)
    by (apply (entry_state_end pf props wr w id); lia).
  cbn [entry_state ls_writer ls_world ls_remaining_size ls_records_count
       wcurrent wbuf calls] in Hc, Hw, Hcount, Hrem, Hbytes, He.
  pose proof (wire_total_nonneg (handed_out gets)) as Hnn.
  assert (Hroom : wcurrent wr + 12 + wire_total (handed_out gets) <= wend wr).
  { destruct (handed_out gets) as [| r rs] eqn:Hh; [cbn; lia |].
    assert (wcurrent (ls_writer st) <= wend wr) by (apply Hfit; discriminate).
    lia. }
  exists props, st, gets.
  split; [exact Hp |]. split; [reflexivity |]. split; [exact Hc |].
  split; [exact Hend |]. split; [exact H12 |]. split; [lia |]. split; [exact Hroom |].
  split; [rewrite Hcount; reflexivity |]. split.
  - rewrite <- to_size_t_sub_r, Hrem.
    replace (to_ssize_t (max_log_block_size props) - wire_total (handed_out gets))
      with (to_ssize_t (max_log_block_size props) + - wire_total (handed_out gets))
      by lia.
    rewrite to_size_t_ssize, to_size_t_sub_r. f_equal. lia.
  - rewrite Hbytes. apply peek_poke_same; [lia |].
    rewrite He, len_concat_record_bytes. lia.
Qed.

(** X11: a request that [kaa_logging_request_serialize] completes is
    self-describing, whatever the backend did (even one that ignores the
    budget): the writer stands right after the last record; the length the
    header carries is, in 32 bits, the number of bytes that follow the
    header; the record count is, in 16 bits, the number of records the
    backend handed out; and these records lie one after the other behind
    the count, each as its 4-byte size field and padded payload. *)
Theorem request_is_self_describing (c : kaa_log_collector_t S) wr w c' wr' w' :
  0 <= wcurrent wr ->
  kaa_logging_request_serialize pf (Some c) (Some wr) w
    = Returns (KAA_ERR_NONE, (Some c', Some wr', w')) ->
  let rs := handed_out (skipn (length (calls w)) (calls w')) in
  let bytes := concat (map (record_bytes (host_order pf)) rs) in
  wend wr' = wend wr /\
  wcurrent wr' <= wend wr' /\
  wcurrent wr' = wcurrent wr + KAA_EXTENSION_HEADER_SIZE + 4 + len bytes /\
  extension_length_field (wcurrent wr) wr'
    = (wcurrent wr' - (wcurrent wr + KAA_EXTENSION_HEADER_SIZE)) mod 2 ^ 32 /\
  records_count_field (wcurrent wr) wr' = len rs mod 2 ^ 16 /\
  peek (wcurrent wr + KAA_EXTENSION_HEADER_SIZE + 4) (length bytes) (wbuf wr') = bytes.
Proof.
  unfold KAA_EXTENSION_HEADER_SIZE. intros Hcur Hret. cbv zeta.
  destruct (request_success_contents c wr w c' wr' w' Hcur Hret)
    as (props & st & gets & Hp & -> & Hc & Hend & H12 & Hw & Hroom & Hcount
        & Hrem & Hbytes).
  rewrite Hc, skipn_app, skipn_all, Nat.sub_diag. cbn [skipn app].
  rewrite len_concat_record_bytes.
  destruct (patched_fields (wcurrent wr) props st Hcur ltac:(lia))
    as (Hlen & Hcnt & _).
  assert (H1 : len (poke (wcurrent wr + 4)
                      (be_bytes 4
                         (to_uint32
                            (4 + to_size_t (max_log_block_size props
                                            - ls_remaining_size st))))
                      (wbuf (ls_writer st))) = wend wr).
  { rewrite len_poke; rewrite ?len_be_bytes; change (Z.of_nat 4) with 4;
      unfold wend in *; lia. }
  split; [| split; [| split; [| split; [| split]]]].
  - unfold wend at 1. cbn [patched wbuf].
    rewrite len_poke; rewrite ?len_be_bytes, ?H1; change (Z.of_nat 2) with 2; lia.
  - unfold wend at 1. cbn [patched wbuf wcurrent].
    rewrite len_poke; rewrite ?len_be_bytes, ?H1; change (Z.of_nat 2) with 2; lia.
  - cbn [patched wcurrent]. lia.
  - rewrite Hlen, Hrem. cbn [patched wcurrent]. rewrite Hw.
    replace (wcurrent wr + 12 + wire_total (handed_out gets) - (wcurrent wr + 8))
      with (4 + wire_total (handed_out gets)) by lia.
    unfold to_size_t, SIZE_BITS.
    rewrite Z.add_mod by lia. rewrite mod_2_64_2_32.
    rewrite <- Z.add_mod by lia. reflexivity.
  - rewrite Hcnt, Hcount. reflexivity.
  - cbn [patched wbuf].
    replace (wcurrent wr + 8 + 4) with (wcurrent wr + 12) by lia.
    rewrite peek_poke_after
      by (rewrite ?len_be_bytes, ?H1; change (Z.of_nat 2) with 2; lia).
    rewrite peek_poke_after
      by (rewrite ?len_be_bytes; change (Z.of_nat 4) with 4;
          unfold wend in *; lia).
    exact Hbytes.
Qed.

(** X12: when the id in memory is 65535 the next request carries id 0,
    which the collector takes for "unset": the request after that does not
    carry 1 but the successor of the id in status storage. *)
Theorem bucket_id_wraps_to_unset (c : kaa_log_collector_t S) wr w c1 wr1 w1
    wr2 w2 c3 wr3 w3 stored :
  log_bucket_id c = 65535 ->
  status c = Some stored ->
  0 <= wcurrent wr ->
  0 <= wcurrent wr2 ->
  kaa_logging_request_serialize pf (Some c) (Some wr) w
    = Returns (KAA_ERR_NONE, (Some c1, Some wr1, w1)) ->
  kaa_logging_request_serialize pf (Some c1) (Some wr2) w2
    = Returns (KAA_ERR_NONE, (Some c3, Some wr3, w3)) ->
  bucket_id_field (wcurrent wr) wr1 = 0 /\
  log_bucket_id c1 = 0 /\
  bucket_id_field (wcurrent wr2) wr3
    = to_uint16 (to_uint16 (status_log_bucket_id stored) + 1).
Proof.
  intros Hid Hst Hcur Hcur2 Hret1 Hret2.
  destruct (request_bucket_id pf c wr w c1 wr1 w1 Hcur Hret1) as (b & Hb & Hc1 & Hf).
  unfold base_bucket_id in Hb. rewrite Hid in Hb. cbn [Z.eqb] in Hb.
  injection Hb as <-.
  change (to_uint16 (65535 + 1)) with 0 in Hc1, Hf.
  split; [exact Hf |]. split; [rewrite Hc1; reflexivity |].
  destruct (request_bucket_id pf c1 wr2 w2 c3 wr3 w3 Hcur2 Hret2) as (b & Hb & _ & Hf2).
  rewrite Hc1 in Hb. unfold base_bucket_id in Hb.
  cbn [set_log_bucket_id log_bucket_id status Z.eqb] in Hb.
  rewrite Hst in Hb. injection Hb as <-. exact Hf2.
Qed.

End RequestContents.

(** ** The size estimate and the request *)

Lemma wire_size_upper (r : kaa_log_entry_t) :
  0 <= record_size r < 2 ^ 63 -> wire_size r <= record_size r + 7.
Proof.
  intros H. unfold wire_size, sizeof_uint32_t.
  rewrite to_size_t_small by lia.
  pose proof (aligned_bounds (record_size r) H). lia.
Qed.

Lemma wire_total_upper (rs : list kaa_log_entry_t) :
  Forall (fun r => 0 <= record_size r < 2 ^ 63) rs ->
  0 <= sizes_total rs /\ wire_total rs <= 7 * len rs + sizes_total rs.
Proof.
  induction 1 as [| r rs Hr _ IH]; [cbn; lia |].
  cbn [wire_total sizes_total fold_right].
  fold (wire_total rs). fold (sizes_total rs).
  pose proof (wire_size_upper r Hr). unfold len in *. cbn [length]. lia.
Qed.

Section RequestAndEstimate.

Context {S : Type}.
Variable pf : kaa_platform.

(** With a backend that keeps the [get_record] contract the records of a
    completed request take no more than the block size. *)
Lemma request_within_block (c : kaa_log_collector_t S) wr w c' wr' w'
    storage get props :
  log_storage c = Some storage ->
  get_record storage = Some get ->
  log_properties c = Some props ->
  get_record_fits get ->
  0 <= max_log_block_size props < 2 ^ 63 ->
  0 <= wcurrent wr ->
  kaa_logging_request_serialize pf (Some c) (Some wr) w
    = Returns (KAA_ERR_NONE, (Some c', Some wr', w')) ->
  wire_total (handed_out (skipn (length (calls w)) (calls w')))
    <= max_log_block_size props.
Proof.
  intros Hs Hg Hp Hfits Hmax Hcur Hret.
  apply outer_inv in Hret. destruct Hret as (c0 & wr0 & Ec & Ew & Hret).
  injection Ec as <-. injection Ew as <-.
  destruct (request_success_inv pf c wr w c' wr' w' Hcur Hret)
    as (storage0 & get0 & props0 & b & st & Hs0 & Hg0 & Hp0 & Hb & H12 & Hloop
        & -> & -> & ->).
  rewrite Hs in Hs0. injection Hs0 as <-.
  rewrite Hg in Hg0. injection Hg0 as <-.
  rewrite Hp in Hp0. injection Hp0 as <-.
  set (id := to_uint16 (b + 1)) in *.
  assert (Hpos : 0 <= wcurrent (ls_writer (entry_state pf props wr w id)))
    by (cbn [entry_state ls_writer wcurrent]; lia).
  assert (Hrem : - 2 ^ 63 <= ls_remaining_size (entry_state pf props wr w id) < 2 ^ 63)
    by (cbn [entry_state ls_remaining_size]; apply to_ssize_t_range).
  destruct (serialize_records_budget _ _ _ _ _ _ st Hfits Hpos Hrem Hloop)
    as (rs & last & Hcalls & Hlast & Hall & Hr & Hnonneg & _).
  cbn [entry_state ls_world ls_remaining_size calls] in Hcalls, Hr, Hnonneg.
  rewrite Hcalls, skipn_app, skipn_all, Nat.sub_diag. cbn [skipn app].
  rewrite (handed_out_get_record_calls _ _ rs _ last Hall Hlast).
  rewrite to_ssize_t_small in Hr by lia.
  destruct rs as [| r rs]; [cbn; lia |].
  assert (0 <= ls_remaining_size st) by (apply Hnonneg; discriminate). lia.
Qed.

(** X13: the estimate of [kaa_profile_request_get_size] covers the request
    that [kaa_logging_request_serialize] then builds from the same state:
    when the backend keeps the [get_record] contract and the status view
    counts at least the records handed out and their bytes, the request
    takes no more bytes of the buffer than were estimated. *)
Theorem estimate_covers_request (c : kaa_log_collector_t S) wr w c' wr' w' out
    storage get props view get_count get_total :
  log_storage c = Some storage ->
  get_record storage = Some get ->
  log_properties c = Some props ->
  log_storage_status c = Some view ->
  get_records_count view = Some get_count ->
  get_total_size view = Some get_total ->
  get_record_fits get ->
  0 <= max_log_block_size props < 2 ^ 63 ->
  0 <= wcurrent wr ->
  kaa_logging_request_serialize pf (Some c) (Some wr) w
    = Returns (KAA_ERR_NONE, (Some c', Some wr', w')) ->
  let rs := handed_out (skipn (length (calls w)) (calls w')) in
  Forall (fun r => 0 <= record_size r < 2 ^ 63) rs ->
  len rs <= get_count (backend w) < 2 ^ 16 ->
  sizes_total rs <= get_total (backend w) < 2 ^ 63 ->
  exists estimate,
    kaa_profile_request_get_size (Some c) (Some out) w = (KAA_ERR_NONE, Some estimate) /\
    wcurrent wr' - wcurrent wr <= estimate.
Proof.
  intros Hs Hg Hp Hv Hgc Hgt Hfits Hmax Hcur Hret rs Hsizes Hcount Htotal.
  pose proof (request_within_block c wr w c' wr' w' storage get props
                Hs Hg Hp Hfits Hmax Hcur Hret) as Hblock.
  fold rs in Hblock.
  destruct (wire_total_upper rs Hsizes) as (Hnn & Hup).
  destruct (request_success_contents pf c wr w c' wr' w' Hcur Hret)
    as (props0 & st & gets & _ & -> & Hc & _ & _ & Hw & _).
  assert (Ers : rs = handed_out gets).
  { unfold rs. rewrite Hc, skipn_app, skipn_all, Nat.sub_diag. reflexivity. }
  rewrite (get_size_value c out w view props get_count get_total Hv Hp Hgc Hgt).
  eexists. split; [reflexivity |].
  cbn [patched wcurrent]. rewrite Hw, <- Ers.
  assert (Hlen : 0 <= len rs) by (unfold len; lia).
  set (count := get_count (backend w)) in *.
  set (total := get_total (backend w)) in *.
  unfold to_uint16. rewrite (Z.mod_small count) by lia.
  rewrite (to_size_t_small (count * 4)) by lia.
  rewrite (to_size_t_small (count * 3)) by lia.
  rewrite (to_size_t_small total) by lia.
  rewrite (to_size_t_small (count * 4 + count * 3)) by lia.
  rewrite (to_size_t_small (count * 4 + count * 3 + total)) by lia.
  rewrite (to_size_t_small (max_log_block_size props)) by lia.
  rewrite to_size_t_small by lia.
  lia.
Qed.

End RequestAndEstimate.

(** ** Unguarded accesses *)

Section UnguardedAccesses.

Context {S : Type}.
Variable pf : kaa_platform.

(** X14: the header write is the only guarded one among the fixed 12 bytes
    of [kaa_logging_request_serialize].  When the buffer has room for the
    8-byte header but not for the bucket id behind it, the id is stored
    past the end of the buffer; when it has room for the id but not for the
    record count and the backend has no record to hand out, the count is
    stored past the end.  Neither case is reported as
    [KAA_ERR_WRITE_FAILED]. *)
Theorem request_overruns_short_buffer (c : kaa_log_collector_t S) wr w
    storage get props b :
  log_storage c = Some storage ->
  get_record storage = Some get ->
  log_properties c = Some props ->
  base_bucket_id c = Some b ->
  0 <= wcurrent wr ->
  wcurrent wr + KAA_EXTENSION_HEADER_SIZE <= wend wr < wcurrent wr + 12 ->
  (wend wr < wcurrent wr + 10 \/
   record_data (fst (get (to_uint16 (b + 1)) (to_ssize_t (max_log_block_size props))
                         (backend w))) = None) ->
  kaa_logging_request_serialize pf (Some c) (Some wr) w = Undefined.
Proof.
  unfold KAA_EXTENSION_HEADER_SIZE. intros Hs Hg Hp Hb Hcur Hroom Hcase.
  unfold kaa_logging_request_serialize.
  rewrite (request_serialize_eq pf c wr w storage get props Hs Hg Hp Hcur).
  replace (wcurrent wr + 8 <=? wend wr) with true by (symmetry; apply Z.leb_le; lia).
  rewrite Hb. cbv zeta.
  destruct (wcurrent wr + 10 <=? wend wr) eqn:E10; [| reflexivity].
  apply Z.leb_le in E10.
  destruct Hcase as [Hlt | Hnone]; [lia |].
  unfold loop_fuel.
  rewrite serialize_records_turn by (cbn [entry_state ls_writer wcurrent]; lia).
  cbv zeta. cbn [entry_state ls_remaining_size ls_world ls_writer ls_records_count].
  rewrite Hnone. cbn [bind ls_writer].
  fold (ls_writer (entry_state pf props wr w (to_uint16 (b + 1)))).
  replace (wcurrent wr + 12 <=? _) with false; [reflexivity |].
  symmetry. apply Z.leb_gt.
  pose proof (entry_state_end pf props wr w (to_uint16 (b + 1)) Hcur E10) as He.
  cbn [entry_state ls_writer] in He. rewrite He. lia.
Qed.

(** The response as [kaa_logging_handle_server_sync] reads it. *)
Lemma load_outside (off : Z) (n : nat) (buf : list Z) :
  len buf < off + Z.of_nat n -> load off n buf = Undefined.
Proof.
  intros H. unfold load, in_range.
  replace (off + Z.of_nat n <=? len buf) with false by (symmetry; apply Z.leb_gt; lia).
  now rewrite andb_false_r.
Qed.

(** X15: [kaa_logging_handle_server_sync] reads the bucket id and the
    result byte without looking at [extension_length] or at the end of the
    reader: with fewer than 3 bytes left in the buffer it reads past the
    end, whatever length the caller announced, and no acknowledgment
    reaches the backend. *)
Theorem server_sync_reads_unguarded (c : kaa_log_collector_t S) reader opts length_ w :
  log_storage c <> None ->
  len (rbuf reader) < rcurrent reader + 3 ->
  kaa_logging_handle_server_sync (Some c) (Some reader) opts length_ w = Undefined.
Proof.
  intros Hs Hshort. unfold kaa_logging_handle_server_sync.
  destruct (log_storage c) as [storage |]; [| now contradiction Hs].
  destruct (load (rcurrent reader) 2 (rbuf reader)) as [bs | |] eqn:E2;
    cbn [bind]; [| reflexivity |].
  - cbn [rcurrent rbuf]. rewrite load_outside; [reflexivity |].
    unfold sizeof_uint16_t. change (Z.of_nat 1) with 1. lia.
  - unfold load in E2. destruct (in_range _ _ _); discriminate.
Qed.

End UnguardedAccesses.

(** ** Server responses, continued *)

Section ServerSyncProperties.

Context {S : Type}.

(** [kaa_logging_handle_server_sync] once the response has been read. *)
Lemma handle_server_sync_eq (c : kaa_log_collector_t S) reader opts length_ w
    storage hi lo code :
  log_storage c = Some storage ->
  positioned_at reader hi lo code ->
  kaa_logging_handle_server_sync (Some c) (Some reader) opts length_ w
  = (w' <- update_storage c
             (if code =? LOGGING_RESULT_SUCCESS
              then notify_upload_succeeded storage (hi * 256 + lo) w
              else notify_upload_failed storage (hi * 256 + lo) w) ;;
     Returns (KAA_ERR_NONE,
              (Some {| rbuf := rbuf reader; rcurrent := rcurrent reader + 4 |}, w'))).
Proof.
  intros Hs (pre & post & Hbuf & Hcur & Hhi & Hlo & Hcode).
  unfold kaa_logging_handle_server_sync. rewrite Hs, Hcur, Hbuf.
  assert (E0 : load (len pre) 2 (pre ++ [hi; lo; code] ++ post) = Returns [hi; lo])
    by exact (load_at pre [hi; lo] (code :: post)).
  rewrite E0. cbn [bind rcurrent rbuf].
  assert (E : load (len pre + sizeof_uint16_t) 1 (pre ++ [hi; lo; code] ++ post)
              = Returns [code]).
  { replace (len pre + sizeof_uint16_t) with (len (pre ++ [hi; lo]))
      by (rewrite len_app; reflexivity).
    replace (pre ++ [hi; lo; code] ++ post) with ((pre ++ [hi; lo]) ++ [code] ++ post)
      by (rewrite <- app_assoc; reflexivity).
    apply (load_at (pre ++ [hi; lo]) [code] post). }
  rewrite E. cbn [bind].
  assert (Eid : be_value (map to_uint8 [hi; lo]) = hi * 256 + lo).
  { unfold be_value. simpl. rewrite !to_uint8_small by lia. lia. }
  assert (Ecode : be_value (map to_uint8 [code]) = code).
  { unfold be_value. simpl. rewrite to_uint8_small by lia. reflexivity. }
  rewrite Eid, Ecode. unfold sizeof_uint16_t.
  replace (len pre + 2 + 2) with (len pre + 4) by lia. reflexivity.
Qed.

Lemma handle_server_sync_acted (c : kaa_log_collector_t S) reader opts length_ w
    storage props view fn hi lo code :
  log_storage c = Some storage ->
  log_properties c = Some props ->
  log_storage_status c = Some view ->
  is_upload_needed_fn c = Some fn ->
  get_total_size view <> None ->
  positioned_at reader hi lo code ->
  let acked := if code =? LOGGING_RESULT_SUCCESS
               then notify_upload_succeeded storage (hi * 256 + lo) w
               else notify_upload_failed storage (hi * 256 + lo) w in
  kaa_logging_handle_server_sync (Some c) (Some reader) opts length_ w
  = Returns (KAA_ERR_NONE,
             (Some {| rbuf := rbuf reader; rcurrent := rcurrent reader + 4 |},
              acted c storage props (fn (Some view) (backend acked)) acked)).
Proof.
  intros Hs Hp Hv Hf Ht Hpos. cbv zeta.
  rewrite (handle_server_sync_eq c reader opts length_ w storage hi lo code Hs Hpos).
  rewrite (update_storage_acted c storage props view fn _ Hs Hp Hv Hf Ht).
  reflexivity.
Qed.

(** X16: on an initialized collector whose status view provides
    [get_total_size], [kaa_logging_handle_server_sync] returns
    [KAA_ERR_NONE] with the reader 4 bytes further (the bucket id, the
    result byte and one byte it skips unread).  The backend has been through
    the callback the result code selects, [upload_succeeded] for code 0 and
    [upload_failed] for any other, applied to the id read, or through none
    when the backend lacks that callback; the decision function was then
    evaluated on the backend state this left, and for CLEANUP the backend
    was shrunk to [max_log_storage_volume].  The log of calls shows just
    these, in this order. *)
Theorem server_sync_acknowledges_then_decides (c : kaa_log_collector_t S) reader
    opts length_ w storage props view fn hi lo code :
  log_storage c = Some storage ->
  log_properties c = Some props ->
  log_storage_status c = Some view ->
  is_upload_needed_fn c = Some fn ->
  get_total_size view <> None ->
  positioned_at reader hi lo code ->
  let id := hi * 256 + lo in
  let callback := if code =? 0 then upload_succeeded storage else upload_failed storage in
  let acknowledged :=
    match callback with Some f => f id (backend w) | None => backend w end in
  exists w',
    kaa_logging_handle_server_sync (Some c) (Some reader) opts length_ w
    = Returns (KAA_ERR_NONE,
               (Some {| rbuf := rbuf reader; rcurrent := rcurrent reader + 4 |}, w')) /\
    backend w'
    = match fn (Some view) acknowledged with
      | CLEANUP => shrink_to_size storage (max_log_storage_volume props) acknowledged
      | _ => acknowledged
      end /\
    calls w'
    = calls w
      ++ match callback with
         | Some _ => [if code =? 0 then Call_upload_succeeded id
                      else Call_upload_failed id]
         | None => []
         end
      ++ Call_is_upload_needed
         :: match fn (Some view) acknowledged with
            | CLEANUP => [Call_shrink_to_size (max_log_storage_volume props)]
            | UPLOAD =>
                if kaa_channel_manager_get_sync_handler (channel_manager c)
                     KAA_SERVICE_LOGGING
                then [Call_sync logging_sync_services 1] else []
            | NOOP => []
            end.
Proof.
  intros Hs Hp Hv Hf Ht Hpos. cbv zeta.
  pose proof (handle_server_sync_acted c reader opts length_ w storage props view fn
                hi lo code Hs Hp Hv Hf Ht Hpos) as Hrun.
  cbv zeta in Hrun. eexists. split; [exact Hrun |]. clear Hrun.
  unfold notify_upload_succeeded, notify_upload_failed, LOGGING_RESULT_SUCCESS.
  destruct (code =? 0).
  - destruct (upload_succeeded storage) as [f |]; unfold invoke, acted;
      cbn [backend calls]; destruct (fn (Some view) _); cbn [backend calls];
      rewrite ?app_nil_r, <- ?app_assoc; split; reflexivity.
  - destruct (upload_failed storage) as [f |]; unfold invoke, acted;
      cbn [backend calls]; destruct (fn (Some view) _); cbn [backend calls];
      rewrite ?app_nil_r, <- ?app_assoc; split; reflexivity.
Qed.



End ServerSyncProperties.

(** ** The collector over its life *)

Section ApiBuilt.

Context {S : Type}.

Lemma api_built_inv (c : kaa_log_collector_t S) : api_built c -> collector_inv c.
Proof.
  induction 1 as [mem uninit st cm c Hc
                 | c storage props view fn w c' w' _ _ Hi
                 | pf c wr w e c' wr' w' _ IH Hcur Hret].
  - exact (proj1 (create_inv mem uninit true st cm c Hc)).
  - exact (proj1 (init_inv c storage props view fn w c' w' Hi)).
  - destruct (request_id_step pf c wr w e c' wr' w' Hcur Hret) as (i & -> & _).
    apply set_log_bucket_id_inv. exact IH.
Qed.

Lemma api_built_bound (c : kaa_log_collector_t S) :
  api_built c ->
  0 <= log_bucket_id c < 2 ^ 16 /\
  ((log_storage c = None /\ log_properties c = None /\ log_storage_status c = None) \/
   (log_storage c <> None /\ log_properties c <> None /\
    log_storage_status c <> None /\ is_upload_needed_fn c <> None)).
Proof.
  induction 1 as [mem uninit st cm c Hc
                 | c storage props view fn w c' w' _ IH Hi
                 | pf c wr w e c' wr' w' _ IH Hcur Hret].
  - unfold kaa_log_collector_create in Hc. cbn [negb] in Hc.
    destruct (negb (KAA_MALLOC mem sizeof_kaa_log_collector_t)); [discriminate |].
    injection Hc as <-. cbn. split; [lia |]. left. repeat split.
  - unfold kaa_logging_init in Hi.
    destruct storage, view, fn, props; try discriminate.
    injection Hi as <- _. cbn. split; [exact (proj1 IH) |].
    right. repeat split; discriminate.
  - destruct (request_id_step pf c wr w e c' wr' w' Hcur Hret) as (i & -> & Hi).
    cbn [set_log_bucket_id log_bucket_id log_storage log_properties
         log_storage_status is_upload_needed_fn].
    split; [| exact (proj2 IH)].
    destruct Hi as [(-> & _) | (b & _ & ->)]; [exact (proj1 IH) |].
    unfold to_uint16. apply Z.mod_pos_bound. lia.
Qed.

(** C5: on every collector the public functions produce (created by
    [kaa_log_collector_create], then taken through [kaa_logging_init] and
    [kaa_logging_request_serialize] any number of times),
    [kaa_logging_add_record] fails with the not-ready error
    [KAA_ERR_BAD_STATE], leaving the backend and the log of calls as they
    were, exactly when one of the four dependencies (backend storage,
    properties, status view, decision function) is unbound; it goes past
    that check only when all four are bound. *)
Theorem add_record_not_ready mem (c : kaa_log_collector_t S) entry w :
  api_built c ->
  (kaa_logging_add_record mem (Some c) (Some entry) w = Returns (KAA_ERR_BAD_STATE, w)
   <-> (log_storage c = None \/ log_properties c = None \/
        log_storage_status c = None \/ is_upload_needed_fn c = None)).
Proof.
  intros Hb. pose proof (api_built_inv c Hb) as Hinv.
  rewrite add_record_guard. split.
  - tauto.
  - intros H. destruct (log_storage c) as [storage |] eqn:Hs; [| tauto].
    destruct (inv_bound c storage Hinv Hs) as (p & v & f & Hp & Hv & Hf).
    rewrite Hp, Hv, Hf in H. intuition discriminate.
Qed.

(** X18: the dependencies of a collector stay bound together.  A collector
    the public functions produce has its bucket id within 16 bits, and has
    either no backend, no properties and no status view, or all of backend,
    properties, status view and decision function.  So readiness is one
    notion for the functions that test different fields:
    [kaa_profile_request_get_size], which tests the status view and the
    properties, and [kaa_logging_handle_server_sync], which tests the
    backend, return [KAA_ERR_NOT_INITIALIZED] for the same collectors, those
    without a backend. *)
Theorem api_built_collector_is_bound_together (c : kaa_log_collector_t S) :
  api_built c ->
  0 <= log_bucket_id c < 2 ^ 16 /\
  ((log_storage c = None /\ log_properties c = None /\ log_storage_status c = None) \/
   (log_storage c <> None /\ log_properties c <> None /\
    log_storage_status c <> None /\ is_upload_needed_fn c <> None)) /\
  (forall out w,
      kaa_profile_request_get_size (Some c) (Some out) w
        = (KAA_ERR_NOT_INITIALIZED, Some out)
      <-> log_storage c = None) /\
  (forall reader opts length_ w,
      kaa_logging_handle_server_sync (Some c) (Some reader) opts length_ w
        = Returns (KAA_ERR_NOT_INITIALIZED, (Some reader, w))
      <-> log_storage c = None).
Proof.
  intros Hb. destruct (api_built_bound c Hb) as (Hid & Hbound).
  split; [exact Hid |]. split; [exact Hbound |]. split.
  - intros out w. unfold kaa_profile_request_get_size.
    destruct Hbound as [(Hs & Hp & Hv) | (Hs & Hp & Hv & _)].
    + rewrite Hv. split; [intros _; exact Hs | reflexivity].
    + destruct (log_storage_status c) as [view |]; [| now contradiction Hv].
      destruct (log_properties c) as [props |]; [| now contradiction Hp].
      split; [| intros H; now contradiction Hs].
      destruct (get_records_count view), (get_total_size view); discriminate.
  - intros reader opts length_ w. unfold kaa_logging_handle_server_sync.
    destruct (log_storage c) as [storage |]; [| split; reflexivity].
    split; [| discriminate].
    destruct (load _ 2 _); cbn [bind]; try discriminate.
    destruct (load _ 1 _); cbn [bind]; try discriminate.
    destruct (update_storage c _); cbn [bind]; discriminate.
Qed.

End ApiBuilt.

(** ** The properties on the scenarios *)

Section ScenarioProperties.

Import MemoryLogStorage.
Import Scenario.

Lemma fresh_api_built : api_built fresh.
Proof.
  apply (api_created mem (Some (decision properties)) (Some durable) None fresh).
  reflexivity.
Qed.

Lemma collector_api_built : api_built collector.
Proof.
  apply (api_initialized fresh (Some storage) (Some properties) (Some status_view)
           (Some (decision properties)) world0 collector world0).
  - exact fresh_api_built.
  - reflexivity.
Qed.

Lemma blind_api_built : api_built blind.
Proof.
  apply (api_initialized fresh (Some storage) (Some properties) (Some blind_view)
           (Some always_cleanup) world0 blind world0).
  - exact fresh_api_built.
  - reflexivity.
Qed.

Lemma overfull_api_built : api_built overfull.
Proof.
  apply (api_initialized fresh (Some storage) (Some properties) (Some overfull_view)
           (Some (decision properties)) world0 overfull world0).
  - exact fresh_api_built.
  - reflexivity.
Qed.

(** C9 as stated does not hold.  A collector that [kaa_logging_init] bound
    to a status view without getters has its status view and its properties
    bound, and [kaa_profile_request_get_size] returns neither the formula
    nor [KAA_ERR_NOT_INITIALIZED] but [KAA_ERR_BAD_STATE].  And with a
    status view that reports one record and a total of 2^64 - 1 the
    function returns 18, while the formula gives 112: the sum is taken in
    [size_t]. *)
Lemma estimate_is_not_the_formula :
  (api_built blind /\
   log_storage_status blind = Some blind_view /\
   log_properties blind = Some properties /\
   kaa_profile_request_get_size (Some blind) (Some 0) world0
   = (KAA_ERR_BAD_STATE, Some 0)) /\
  (api_built overfull /\
   log_storage_status overfull = Some overfull_view /\
   log_properties overfull = Some properties /\
   kaa_profile_request_get_size (Some overfull) (Some 0) world0
   = (KAA_ERR_NONE, Some 18) /\
   KAA_EXTENSION_HEADER_SIZE + 4
   + Z.min (max_log_block_size properties) (1 * 4 + 1 * 3 + (2 ^ 64 - 1)) = 112).
Proof.
  split.
  - split; [exact blind_api_built |]. repeat split.
  - split; [exact overfull_api_built |]. repeat split.
Qed.

Lemma add_record_not_ready_witness :
  kaa_logging_add_record mem (Some collector) (Some (user_record 10 1)) world0
    = Returns (KAA_ERR_BAD_STATE, world0)
  <-> (log_storage collector = None \/ log_properties collector = None \/
       log_storage_status collector = None \/ is_upload_needed_fn collector = None).
Proof.
  apply (add_record_not_ready mem collector (user_record 10 1) world0).
  exact collector_api_built.
Defined.

Lemma fresh_collector_is_not_ready_witness :
  kaa_logging_add_record mem (Some fresh) (Some (user_record 10 1)) world0
    = Returns (KAA_ERR_BAD_STATE, world0) /\
  kaa_logging_request_serialize (pf LittleEndian) (Some fresh) (Some (blank 16)) world0
    = Returns (KAA_ERR_BAD_STATE, (Some fresh, Some (blank 16), world0)) /\
  kaa_profile_request_get_size (Some fresh) (Some 0) world0
    = (KAA_ERR_NOT_INITIALIZED, Some 0) /\
  kaa_logging_handle_server_sync (Some fresh) (Some (response 0)) 0 4 world0
    = Returns (KAA_ERR_NOT_INITIALIZED, (Some (response 0), world0)) /\
  kaa_log_collector_destroy (Some fresh) world0 = world0.
Proof.
  apply (fresh_collector_is_not_ready mem (Some (decision properties)) (Some durable)
           None fresh (pf LittleEndian) (user_record 10 1) (blank 16) 0 (response 0)
           0 4 world0).
  reflexivity.
Defined.

Lemma every_backend_is_destroyed_once_witness :
  fst bound_once = KAA_ERR_NONE /\ fst bound_twice = KAA_ERR_NONE /\
  snd (snd bound_once) = world40 /\
  calls destroyed = calls world40 ++ [Call_destroy; Call_destroy] /\
  backend destroyed = destroy storage (destroy storage (backend world40)).
Proof.
  apply (every_backend_is_destroyed_once mem (Some (decision properties))
           (Some durable) None fresh
           storage properties status_view (decision properties)
           storage tight status_view (decision tight) world40).
  reflexivity.
Defined.

Lemma add_record_stores_then_decides_witness :
  exists data,
    len data = get_size (user_record 10 1) /\
    (len (serialize (user_record 10 1)) = get_size (user_record 10 1) ->
     data = serialize (user_record 10 1)) /\
    kaa_logging_add_record mem (Some collector) (Some (user_record 10 1)) world0
    = Returns (KAA_ERR_NONE,
               acted collector storage properties
                 (decision properties (Some status_view)
                    (add_log_record storage
                       {| record_data := Some data;
                          record_size := get_size (user_record 10 1) |}
                       (backend world0)))
                 {| backend :=
                      add_log_record storage
                        {| record_data := Some data;
                           record_size := get_size (user_record 10 1) |}
                        (backend world0);
                    calls :=
                      calls world0
                      ++ [Call_add_log_record
                            {| record_data := Some data;
                               record_size := get_size (user_record 10 1) |}] |}).
Proof.
  apply (add_record_stores_then_decides mem collector (user_record 10 1) world0
           storage properties status_view (decision properties)).
  - reflexivity.
  - reflexivity.
  - reflexivity.
  - reflexivity.
  - simpl. discriminate.
  - simpl. lia.
  - reflexivity.
  - reflexivity.
Defined.

Lemma add_record_fails_cleanly_witness :
  (log_storage collector <> None -> 0 < get_size (user_record 10 1) ->
   KAA_MALLOC starved (get_size (user_record 10 1) * 1) = false \/
   avro_writer_memory starved (get_size (user_record 10 1)) = false ->
   kaa_logging_add_record starved (Some collector) (Some (user_record 10 1)) world40
   = Returns (KAA_ERR_NOMEM, world40)) /\
  (forall e w',
      kaa_logging_add_record starved (Some collector) (Some (user_record 10 1)) world40
      = Returns (e, w') ->
      (e <> KAA_ERR_NONE -> w' = world40) /\
      (e = KAA_ERR_NOMEM ->
       log_storage collector <> None /\ 0 < get_size (user_record 10 1) /\
       (KAA_MALLOC starved (get_size (user_record 10 1) * 1) = false \/
        avro_writer_memory starved (get_size (user_record 10 1)) = false)) /\
      (e = KAA_ERR_NONE ->
       log_storage collector <> None /\ 0 < get_size (user_record 10 1) /\
       KAA_MALLOC starved (get_size (user_record 10 1) * 1) = true /\
       avro_writer_memory starved (get_size (user_record 10 1)) = true /\
       exists data rest,
         len data = get_size (user_record 10 1) /\
         calls w'
         = calls world40
           ++ Call_add_log_record
                {| record_data := Some data;
                   record_size := get_size (user_record 10 1) |}
              :: rest)).
Proof.
  apply (add_record_fails_cleanly starved collector (user_record 10 1) world40).
  apply collector_of_inv.
Defined.

Lemma request_size_estimate_bounded_witness :
  exists estimate,
    kaa_profile_request_get_size (Some collector) (Some 0) tight_world
      = (KAA_ERR_NONE, Some estimate) /\
    KAA_EXTENSION_HEADER_SIZE + 4 <= estimate
      <= KAA_EXTENSION_HEADER_SIZE + 4 + max_log_block_size properties.
Proof.
  apply (request_size_estimate_bounded collector 0 tight_world status_view properties
           (fun s => len (pending s) + len (in_flight s))
           (fun s => total_size_of (pending s) + total_size_of (map snd (in_flight s)))).
  - reflexivity.
  - reflexivity.
  - reflexivity.
  - reflexivity.
  - simpl. lia.
  - vm_compute. reflexivity.
Defined.

Lemma request_early_exit_changes_nothing_witness :
  (log_storage fresh = None \/
   (exists storage, log_storage fresh = Some storage /\ get_record storage = None) \/
   log_properties fresh = None ->
   kaa_logging_request_serialize (pf LittleEndian) (Some fresh) (Some (blank 16)) world0
   = Returns (KAA_ERR_BAD_STATE, (Some fresh, Some (blank 16), world0))) /\
  (forall storage get props,
      log_storage fresh = Some storage -> get_record storage = Some get ->
      log_properties fresh = Some props ->
      wend (blank 16) < wcurrent (blank 16) + KAA_EXTENSION_HEADER_SIZE ->
      kaa_logging_request_serialize (pf LittleEndian) (Some fresh) (Some (blank 16))
        world0
      = Returns (KAA_ERR_WRITE_FAILED, (Some fresh, Some (blank 16), world0))).
Proof.
  apply (request_early_exit_changes_nothing (pf LittleEndian) fresh (blank 16) world0).
  simpl. lia.
Defined.

Lemma request_without_status_leaves_header_witness :
  exists wr',
    kaa_logging_request_serialize (pf LittleEndian)
      (Some (collector_of properties None)) (Some (blank 16)) world0
    = Returns (KAA_ERR_BAD_STATE, (Some (collector_of properties None), Some wr', world0)) /\
    wcurrent wr' = wcurrent (blank 16) + KAA_EXTENSION_HEADER_SIZE /\
    wend wr' = wend (blank 16) /\
    peek (wcurrent (blank 16)) 8 (wbuf wr') = extension_header (pf LittleEndian) /\
    extension_length_field (wcurrent (blank 16)) wr' = 0.
Proof.
  apply (request_without_status_leaves_header (pf LittleEndian)
           (collector_of properties None) (blank 16) world0
           storage mem_get_record properties).
  - reflexivity.
  - reflexivity.
  - reflexivity.
  - reflexivity.
  - reflexivity.
  - simpl. lia.
  - vm_compute. discriminate.
Defined.

Lemma request_calls_carry_one_id_witness :
  exists news,
    calls tight_world = calls tight_loaded ++ news /\
    forallb (uses_id (log_bucket_id (set_log_bucket_id (collector_of tight (Some durable)) 8)))
            news = true /\
    (KAA_ERR_NONE = KAA_ERR_NONE ->
     bucket_id_field (wcurrent (blank 32)) tight_writer
     = log_bucket_id (set_log_bucket_id (collector_of tight (Some durable)) 8)).
Proof.
  apply (request_calls_carry_one_id (pf LittleEndian) (collector_of tight (Some durable))
           (blank 32) tight_loaded KAA_ERR_NONE
           (set_log_bucket_id (collector_of tight (Some durable)) 8)
           tight_writer tight_world).
  - simpl. lia.
  - reflexivity.
Defined.

Lemma request_asks_boundedly_witness :
  exists e c' wr' w',
    kaa_logging_request_serialize (pf LittleEndian) (Some collector) (Some (blank 16))
      world0
      = Returns (e, (Some c', Some wr', w')) /\
    (e = KAA_ERR_NONE \/ e = KAA_ERR_WRITE_FAILED \/ e = KAA_ERR_BAD_STATE) /\
    (Z.of_nat (count_calls is_get_record (skipn (length (calls world0)) (calls w')))
     <= (wend (blank 16) - (wcurrent (blank 16) + KAA_EXTENSION_HEADER_SIZE + 4)) / 4 + 1).
Proof.
  apply (request_asks_boundedly (pf LittleEndian) collector (blank 16) world0).
  - simpl. lia.
  - vm_compute. discriminate.
Defined.

Lemma request_is_self_describing_witness :
  wend tight_writer = wend (blank 32) /\
  wcurrent tight_writer <= wend tight_writer /\
  wcurrent tight_writer
    = wcurrent (blank 32) + KAA_EXTENSION_HEADER_SIZE + 4
      + len (concat (map (record_bytes (host_order (pf LittleEndian)))
                         (handed_out (skipn (length (calls tight_loaded))
                                            (calls tight_world))))) /\
  extension_length_field (wcurrent (blank 32)) tight_writer
    = (wcurrent tight_writer - (wcurrent (blank 32) + KAA_EXTENSION_HEADER_SIZE))
      mod 2 ^ 32 /\
  records_count_field (wcurrent (blank 32)) tight_writer
    = len (handed_out (skipn (length (calls tight_loaded)) (calls tight_world)))
      mod 2 ^ 16 /\
  peek (wcurrent (blank 32) + KAA_EXTENSION_HEADER_SIZE + 4)
       (length (concat (map (record_bytes (host_order (pf LittleEndian)))
                            (handed_out (skipn (length (calls tight_loaded))
                                               (calls tight_world))))))
       (wbuf tight_writer)
    = concat (map (record_bytes (host_order (pf LittleEndian)))
                  (handed_out (skipn (length (calls tight_loaded)) (calls tight_world)))).
Proof.
  apply (request_is_self_describing (pf LittleEndian) (collector_of tight (Some durable))
           (blank 32) tight_loaded
           (set_log_bucket_id (collector_of tight (Some durable)) 8)
           tight_writer tight_world).
  - simpl. lia.
  - reflexivity.
Defined.

Lemma bucket_id_wraps_to_unset_witness :
  bucket_id_field (wcurrent (blank 16)) (empty_writer 0) = 0 /\
  log_bucket_id (set_log_bucket_id last_id 0) = 0 /\
  bucket_id_field (wcurrent (blank 16)) (empty_writer 8)
    = to_uint16 (to_uint16 (status_log_bucket_id durable) + 1).
Proof.
  apply (bucket_id_wraps_to_unset (pf LittleEndian) last_id (blank 16) world0
           (set_log_bucket_id last_id 0) (empty_writer 0) (empty_world 0)
           (blank 16) world0
           (set_log_bucket_id (set_log_bucket_id last_id 0) 8)
           (empty_writer 8) (empty_world 8) durable).
  - reflexivity.
  - reflexivity.
  - simpl. lia.
  - simpl. lia.
  - reflexivity.
  - reflexivity.
Defined.

Lemma estimate_covers_request_witness :
  exists estimate,
    kaa_profile_request_get_size (Some (collector_of tight (Some durable))) (Some 0)
      tight_loaded
      = (KAA_ERR_NONE, Some estimate) /\
    wcurrent tight_writer - wcurrent (blank 32) <= estimate.
Proof.
  apply (estimate_covers_request (pf LittleEndian) (collector_of tight (Some durable))
           (blank 32) tight_loaded
           (set_log_bucket_id (collector_of tight (Some durable)) 8)
           tight_writer tight_world 0
           storage mem_get_record tight status_view
           (fun s => len (pending s) + len (in_flight s))
           (fun s => total_size_of (pending s) + total_size_of (map snd (in_flight s)))).
  - reflexivity.
  - reflexivity.
  - reflexivity.
  - reflexivity.
  - reflexivity.
  - reflexivity.
  - exact mem_get_record_fits.
  - simpl. lia.
  - simpl. lia.
  - reflexivity.
  - change (Forall (fun r => 0 <= record_size r < 2 ^ 63) [stored 12 5]).
    constructor; [simpl; lia | constructor].
  - vm_compute. split; [discriminate | reflexivity].
  - vm_compute. split; [discriminate | reflexivity].
Defined.


Lemma server_sync_acknowledges_then_decides_witness :
  exists w',
    kaa_logging_handle_server_sync (Some collector) (Some (response 1)) 0 4 tight_world
    = Returns (KAA_ERR_NONE,
               (Some {| rbuf := rbuf (response 1);
                        rcurrent := rcurrent (response 1) + 4 |}, w')) /\
    backend w'
    = match decision properties (Some status_view)
              match (if 1 =? 0 then upload_succeeded storage
                     else upload_failed storage) with
              | Some f => f (0 * 256 + 8) (backend tight_world)
              | None => backend tight_world
              end with
      | CLEANUP =>
          shrink_to_size storage (max_log_storage_volume properties)
            match (if 1 =? 0 then upload_succeeded storage
                   else upload_failed storage) with
            | Some f => f (0 * 256 + 8) (backend tight_world)
            | None => backend tight_world
            end
      | _ =>
          match (if 1 =? 0 then upload_succeeded storage
                 else upload_failed storage) with
          | Some f => f (0 * 256 + 8) (backend tight_world)
          | None => backend tight_world
          end
      end /\
    calls w'
    = calls tight_world
      ++ match (if 1 =? 0 then upload_succeeded storage
                else upload_failed storage) with
         | Some _ => [if 1 =? 0 then Call_upload_succeeded (0 * 256 + 8)
                      else Call_upload_failed (0 * 256 + 8)]
         | None => []
         end
      ++ Call_is_upload_needed
         :: match decision properties (Some status_view)
                    match (if 1 =? 0 then upload_succeeded storage
                           else upload_failed storage) with
                    | Some f => f (0 * 256 + 8) (backend tight_world)
                    | None => backend tight_world
                    end with
            | CLEANUP => [Call_shrink_to_size (max_log_storage_volume properties)]
            | UPLOAD =>
                if kaa_channel_manager_get_sync_handler (channel_manager collector)
                     KAA_SERVICE_LOGGING
                then [Call_sync logging_sync_services 1] else []
            | NOOP => []
            end.
Proof.
  apply (server_sync_acknowledges_then_decides collector (response 1) 0 4 tight_world
           storage properties status_view (decision properties) 0 8 1).
  - reflexivity.
  - reflexivity.
  - reflexivity.
  - reflexivity.
  - simpl. discriminate.
  - exists [], [0]. cbn. repeat split; (reflexivity || lia).
Defined.

Lemma request_overruns_short_buffer_witness :
  kaa_logging_request_serialize (pf LittleEndian) (Some collector) (Some (blank 9)) world0
  = Undefined.
Proof.
  apply (request_overruns_short_buffer (pf LittleEndian) collector (blank 9) world0
           storage mem_get_record properties 7).
  - reflexivity.
  - reflexivity.
  - reflexivity.
  - reflexivity.
  - simpl. lia.
  - vm_compute. split; [discriminate | reflexivity].
  - left. vm_compute. reflexivity.
Defined.

Lemma server_sync_reads_unguarded_witness :
  kaa_logging_handle_server_sync (Some collector) (Some cut_response) 0 4 world0
  = Undefined.
Proof.
  apply (server_sync_reads_unguarded collector cut_response 0 4 world0).
  - simpl. discriminate.
  - vm_compute. reflexivity.
Defined.

Lemma api_built_collector_is_bound_together_witness :
  0 <= log_bucket_id collector < 2 ^ 16 /\
  ((log_storage collector = None /\ log_properties collector = None /\
    log_storage_status collector = None) \/
   (log_storage collector <> None /\ log_properties collector <> None /\
    log_storage_status collector <> None /\ is_upload_needed_fn collector <> None)) /\
  (forall out w,
      kaa_profile_request_get_size (Some collector) (Some out) w
        = (KAA_ERR_NOT_INITIALIZED, Some out)
      <-> log_storage collector = None) /\
  (forall reader opts length_ w,
      kaa_logging_handle_server_sync (Some collector) (Some reader) opts length_ w
        = Returns (KAA_ERR_NOT_INITIALIZED, (Some reader, w))
      <-> log_storage collector = None).
Proof.
  apply (api_built_collector_is_bound_together collector).
  exact collector_api_built.
Defined.


End ScenarioProperties.
